(** * MyAnimeList Discord bot: pager, related-anime listing and the two games

  A shallow embedding of [app.py]: the related-anime listing of
  [format_anime_embed], the [PaginationView] buttons, and the
  Guess-The-Rating and Higher/Lower commands with their session stores.

  Conventions.
  - Python [int] is [Z]; Python [float] is the kernel's binary64 [float],
    with the IEEE operations Python itself uses.
  - Python [str] is a list of code points ([pystr]), so that [len] counts
    what Python counts.
  - [dict] used as a store is a [gmap] keyed by the user id.
  - A handler is a function from the state it reads to the state it leaves
    and the messages it sends; [random.randint] takes its value from an
    explicit oracle argument. *)

From Stdlib Require Import ZArith String Ascii List Lia Bool.
From Stdlib Require Import DecimalString.
From Stdlib Require Import Floats.
From Stdlib Require Import Sorted.
From stdpp Require Import gmap list.

Local Open Scope Z_scope.

#[local] Set Warnings "-register-all,-inexact-float".

(** ** Python strings *)

Module PyStr.

Definition pystr := list N.

(** An ASCII literal of the source. *)
Definition lit (s : string) : pystr :=
  map N_of_ascii (list_ascii_of_string s).

(** [len(x)], for strings and lists alike. *)
Definition len {A} (l : list A) : Z := Z.of_nat (length l).

(** [str(n)] for an [int]. *)
Definition str_of_int (n : Z) : pystr :=
  lit (NilZero.string_of_int (Z.to_int n)).

(** [sep.join(parts)]. *)
Fixpoint join (sep : pystr) (parts : list pystr) : pystr :=
  match parts with
  | [] => []
  | [p] => p
  | p :: rest => p ++ sep ++ join sep rest
  end.

(** [s.replace(old, new)] for one-character [old] and [new]. *)
Definition replace_char (old new : N) (s : pystr) : pystr :=
  map (fun c => if N.eqb c old then new else c) s.

Definition is_upper (c : N) : bool := (65 <=? c)%N && (c <=? 90)%N.
Definition is_lower (c : N) : bool := (97 <=? c)%N && (c <=? 122)%N.
Definition is_cased (c : N) : bool := is_upper c || is_lower c.
Definition to_upper (c : N) : N := if is_lower c then (c - 32)%N else c.
Definition to_lower (c : N) : N := if is_upper c then (c + 32)%N else c.

(** [s.lower()] and [s.title()] on the ASCII letters; other code points are
    left as they are.  The bot lower-cases the difficulty and the ranking
    type before it looks them up among its own ASCII words, and no
    character outside ASCII lower-cases to a letter of those words, so the
    look-ups come out as in Python; it title-cases the relation types of the
    catalogue ([sequel], [side_story], ...). *)
Definition lower (s : pystr) : pystr := map to_lower s.

Fixpoint title_from (previous_is_cased : bool) (s : pystr) : pystr :=
  match s with
  | [] => []
  | c :: rest =>
      (if previous_is_cased then to_lower c else to_upper c)
        :: title_from (is_cased c) rest
  end.

Definition str_title (s : pystr) : pystr := title_from false s.

Definition newline : pystr := [10%N].
Definition dquote : pystr := [34%N].

End PyStr.

Import PyStr.

(** ** [format_anime_embed]: the related-anime field *)

Module Related.

(** One entry of [anime_data["related_anime"]]:
    [{"node": {"id": ..., "title": ...}, "relation_type": ...}]. *)
Record related_entry := {
  node_title : pystr;
  node_id : Z;
  relation_type : pystr;
}.

Definition MAX_FIELD_LEN : Z := 1024.

(** ["…more related anime available on the MyAnimeList page."]; the first
    character is U+2026. *)
Definition FOOTER_TEXT : pystr :=
  8230%N :: lit "more related anime available on the MyAnimeList page.".

Definition underscore : N := 95.
Definition space : N := 32.

(** The f-string of one candidate line. *)
Definition format_line (r : related_entry) : pystr :=
  lit "[" ++ node_title r ++ lit "](https://myanimelist.net/anime/"
    ++ str_of_int (node_id r) ++ lit ") ("
    ++ str_title (replace_char underscore space (relation_type r))
    ++ lit ", ID: " ++ str_of_int (node_id r) ++ lit ")".

(** [sum(len(l) + 1 for l in lines)]. *)
Fixpoint sum_len1 (lines : list pystr) : Z :=
  match lines with
  | [] => 0
  | l :: rest => (len l + 1) + sum_len1 rest
  end.

(** The [for r in related] loop, started with the lines collected so far.
    The [break] ends the recursion. *)
Fixpoint related_loop (lines : list pystr) (related : list related_entry)
  : list pystr :=
  match related with
  | [] => lines
  | r :: rest =>
      let line := format_line r in
      let projected_length := sum_len1 lines + len line in
      if MAX_FIELD_LEN <? projected_length + len FOOTER_TEXT
      then lines ++ [FOOTER_TEXT]
      else related_loop (lines ++ [line]) rest
  end.

Definition related_lines (related : list related_entry) : list pystr :=
  related_loop [] related.

(** [related_str = "\n".join(lines) if lines else "None"]. *)
Definition related_str (related : list related_entry) : pystr :=
  match related_lines related with
  | [] => lit "None"
  | lines => join newline lines
  end.

(** How many candidates made it into the field. *)
Fixpoint kept (lines : list pystr) (related : list related_entry) : nat :=
  match related with
  | [] => 0
  | r :: rest =>
      let line := format_line r in
      if MAX_FIELD_LEN <? sum_len1 lines + len line + len FOOTER_TEXT
      then 0%nat
      else S (kept (lines ++ [line]) rest)
  end.

(** A sequel whose title is [title_len] times the letter A. *)
Definition sequel (title_len : nat) (id : Z) : related_entry :=
  {| node_title := repeat 65%N title_len;
     node_id := id;
     relation_type := lit "sequel" |}.

(** Ten sequels whose lines have 96 characters, nine of them, and 97, one,
    followed by an eleventh entry. *)
Definition crowded : list related_entry :=
  map (sequel 37) [10001; 10002; 10003; 10004; 10005; 10006; 10007; 10008; 10009]
    ++ [sequel 38 10010; sequel 5 10011].

End Related.

Import Related.

(** ** Catalogue records and chat messages *)

Module Catalog.

(** The [node] dictionary of a ranking, seasonal or list entry.  Every key
    may be missing; [main_picture] holds the [medium] URL. *)
Record node := {
  n_id : option Z;
  n_title : option pystr;
  n_alt_en : option pystr;
  n_mean : option float;
  n_rank : option Z;
  n_main_picture : option pystr;
}.

(** [{}], the default of [item.get("node", {})]. *)
Definition empty_node : node :=
  {| n_id := None; n_title := None; n_alt_en := None;
     n_mean := None; n_rank := None; n_main_picture := None |}.

(** [list_status] of a personal-list entry. *)
Record list_status := {
  ls_score : option Z;
  ls_status : option pystr;
}.

(** One element of a response's ["data"] list. *)
Record item := {
  i_node : option node;
  i_list_status : option list_status;
}.

(** [item.get("node", {})]. *)
Definition get_node (it : item) : node := default empty_node (i_node it).

(** What an embed shows in a field: text, a number, [None], or an f-string
    of such pieces (numbers are left unprinted). *)
Inductive value :=
| VStr (s : pystr)
| VInt (z : Z)
| VFloat (f : float)
| VNone
| VFmt (parts : list value).

Record embed := {
  e_title : pystr;
  e_description : option value;
  e_fields : list (pystr * value);
  e_image : option pystr;
}.

(** A message sent to the channel: plain text, an embed, or an embed with a
    [HigherLowerView] for the given user. *)
Inductive reply :=
| Msg (text : pystr)
| Emb (e : embed)
| EmbView (e : embed) (view_user : Z).

Definition get_anime_title_with_alternative (anime_data : node) : pystr :=
  let title := default (lit "Unknown") (n_title anime_data) in
  match n_alt_en anime_data with
  | Some en_title =>
      if bool_decide (en_title <> []) && bool_decide (en_title <> title)
      then en_title ++ newline ++ lit "(" ++ title ++ lit ")"
      else title
  | None => title
  end.

(** [l[start:end]] for a list. *)
Definition slice {A} (l : list A) (start stop : Z) : list A :=
  let n := len l in
  let clamp i := Z.min n (Z.max 0 (if i <? 0 then i + n else i)) in
  let a := clamp start in
  let b := clamp stop in
  take (Z.to_nat (b - a)) (drop (Z.to_nat a) l).

(** [l.pop(i)]: the element and the list left; [None] is [IndexError]. *)
Definition pop {A} (l : list A) (i : Z) : option (A * list A) :=
  let j := if i <? 0 then i + len l else i in
  if (j <? 0) || (len l <=? j) then None
  else match l !! Z.to_nat j with
       | Some x => Some (x, delete (Z.to_nat j) l)
       | None => None
       end.

(** [random.randint(lo, hi)]: the generator is not modelled; the value is
    the oracle's [rnd] brought into [lo..hi], so every value of the range
    can come out and no other. *)
Definition randint (lo hi rnd : Z) : Z := lo + rnd mod (hi - lo + 1).

End Catalog.

Import Catalog.

(** ** [PaginationView] *)

Module Pager.

Record PaginationView := {
  data : list item;
  title : pystr;
  user_id : Z;
  profile_url : option pystr;
  is_ranking : bool;
  current_page : Z;
  per_page : Z;
  total_pages : Z;
  prev_disabled : bool;
  prev_five_disabled : bool;
  next_five_disabled : bool;
  next_disabled : bool;
}.

Definition with_current_page (self : PaginationView) (p : Z) : PaginationView :=
  {| data := data self; title := title self; user_id := user_id self;
     profile_url := profile_url self; is_ranking := is_ranking self;
     current_page := p;
     per_page := per_page self; total_pages := total_pages self;
     prev_disabled := prev_disabled self;
     prev_five_disabled := prev_five_disabled self;
     next_five_disabled := next_five_disabled self;
     next_disabled := next_disabled self |}.

Definition update_buttons (self : PaginationView) : PaginationView :=
  {| data := data self; title := title self; user_id := user_id self;
     profile_url := profile_url self; is_ranking := is_ranking self;
     current_page := current_page self;
     per_page := per_page self; total_pages := total_pages self;
     prev_disabled := current_page self =? 0;
     prev_five_disabled := current_page self =? 0;
     next_five_disabled := total_pages self - 1 <=? current_page self;
     next_disabled := total_pages self - 1 <=? current_page self |}.

(** [__init__]. *)
Definition init (data : list item) (title : pystr) (user_id : Z)
    (profile_url : option pystr) (is_ranking : bool) : PaginationView :=
  let per_page := 10 in
  update_buttons
    {| data := data; title := title; user_id := user_id;
       profile_url := profile_url; is_ranking := is_ranking;
       current_page := 0;
       per_page := per_page;
       total_pages := (len data + per_page - 1) / per_page;
       prev_disabled := false; prev_five_disabled := false;
       next_five_disabled := false; next_disabled := false |}.

Definition opt_int (o : option Z) : value :=
  match o with Some z => VInt z | None => VStr (lit "N/A") end.

Definition opt_float (o : option float) : value :=
  match o with Some f => VFloat f | None => VStr (lit "N/A") end.

Definition render_item (ranking : bool) (it : item) : pystr * value :=
  let node := get_node it in
  let title := get_anime_title_with_alternative node in
  let anime_id := opt_int (n_id node) in
  let mal_url :=
    match n_id node with
    | Some i => VFmt [VStr (lit "https://myanimelist.net/anime/"); VInt i]
    | None => VStr (lit "N/A")
    end in
  let name :=
    title ++ newline ++ lit "(ID: "
      ++ match n_id node with Some i => str_of_int i | None => lit "N/A" end
      ++ lit ")" in
  if ranking then
    (name,
     VFmt [VStr (lit "[View on MAL]("); mal_url; VStr (lit ")" ++ newline ++ lit "Rank: ");
           opt_int (n_rank node); VStr (lit " | Score: "); opt_float (n_mean node)])
  else
    let ls := default {| ls_score := None; ls_status := None |} (i_list_status it) in
    (name,
     VFmt [VStr (lit "[View on MAL]("); mal_url; VStr (lit ")" ++ newline ++ lit "Score: ");
           VInt (default 0 (ls_score ls)); VStr (lit "/10 | Status: ");
           match ls_status ls with Some s => VStr s | None => VNone end]).

Definition get_embed (self : PaginationView) : embed :=
  let start := current_page self * per_page self in
  let stop := start + per_page self in
  let page_data := slice (data self) start stop in
  let page_of :=
    [VStr (lit "Page "); VInt (current_page self + 1); VStr (lit "/");
     VInt (total_pages self)] in
  let description :=
    match profile_url self with
    | Some ((_ :: _) as url) =>
        VFmt (VStr (lit "[View profile on MAL](" ++ url ++ lit ")" ++ newline ++ newline)
                :: page_of)
    | _ => VFmt page_of
    end in
  {| e_title := title self;
     e_description := Some description;
     e_fields := map (render_item (is_ranking self)) page_data;
     e_image := None |}.

(** What a handler called on [interaction.response]. *)
Inductive response_call :=
| Defer
| EditMessage (e : embed) (view : PaginationView).

(** The interaction a button callback receives: who pressed, and the calls
    made on its response so far.  The platform lets an interaction be
    answered once: a second call raises [InteractionResponded]. *)
Record interaction := {
  user : Z;
  responses : list response_call;
}.

Inductive exn := InteractionResponded.

(** A callback runs on the view and the interaction; what it changed stays
    changed when it raises. *)
Record world := {
  view : PaginationView;
  inter : interaction;
}.

Definition M (A : Type) : Type := world -> world * (exn + A).

Definition ret {A} (a : A) : M A := fun w => (w, inr a).

Definition bind {A B} (m : M A) (k : A -> M B) : M B :=
  fun w =>
    match m w with
    | (w', inl e) => (w', inl e)
    | (w', inr a) => k a w'
    end.

Definition self_get : M PaginationView := fun w => (w, inr (view w)).

Definition self_set (v : PaginationView) : M unit :=
  fun w => ({| view := v; inter := inter w |}, inr tt).

Definition interaction_user : M Z := fun w => (w, inr (user (inter w))).

Definition respond (c : response_call) : M unit :=
  fun w =>
    match responses (inter w) with
    | [] => ({| view := view w;
                inter := {| user := user (inter w); responses := [c] |} |}, inr tt)
    | _ :: _ => (w, inl InteractionResponded)
    end.

Definition defer : M unit := respond Defer.

Definition edit_message : M unit :=
  bind self_get (fun self => respond (EditMessage (get_embed self) self)).

Declare Scope py_scope.
Delimit Scope py_scope with py.
Notation "x <- m ;; k" := (bind m (fun x => k))
  (at level 100, m at next level, right associativity) : py_scope.
Notation "m ;;; k" := (bind m (fun _ => k))
  (at level 100, right associativity) : py_scope.
Local Open Scope py_scope.

(** The two callbacks that return after deferring to a stranger. *)
Definition prev_five_button : M unit :=
  who <- interaction_user ;;
  self <- self_get ;;
  if negb (who =? user_id self) then defer
  else
    if 0 <? current_page self then
      self_set (with_current_page self (Z.max 0 (current_page self - 5))) ;;;
      (self <- self_get ;; self_set (update_buttons self)) ;;;
      edit_message
    else defer.

Definition next_five_button : M unit :=
  who <- interaction_user ;;
  self <- self_get ;;
  if negb (who =? user_id self) then defer
  else
    if current_page self <? total_pages self - 1 then
      self_set (with_current_page self
                  (Z.min (total_pages self - 1) (current_page self + 5))) ;;;
      (self <- self_get ;; self_set (update_buttons self)) ;;;
      edit_message
    else defer.

(** The two callbacks that defer to a stranger and carry on. *)
Definition prev_button : M unit :=
  who <- interaction_user ;;
  self <- self_get ;;
  (if negb (who =? user_id self) then defer else ret tt) ;;;
  (self <- self_get ;;
   if 0 <? current_page self then
     self_set (with_current_page self (current_page self - 1)) ;;;
     (self <- self_get ;; self_set (update_buttons self)) ;;;
     edit_message
   else defer).

Definition next_button : M unit :=
  who <- interaction_user ;;
  self <- self_get ;;
  (if negb (who =? user_id self) then defer else ret tt) ;;;
  (self <- self_get ;;
   if current_page self <? total_pages self - 1 then
     self_set (with_current_page self (current_page self + 1)) ;;;
     (self <- self_get ;; self_set (update_buttons self)) ;;;
     edit_message
   else defer).

Inductive button := Prev | PrevFive | NextFive | Next.

Definition callback (b : button) : M unit :=
  match b with
  | Prev => prev_button
  | PrevFive => prev_five_button
  | NextFive => next_five_button
  | Next => next_button
  end.

(** A press of [b] by [who], as a fresh interaction on the view. *)
Definition press (b : button) (who : Z) (self : PaginationView)
  : world * (exn + unit) :=
  callback b {| view := self; inter := {| user := who; responses := [] |} |}.

Definition page_after (b : button) (who : Z) (self : PaginationView) : Z :=
  current_page (view (fst (press b who self))).

(** The page each control asks for, in the words of the design. *)
Definition target_page (b : button) (self : PaginationView) : Z :=
  match b with
  | Prev => Z.max 0 (current_page self - 1)
  | PrevFive => Z.max 0 (current_page self - 5)
  | NextFive => Z.min (total_pages self - 1) (current_page self + 5)
  | Next => Z.min (total_pages self - 1) (current_page self + 1)
  end.

Definition blank_item : item := {| i_node := None; i_list_status := None |}.

(** A list of 23 entries browsed by user 1, turned to its second page. *)
Definition second_page : PaginationView :=
  update_buttons (with_current_page (init (repeat blank_item 23) (lit "List") 1 None false) 1).

End Pager.

(** ** The ranking endpoint and the batched fetch of both game commands *)

Module Ranking.

(** The parameters [get_top_anime_by_rank] sends. *)
Record request := {
  rq_ranking_type : pystr;
  rq_limit : Z;
  rq_offset : Z;
}.

(** The catalogue as the bot sees it: the ["data"] list of the answer, or
    [None] when the status is not 200 or the answer has no ["data"].  The
    requests of one command differ in their offsets, so a function of the
    request covers every sequence of answers a command can get. *)
Definition upstream := request -> option (list item).

Definition get_top_anime_by_rank (api : upstream)
    (limit : Z) (ranking_type : pystr) (offset : Z)
  : request * option (list item) :=
  let rq := {| rq_ranking_type := ranking_type;
               rq_limit := Z.min limit 500;
               rq_offset := offset |} in
  (rq, api rq).

(** The [while remaining > 0] loop; [log] collects the requests issued.
    Every round takes at least one from [remaining], so [remaining] rounds
    are enough: [fetch_loop_fuel]. *)
Fixpoint fetch_loop (fuel : nat) (api : upstream) (ranking_type : pystr)
    (all_anime : list item) (offset remaining : Z) (log : list request)
  : list item * list request :=
  match fuel with
  | O => (all_anime, log)
  | S fuel' =>
      if 0 <? remaining then
        let batch_limit := Z.min remaining 500 in
        let '(rq, response) :=
          get_top_anime_by_rank api batch_limit ranking_type offset in
        match response with
        | None => (all_anime, log ++ [rq])
        | Some data =>
            let all_anime := all_anime ++ data in
            if len data <? batch_limit then (all_anime, log ++ [rq])
            else fetch_loop fuel' api ranking_type all_anime
                   (offset + batch_limit) (remaining - batch_limit) (log ++ [rq])
        end
      else (all_anime, log)
  end.

Definition fetch_all (api : upstream) (ranking_type : pystr) (limit : Z)
  : list item * list request :=
  fetch_loop (Z.to_nat limit) api ranking_type [] 0 limit [].

(** The records the answers to the requests of [log] carried, in order. *)
Definition received (api : upstream) (log : list request) : list item :=
  flat_map (fun rq => default [] (api rq)) log.

Inductive pyexn := UnboundLocalError | IndexError.

(** What a command leaves behind: the session store, the messages sent, the
    requests issued upstream, and the exception that ended it, if any. *)
Record outcome (S : Type) := {
  store : S;
  sent : list reply;
  requests : list request;
  raised : option pyexn;
}.
Arguments store {S} _.
Arguments sent {S} _.
Arguments requests {S} _.
Arguments raised {S} _.

Definition valid_types : list pystr :=
  [lit "bypopularity"; lit "airing"; lit "movie"; lit "favorite"].

Definition quoted (s : pystr) : pystr := dquote ++ s ++ dquote.

Definition correct_title : pystr := 10003%N :: lit " Correct!".
Definition wrong_title : pystr := 10007%N :: lit " Wrong!".
Definition could_not_start : reply := Msg (lit "Could not start game.").

(** A field of an embed, by name. *)
Definition field (name : pystr) (e : embed) : option value :=
  snd <$> List.find (fun nv => bool_decide (fst nv = name)) (e_fields e).

Definition embed_of (r : reply) : embed :=
  match r with
  | Emb e | EmbView e _ => e
  | Msg _ => {| e_title := []; e_description := None; e_fields := []; e_image := None |}
  end.

(** The turn was answered with the "Correct!" embed. *)
Definition judged_correct {S} (o : outcome S) : bool :=
  match sent o with
  | r :: _ => bool_decide (e_title (embed_of r) = correct_title)
  | [] => false
  end.

(** The turn was answered with the "Wrong!" embed. *)
Definition judged_wrong {S} (o : outcome S) : bool :=
  match sent o with
  | r :: _ => bool_decide (e_title (embed_of r) = wrong_title)
  | [] => false
  end.

(** The field [name] of the first message sent. *)
Definition reported {S} (name : pystr) (o : outcome S) : option value :=
  match sent o with
  | r :: _ => field name (embed_of r)
  | [] => None
  end.

End Ranking.

Import Ranking.

(** ** Guess-The-Rating *)

Module GuessGame.

(** A value of [user_guess_sessions]. *)
Record session := {
  current_anime : node;
  anime_pool : list item;
  score : Z;
  difficulty : pystr;
}.

Definition difficulties : list pystr := [lit "easy"; lit "medium"; lit "hard"].

Definition start_first : reply := Msg (lit "Start a game first with /guessgame").

Definition keep (sessions : gmap Z session) (r : reply) : outcome (gmap Z session) :=
  {| store := sessions; sent := [r]; requests := []; raised := None |}.

(** [/guessgame]. *)
Definition guessgame (api : upstream) (user_guess_sessions : gmap Z session)
    (user_id : Z) (difficulty : pystr) (limit : Z) (ranking_type : pystr)
    (rnd : Z) : outcome (gmap Z session) :=
  let difficulty := lower difficulty in
  if negb (bool_decide (difficulty ∈ difficulties)) then
    keep user_guess_sessions
      (Msg (lit "Invalid difficulty " ++ quoted difficulty
              ++ lit ". Valid options: " ++ join (lit ", ") difficulties
              ++ lit ". Use `/help guessgame` for more info."))
  else if (limit <? 1) || (2500 <? limit) then
    keep user_guess_sessions
      (Msg (lit "Limit must be a number between 1-2500. Use `/help guessgame` for more info."))
  else
    let ranking_type := lower ranking_type in
    let ranking_type :=
      if bool_decide (ranking_type = lit "popularity")
      then lit "bypopularity" else ranking_type in
    if negb (bool_decide (ranking_type ∈ valid_types)) then
      keep user_guess_sessions
        (Msg (lit "Invalid ranking type " ++ quoted ranking_type
                ++ lit ". Valid options: " ++ join (lit ", ") valid_types
                ++ lit ". Use `/help guessgame` for more info."))
    else
      let '(all_anime, log) := fetch_all api ranking_type limit in
      match all_anime with
      | [] =>
          {| store := user_guess_sessions; sent := [could_not_start];
             requests := log; raised := None |}
      | _ :: _ =>
          match pop all_anime (randint 0 (len all_anime - 1) rnd) with
          | None =>
              {| store := user_guess_sessions; sent := [];
                 requests := log; raised := Some IndexError |}
          | Some (drawn, all_anime) =>
              let current_anime := get_node drawn in
              let margin := 0.25%float in
              let margin :=
                if bool_decide (difficulty = lit "easy") then 0.5%float else margin in
              let margin :=
                if bool_decide (difficulty = lit "hard") then 0.1%float else margin in
              {| store :=
                   <[user_id := {| current_anime := current_anime;
                                   anime_pool := all_anime;
                                   score := 0;
                                   difficulty := difficulty |}]> user_guess_sessions;
                 sent :=
                   [Emb {| e_title := lit "Guess The Rating Game";
                           e_description := None;
                           e_fields :=
                             [(lit "Anime",
                               VStr (get_anime_title_with_alternative current_anime));
                              (lit "Instructions",
                               VFmt [VStr (lit "Guess the rating (0-10) within " ++ [177%N]);
                                     VFloat margin;
                                     VStr (lit " points!" ++ newline
                                             ++ lit "Use: /guess <number>")])];
                           e_image := n_main_picture current_anime |}];
                 requests := log;
                 raised := None |}
          end
      end.

(** The three [if]s of [guess] that bind [margin]; [None] is the name left
    unbound. *)
Definition margin_of (difficulty : pystr) : option float :=
  let margin := None in
  let margin := if bool_decide (difficulty = lit "easy") then Some 0.5%float else margin in
  let margin := if bool_decide (difficulty = lit "medium") then Some 0.25%float else margin in
  let margin := if bool_decide (difficulty = lit "hard") then Some 0.1%float else margin in
  margin.

(** [/guess].  [guess_value] arrives as a [float]. *)
Definition guess (user_guess_sessions : gmap Z session) (user_id : Z)
    (guess_value : float) (rnd : Z) : outcome (gmap Z session) :=
  match user_guess_sessions !! user_id with
  | None => keep user_guess_sessions start_first
  | Some session =>
      if (guess_value <? 0)%float || (10 <? guess_value)%float then
        keep user_guess_sessions
          (Msg (lit "Rating must be between 0 and 10. Use `/help guess` for more info."))
      else
        let current_anime := current_anime session in
        let actual_rating := default 0%float (n_mean current_anime) in
        match margin_of (difficulty session) with
        | None =>
            {| store := user_guess_sessions; sent := [];
               requests := []; raised := Some UnboundLocalError |}
        | Some margin =>
            let anime_pool := anime_pool session in
            if (abs (guess_value - actual_rating) <=? margin)%float then
              let score := score session + 1 in
              match anime_pool with
              | _ :: _ =>
                  match pop anime_pool (randint 0 (len anime_pool - 1) rnd) with
                  | None =>
                      {| store :=
                           <[user_id := {| current_anime := current_anime;
                                           anime_pool := anime_pool;
                                           score := score;
                                           difficulty := difficulty session |}]>
                             user_guess_sessions;
                         sent := []; requests := []; raised := Some IndexError |}
                  | Some (drawn, anime_pool) =>
                      let next_anime := get_node drawn in
                      {| store :=
                           <[user_id := {| current_anime := next_anime;
                                           anime_pool := anime_pool;
                                           score := score;
                                           difficulty := difficulty session |}]>
                             user_guess_sessions;
                         sent :=
                           [Emb {| e_title := correct_title;
                                   e_description := None;
                                   e_fields :=
                                     [(lit "Your Guess", VFloat guess_value);
                                      (lit "Actual Rating", VFloat actual_rating);
                                      (lit "Difficulty: ", VStr (difficulty session));
                                      (lit "Current Score", VInt score);
                                      (lit "Next Anime",
                                       VStr (get_anime_title_with_alternative next_anime))];
                                   e_image := n_main_picture next_anime |}];
                         requests := []; raised := None |}
                  end
              | [] =>
                  {| store := delete user_id user_guess_sessions;
                     sent :=
                       [Emb {| e_title := correct_title;
                               e_description := None;
                               e_fields :=
                                 [(lit "Final Guess", VFloat guess_value);
                                  (lit "Actual Rating", VFloat actual_rating);
                                  (lit "Difficulty: ", VStr (difficulty session));
                                  (lit "Final Score", VInt score);
                                  (lit "Game Over",
                                   VStr (lit "Anime pool exhausted! You did it!"))];
                               e_image := n_main_picture current_anime |}];
                     requests := []; raised := None |}
              end
            else
              {| store := delete user_id user_guess_sessions;
                 sent :=
                   [Emb {| e_title := wrong_title;
                           e_description := None;
                           e_fields :=
                             [(lit "Your Guess", VFloat guess_value);
                              (lit "Actual Rating", VFloat actual_rating);
                              (lit "Difficulty: ", VStr (difficulty session));
                              (lit "Final Score", VInt (score session))];
                           e_image := n_main_picture current_anime |}];
                 requests := []; raised := None |}
        end
  end.

(** The margins as the design lists them. *)
Definition design_margin (difficulty : pystr) : float :=
  if bool_decide (difficulty = lit "easy") then 0.5%float
  else if bool_decide (difficulty = lit "medium") then 0.25%float
  else 0.1%float.

End GuessGame.

(** ** Higher/Lower *)

Module HigherLower.

(** A value of [user_higher_lower_sessions]. *)
Record session := {
  current_anime : node;
  next_anime : node;
  score : Z;
  anime_pool : list item;
}.

Definition start_first : reply := Msg (lit "Start a game first with /higherlower").

Definition keep (sessions : gmap Z session) (r : reply) : outcome (gmap Z session) :=
  {| store := sessions; sent := [r]; requests := []; raised := None |}.

(** [not limit] for an [Optional[int]]: true of [None] and of [0]. *)
Definition not_limit (limit : option Z) : bool :=
  match limit with
  | None => true
  | Some l => l =? 0
  end.

Definition str_of_limit (limit : option Z) : pystr :=
  match limit with
  | None => lit "None"
  | Some l => str_of_int l
  end.

(** [/higherlower]; [rnd1] and [rnd2] feed the two draws. *)
Definition higherlower (api : upstream) (user_higher_lower_sessions : gmap Z session)
    (user_id : Z) (limit : option Z) (ranking_type : pystr) (rnd1 rnd2 : Z)
  : outcome (gmap Z session) :=
  let ranking_type := lower ranking_type in
  let limit_value := if not_limit limit then 500 else default 0 limit in
  let ranking_type :=
    if bool_decide (ranking_type = lit "popularity")
    then lit "bypopularity" else ranking_type in
  if negb (bool_decide (ranking_type ∈ valid_types)) then
    keep user_higher_lower_sessions
      (Msg (lit "Invalid ranking type " ++ quoted ranking_type
              ++ lit ". Valid options: " ++ join (lit ", ") valid_types
              ++ lit ". Use `/help higherlower` for more info."))
  else if (limit_value <? 2) || (2500 <? limit_value) then
    keep user_higher_lower_sessions
      (Msg (lit "Invalid limit " ++ quoted (str_of_limit limit)
              ++ lit ". Limit must be a number between 2-2500. Use `/help higherlower` for more info."))
  else
    let limit := limit_value in
    let '(all_anime, log) := fetch_all api ranking_type limit in
    if bool_decide (all_anime = []) || (len all_anime <? 2) then
      {| store := user_higher_lower_sessions; sent := [could_not_start];
         requests := log; raised := None |}
    else
      match pop all_anime (randint 0 (len all_anime - 1) rnd1) with
      | None =>
          {| store := user_higher_lower_sessions; sent := [];
             requests := log; raised := Some IndexError |}
      | Some (first, all_anime) =>
          let current_anime := get_node first in
          match pop all_anime (randint 0 (len all_anime - 1) rnd2) with
          | None =>
              {| store := user_higher_lower_sessions; sent := [];
                 requests := log; raised := Some IndexError |}
          | Some (second, all_anime) =>
              let next_anime := get_node second in
              {| store :=
                   <[user_id := {| current_anime := current_anime;
                                   next_anime := next_anime;
                                   score := 0;
                                   anime_pool := all_anime |}]>
                     user_higher_lower_sessions;
                 sent :=
                   [Emb {| e_title := lit "Higher or Lower Game";
                           e_description := None;
                           e_fields :=
                             [(lit "Anime",
                               VStr (get_anime_title_with_alternative current_anime));
                              (lit "Rating",
                               match n_mean current_anime with
                               | Some m => VFloat m
                               | None => VStr (lit "?")
                               end);
                              (lit "Instructions",
                               VStr (lit "Is the next anime rated higher or lower?"
                                       ++ newline ++ lit "Use the buttons below!"))];
                           e_image := n_main_picture current_anime |};
                    EmbView {| e_title := lit "Next Anime";
                               e_description := None;
                               e_fields :=
                                 [(lit "Title",
                                   VStr (get_anime_title_with_alternative next_anime))];
                               e_image := n_main_picture next_anime |}
                            user_id];
                 requests := log;
                 raised := None |}
          end
      end.

(** The comparison of [_process_higher_lower_guess]; [a >= b] on floats is
    [b <= a]. *)
Definition is_correct (guess : pystr) (current_rating next_rating : float) : bool :=
  (bool_decide (guess = lit "higher") && (current_rating <=? next_rating)%float)
  || (bool_decide (guess = lit "lower") && (next_rating <=? current_rating)%float).

Definition rating_line (n : node) (rating : float) : value :=
  VFmt [VStr (get_anime_title_with_alternative n ++ newline ++ lit "Rating: ");
        VFloat rating].

(** [_process_higher_lower_guess(guess, interaction, message)] for the user
    of the interaction. *)
Definition _process_higher_lower_guess (guess : pystr)
    (user_higher_lower_sessions : gmap Z session) (user_id : Z) (rnd : Z)
  : outcome (gmap Z session) :=
  match user_higher_lower_sessions !! user_id with
  | None => keep user_higher_lower_sessions start_first
  | Some session =>
      let anime_pool := anime_pool session in
      let current_anime := current_anime session in
      let current_rating := default 0%float (n_mean current_anime) in
      let next_anime := next_anime session in
      let next_rating := default 0%float (n_mean next_anime) in
      if is_correct guess current_rating next_rating then
        let score := score session + 1 in
        match anime_pool with
        | _ :: _ =>
            match pop anime_pool (randint 0 (len anime_pool - 1) rnd) with
            | None =>
                {| store :=
                     <[user_id := {| current_anime := next_anime;
                                     next_anime := next_anime;
                                     score := score;
                                     anime_pool := anime_pool |}]>
                       user_higher_lower_sessions;
                   sent := []; requests := []; raised := Some IndexError |}
            | Some (drawn, anime_pool) =>
                let new_next := get_node drawn in
                {| store :=
                     <[user_id := {| current_anime := next_anime;
                                     next_anime := new_next;
                                     score := score;
                                     anime_pool := anime_pool |}]>
                       user_higher_lower_sessions;
                   sent :=
                     [EmbView {| e_title := correct_title;
                                 e_description := None;
                                 e_fields :=
                                   [(lit "Streak", VInt score);
                                    (lit "Current Anime", rating_line next_anime next_rating);
                                    (lit "Next Anime",
                                     VStr (get_anime_title_with_alternative new_next))];
                                 e_image := n_main_picture new_next |}
                              user_id];
                   requests := []; raised := None |}
            end
        | [] =>
            {| store := delete user_id user_higher_lower_sessions;
               sent :=
                 [Emb {| e_title := correct_title;
                         e_description := None;
                         e_fields :=
                           [(lit "Final Streak", VInt score);
                            (lit "Final Anime", rating_line next_anime next_rating);
                            (lit "Game Over",
                             VStr (lit "Anime pool exhausted! You did it!"))];
                         e_image := n_main_picture next_anime |}];
               requests := []; raised := None |}
        end
      else
        {| store := delete user_id user_higher_lower_sessions;
           sent :=
             [Emb {| e_title := wrong_title;
                     e_description := None;
                     e_fields :=
                       [(lit "Previous Anime", rating_line current_anime current_rating);
                        (lit "Final Anime", rating_line next_anime next_rating);
                        (lit "Final Streak", VInt (score session))];
                     e_image := n_main_picture next_anime |}];
           requests := []; raised := None |}
  end.

(** The two buttons of [HigherLowerView]: a stranger's press is deferred and
    nothing else happens. *)
Definition higher_button (view_user who : Z) (sessions : gmap Z session) (rnd : Z)
  : outcome (gmap Z session) :=
  if negb (who =? view_user)
  then {| store := sessions; sent := []; requests := []; raised := None |}
  else _process_higher_lower_guess (lit "higher") sessions who rnd.

Definition lower_button (view_user who : Z) (sessions : gmap Z session) (rnd : Z)
  : outcome (gmap Z session) :=
  if negb (who =? view_user)
  then {| store := sessions; sent := []; requests := []; raised := None |}
  else _process_higher_lower_guess (lit "lower") sessions who rnd.

End HigherLower.

(** ** Rounds: a user's turns one after the other *)

Module Rounds.

(** The records of the entries of a pool. *)
Definition pool_records (pool : list item) : list node := get_node <$> pool.

(** The record a guess drew, if it drew one: a draw leaves the pool
    shorter and the drawn record is the new current one. *)
Definition guess_drew (before after : option GuessGame.session) : list node :=
  match before, after with
  | Some s, Some s' =>
      if len (GuessGame.anime_pool s') <? len (GuessGame.anime_pool s)
      then [GuessGame.current_anime s'] else []
  | _, _ => []
  end.

(** The user's session after each of the turns (a guess and the oracle's
    value for the draw). *)
Fixpoint guess_states (user_id : Z) (turns : list (float * Z))
    (sessions : gmap Z GuessGame.session) : list (option GuessGame.session) :=
  match turns with
  | [] => []
  | (guess_value, rnd) :: rest =>
      let o := GuessGame.guess sessions user_id guess_value rnd in
      store o !! user_id :: guess_states user_id rest (store o)
  end.

(** The records drawn over the turns, in order. *)
Fixpoint guess_draws (user_id : Z) (turns : list (float * Z))
    (sessions : gmap Z GuessGame.session) : list node :=
  match turns with
  | [] => []
  | (guess_value, rnd) :: rest =>
      let o := GuessGame.guess sessions user_id guess_value rnd in
      guess_drew (sessions !! user_id) (store o !! user_id)
        ++ guess_draws user_id rest (store o)
  end.

(** The same for Higher/Lower, where the drawn record is the new next
    one. *)
Definition turn_drew (before after : option HigherLower.session) : list node :=
  match before, after with
  | Some s, Some s' =>
      if len (HigherLower.anime_pool s') <? len (HigherLower.anime_pool s)
      then [HigherLower.next_anime s'] else []
  | _, _ => []
  end.

Fixpoint turn_states (user_id : Z) (turns : list (pystr * Z))
    (sessions : gmap Z HigherLower.session) : list (option HigherLower.session) :=
  match turns with
  | [] => []
  | (guess, rnd) :: rest =>
      let o := HigherLower._process_higher_lower_guess guess sessions user_id rnd in
      store o !! user_id :: turn_states user_id rest (store o)
  end.

Fixpoint turn_draws (user_id : Z) (turns : list (pystr * Z))
    (sessions : gmap Z HigherLower.session) : list node :=
  match turns with
  | [] => []
  | (guess, rnd) :: rest =>
      let o := HigherLower._process_higher_lower_guess guess sessions user_id rnd in
      turn_drew (sessions !! user_id) (store o !! user_id)
        ++ turn_draws user_id rest (store o)
  end.

(** The pool of a session holds no record that is on show. *)
Definition guess_apart (st : option GuessGame.session) : Prop :=
  match st with
  | Some s => GuessGame.current_anime s ∉ pool_records (GuessGame.anime_pool s)
  | None => True
  end.

Definition turn_apart (st : option HigherLower.session) : Prop :=
  match st with
  | Some s =>
      (HigherLower.current_anime s ∉ pool_records (HigherLower.anime_pool s))
      /\ (HigherLower.next_anime s ∉ pool_records (HigherLower.anime_pool s))
  | None => True
  end.

End Rounds.

(** ** Sample data *)

Module Samples.

(** A ranking entry with an id and a mean, and nothing else. *)
Definition entry (id : Z) (mean : float) : item :=
  {| i_node := Some {| n_id := Some id; n_title := None; n_alt_en := None;
                       n_mean := Some mean; n_rank := None;
                       n_main_picture := None |};
     i_list_status := None |}.

Definition rated (id : Z) (mean : float) : node := get_node (entry id mean).

(** A medium round on an anime rated 7.5, two more in the pool. *)
Definition medium_session : GuessGame.session :=
  {| GuessGame.current_anime := rated 1 7.5;
     GuessGame.anime_pool := [entry 2 8.2; entry 3 6.9];
     GuessGame.score := 4;
     GuessGame.difficulty := lit "medium" |}.

(** The same round on its last anime. *)
Definition medium_last_session : GuessGame.session :=
  {| GuessGame.current_anime := rated 1 7.5;
     GuessGame.anime_pool := [];
     GuessGame.score := 4;
     GuessGame.difficulty := lit "medium" |}.

(** User 7 is the player. *)
Definition medium_round : gmap Z GuessGame.session := {[ 7 := medium_session ]}.
Definition medium_last : gmap Z GuessGame.session := {[ 7 := medium_last_session ]}.

(** Between two anime both rated 8.0, one more in the pool. *)
Definition tie_session : HigherLower.session :=
  {| HigherLower.current_anime := rated 1 8;
     HigherLower.next_anime := rated 2 8;
     HigherLower.score := 2;
     HigherLower.anime_pool := [entry 3 6.9] |}.

(** The same pair with nothing left in the pool. *)
Definition tie_last_session : HigherLower.session :=
  {| HigherLower.current_anime := rated 1 8;
     HigherLower.next_anime := rated 2 8;
     HigherLower.score := 2;
     HigherLower.anime_pool := [] |}.

Definition tie_round : gmap Z HigherLower.session := {[ 7 := tie_session ]}.
Definition tie_last : gmap Z HigherLower.session := {[ 7 := tie_last_session ]}.

(** An upstream that answers the first request with the given entries and
    every later one with an empty list. *)
Definition serves (entries : list item) : upstream :=
  fun rq => if rq_offset rq =? 0 then Some entries else Some [].

(** An upstream with nothing to give, and one that is down. *)
Definition empty_catalogue : upstream := fun _ => Some [].
Definition unavailable : upstream := fun _ => None.

Definition three_entries : list item := [entry 1 7.5; entry 2 8.2; entry 3 6.9].

(** The same entry twice. *)
Definition twice : list item := [entry 1 7.5; entry 1 7.5].

End Samples.

(** ** Runs of the pager *)

Module PagerRuns.

Import Pager.

(** [page_data] of [get_embed]: the window of the current page. *)
Definition page_data (self : PaginationView) : list item :=
  let start := current_page self * per_page self in
  slice (data self) start (start + per_page self).

(** Presses one after the other, each a fresh interaction of its user. *)
Fixpoint press_all (presses : list (button * Z)) (self : PaginationView)
  : PaginationView :=
  match presses with
  | [] => self
  | (b, who) :: rest => press_all rest (view (fst (press b who self)))
  end.

(** The page is one of the pages there are. *)
Definition in_range (self : PaginationView) : Prop :=
  0 <= current_page self <= total_pages self - 1.

(** The buttons are greyed out exactly at the ends. *)
Definition buttons_match (self : PaginationView) : Prop :=
  prev_disabled self = (current_page self =? 0)
  /\ prev_five_disabled self = (current_page self =? 0)
  /\ next_five_disabled self = (total_pages self - 1 <=? current_page self)
  /\ next_disabled self = (total_pages self - 1 <=? current_page self).

(** Whether a press reaches the assignment to [current_page], and the page
    it assigns. *)
Definition moves (b : button) (who : Z) (self : PaginationView) : bool :=
  match b with
  | Prev => 0 <? current_page self
  | PrevFive => (who =? user_id self) && (0 <? current_page self)
  | NextFive => (who =? user_id self) && (current_page self <? total_pages self - 1)
  | Next => current_page self <? total_pages self - 1
  end.

Definition destination (b : button) (self : PaginationView) : Z :=
  match b with
  | Prev => current_page self - 1
  | PrevFive => Z.max 0 (current_page self - 5)
  | NextFive => Z.min (total_pages self - 1) (current_page self + 5)
  | Next => current_page self + 1
  end.

(** The view turned to page [p], as a press leaves it. *)
Definition turned_to (self : PaginationView) (p : Z) : PaginationView :=
  update_buttons (with_current_page self p).

End PagerRuns.

(** ** Stores the commands build, and the answers of a round *)

Module GameRuns.

(** Every session of the store has one of the three difficulties. *)
Definition valid_store (sessions : gmap Z GuessGame.session) : Prop :=
  forall user_id s,
    sessions !! user_id = Some s ->
    GuessGame.difficulty s ∈ GuessGame.difficulties.

(** What [/guess] answered, turn by turn. *)
Fixpoint guess_outcomes (user_id : Z) (turns : list (float * Z))
    (sessions : gmap Z GuessGame.session)
  : list (outcome (gmap Z GuessGame.session)) :=
  match turns with
  | [] => []
  | (guess_value, rnd) :: rest =>
      let o := GuessGame.guess sessions user_id guess_value rnd in
      o :: guess_outcomes user_id rest (store o)
  end.

(** What the buttons of Higher/Lower answered, turn by turn. *)
Fixpoint turn_outcomes (user_id : Z) (turns : list (pystr * Z))
    (sessions : gmap Z HigherLower.session)
  : list (outcome (gmap Z HigherLower.session)) :=
  match turns with
  | [] => []
  | (guess, rnd) :: rest =>
      let o := HigherLower._process_higher_lower_guess guess sessions user_id rnd in
      o :: turn_outcomes user_id rest (store o)
  end.

(** The guess is outside 0..10, as [/guess] tests it. *)
Definition out_of_range (guess_value : float) : bool :=
  (guess_value <? 0)%float || (10 <? guess_value)%float.

End GameRuns.

(** ** An upstream that serves a ranking *)

Module Upstreams.

(** A ranking served as asked: from the offset on, as many records as the
    limit says, fewer at the end of the ranking. *)
Definition catalogue (ranking : list item) : upstream :=
  fun rq =>
    Some (take (Z.to_nat (rq_limit rq)) (drop (Z.to_nat (rq_offset rq)) ranking)).

End Upstreams.

(** ** [parse_search_results] and the dropdown of [SearchView] *)

Module Search.

(** The [node] of a search hit, with the fields the search asks for; every
    key may be missing.  [s_alt_en] is [alternative_titles["en"]] and
    [s_picture_medium] is [main_picture["medium"]]. *)
Record search_node := {
  s_id : option Z;
  s_title : option pystr;
  s_alt_en : option pystr;
  s_picture_medium : option pystr;
  s_synopsis : option pystr;
  s_start_date : option pystr;
}.

Definition empty_search_node : search_node :=
  {| s_id := None; s_title := None; s_alt_en := None;
     s_picture_medium := None; s_synopsis := None; s_start_date := None |}.

(** One element of [search_data["data"]]. *)
Record search_item := {
  si_node : option search_node;
}.

(** The dictionary [parse_search_results] makes of a hit. *)
Record search_result := {
  r_id : option Z;
  r_title : option pystr;
  r_alt_en : option pystr;
  r_picture : option pystr;
  r_synopsis : pystr;
  r_year : pystr;
}.

Definition hyphen : N := 45.

(** [s.split(sep)[0]] for a one-character [sep]: what comes before the
    first [sep], all of [s] when there is none. *)
Fixpoint before (sep : N) (s : pystr) : pystr :=
  match s with
  | [] => []
  | c :: rest => if N.eqb c sep then [] else c :: before sep rest
  end.

(** The year of a hit. *)
Definition year_of (start_date : option pystr) : pystr :=
  let start_date := default (lit "Unknown") start_date in
  if bool_decide (start_date <> []) && bool_decide (start_date <> lit "Unknown")
  then before hyphen start_date
  else lit "Unknown".

(** [parse_search_results]; [None] is a response that is empty or has no
    ["data"]. *)
Definition parse_search_results (search_data : option (list search_item))
  : list search_result :=
  match search_data with
  | None => []
  | Some data =>
      map (fun it =>
             let node := default empty_search_node (si_node it) in
             {| r_id := s_id node;
                r_title := s_title node;
                r_alt_en := s_alt_en node;
                r_picture := s_picture_medium node;
                r_synopsis :=
                  default (lit "No description available") (s_synopsis node);
                r_year := year_of (s_start_date node) |})
          data
  end.

(** A [discord.SelectOption]. *)
Record select_option := {
  label : pystr;
  value : pystr;
}.

(** [str(x)] of a title that may be [None]. *)
Definition str_of_title (t : option pystr) : pystr := default (lit "None") t.

(** The label of one hit in [SearchView.__init__]; [None] is the
    [TypeError] of slicing a title that is [None]. *)
Definition label_of (anime : search_result) : option pystr :=
  let title := r_title anime in
  let labelled_by_title := take 100 <$> title in
  match r_alt_en anime with
  | Some en_title =>
      if bool_decide (en_title <> []) && bool_decide (Some en_title <> title)
      then Some (take 100 (en_title ++ newline ++ lit "(" ++ str_of_title title
                             ++ lit ")"))
      else labelled_by_title
  | None => labelled_by_title
  end.

(** The options of the dropdown, from the [i]-th hit on; [None] when a
    label raises. *)
Fixpoint options_from (i : nat) (results : list search_result)
  : option (list select_option) :=
  match results with
  | [] => Some []
  | anime :: rest =>
      match label_of anime with
      | None => None
      | Some l =>
          match options_from (S i) rest with
          | None => None
          | Some more =>
              Some ({| label := l; value := str_of_int (Z.of_nat i) |} :: more)
          end
      end
  end.

Definition options (results : list search_result) : option (list select_option) :=
  options_from 0 results.

End Search.

(** ** [/seasonal] and [/list] *)

Module Lists.

Import Pager Search.

(** The parameters of a request for a user's list; the status is sent only
    when there is one. *)
Record list_query := {
  lq_username : pystr;
  lq_status : option pystr;
  lq_limit : Z;
  lq_offset : Z;
}.

(** The parameters of a request for a season. *)
Record season_query := {
  sq_year : Z;
  sq_season : pystr;
  sq_limit : Z;
  sq_sort : pystr;
  sq_offset : Z;
}.

(** [get_user_anime_list]: [if status:] leaves out a status that is [None]
    or empty. *)
Definition get_user_anime_list (api : list_query -> option (list item))
    (username : pystr) (status : option pystr) (limit offset : Z)
  : list_query * option (list item) :=
  let q := {| lq_username := username;
              lq_status := match status with
                           | Some ((_ :: _) as st) => Some st
                           | _ => None
                           end;
              lq_limit := limit;
              lq_offset := offset |} in
  (q, api q).

(** [get_seasonal_anime] with its default sort. *)
Definition get_seasonal_anime (api : season_query -> option (list item))
    (year : Z) (season : pystr) (limit offset : Z)
  : season_query * option (list item) :=
  let q := {| sq_year := year;
              sq_season := season;
              sq_limit := Z.min limit 500;
              sq_sort := lit "anime_num_list_users";
              sq_offset := offset |} in
  (q, api q).

(** The [while True] loop of both commands, for pages of [size] records:
    it ends at the first answer that fails or is shorter than a page.
    [None] is a loop that has not ended after [fuel] rounds. *)
Fixpoint fetch_pages {Q} (fuel : nat) (size : Z)
    (ask : Z -> Q * option (list item))
    (all_anime : list item) (offset : Z) (log : list Q)
  : option (list item * list Q) :=
  match fuel with
  | O => None
  | S fuel' =>
      let '(q, response) := ask offset in
      match response with
      | None => Some (all_anime, log ++ [q])
      | Some data =>
          let all_anime := all_anime ++ data in
          if len data <? size then Some (all_anime, log ++ [q])
          else fetch_pages fuel' size ask all_anime (offset + size) (log ++ [q])
      end
  end.

(** What a browsing command sends: a text, or the first page with its
    view. *)
Inductive browse_reply :=
| Text (text : pystr)
| Page (e : embed) (view : PaginationView).

Inductive browse_exn := KeyError.

Record browse_outcome (Q : Type) := {
  b_sent : list browse_reply;
  b_requests : list Q;
  b_raised : option browse_exn;
}.
Arguments b_sent {Q} _.
Arguments b_requests {Q} _.
Arguments b_raised {Q} _.

(** [s.capitalize()] on the ASCII letters. *)
Definition capitalize (s : pystr) : pystr :=
  match s with
  | [] => []
  | c :: rest => to_upper c :: lower rest
  end.

Definition valid_seasons : list pystr :=
  [lit "winter"; lit "spring"; lit "summer"; lit "fall"].

(** [/seasonal]. *)
Definition seasonal (fuel : nat) (api : season_query -> option (list item))
    (user_id : Z) (year : Z) (season : pystr)
  : option (browse_outcome season_query) :=
  let season := lower season in
  if negb (bool_decide (season ∈ valid_seasons)) then
    Some {| b_sent :=
              [Text (lit "Invalid season " ++ quoted season
                       ++ lit ". Valid options: " ++ join (lit ", ") valid_seasons
                       ++ lit ". Use `/help seasonal` for more info.")];
            b_requests := []; b_raised := None |}
  else
    match fetch_pages fuel 500
            (fun offset => get_seasonal_anime api year season 500 offset) [] 0 [] with
    | None => None
    | Some (all_anime, log) =>
        match all_anime with
        | [] =>
            Some {| b_sent :=
                      [Text (lit "Could not fetch anime for " ++ capitalize season
                               ++ lit " " ++ str_of_int year ++ lit ".")];
                    b_requests := log; b_raised := None |}
        | _ :: _ =>
            let title := capitalize season ++ lit " " ++ str_of_int year
                           ++ lit " Anime" in
            let view := init all_anime title user_id None true in
            Some {| b_sent := [Page (get_embed view) view];
                    b_requests := log; b_raised := None |}
        end
    end.

(** [anime["list_status"]["score"]]; [None] is the [KeyError]. *)
Definition score_of (anime : item) : option Z :=
  i_list_status anime ≫= ls_score.

(** One step of a stable sort by descending key: [x], which came before
    all of [sorted], goes in front of the first entry whose key is not
    above its own. *)
Fixpoint insert_by_score (x : Z * item) (sorted : list (Z * item))
  : list (Z * item) :=
  match sorted with
  | [] => [x]
  | y :: rest =>
      if fst x <? fst y then y :: insert_by_score x rest
      else x :: y :: rest
  end.

(** [sorted(all_anime, key=score, reverse=True)]: the keys are taken
    first, and the sort is stable, entries of equal score keeping their
    order. *)
Definition sorted_by_score (all_anime : list item) : option (list item) :=
  keyed ← mapM (fun anime => (fun k => (k, anime)) <$> score_of anime) all_anime;
  Some (snd <$> foldr insert_by_score [] keyed).

Definition valid_statuses : list pystr :=
  [lit "watching"; lit "completed"; lit "on hold"; lit "dropped";
   lit "plan to watch"].

(** The status as upstream wants it. *)
Definition upstream_status (status : option pystr) : option pystr :=
  let status :=
    if bool_decide (status = Some (lit "on hold")) then Some (lit "on_hold")
    else status in
  let status :=
    if bool_decide (status = Some (lit "plan to watch"))
    then Some (lit "plan_to_watch") else status in
  status.

(** [status or 'All']. *)
Definition status_or_all (status : option pystr) : pystr :=
  match status with
  | Some ((_ :: _) as st) => st
  | _ => lit "All"
  end.

(** [/list]. *)
Definition list_command (fuel : nat) (api : list_query -> option (list item))
    (user_id : Z) (username : pystr) (sorting_method : pystr)
    (status : option pystr)
  : option (browse_outcome list_query) :=
  if negb (bool_decide (sorting_method ∈ [lit "alphabetical"; lit "score"])) then
    Some {| b_sent :=
              [Text (lit "Cannot sort by " ++ quoted sorting_method
                       ++ lit ". Use `/help list` for more info.")];
            b_requests := []; b_raised := None |}
  else if match status with
          | Some st => negb (bool_decide (st ∈ valid_statuses))
          | None => false
          end then
    Some {| b_sent :=
              [Text (lit "Invalid status " ++ quoted (str_of_title status)
                       ++ lit ". Valid options: " ++ join (lit ", ") valid_statuses
                       ++ lit ". Use `/help list` for more info.")];
            b_requests := []; b_raised := None |}
  else
    let status := upstream_status status in
    match fetch_pages fuel 100
            (fun offset => get_user_anime_list api username status 100 offset)
            [] 0 [] with
    | None => None
    | Some (all_anime, log) =>
        match all_anime with
        | [] =>
            Some {| b_sent := [Text (lit "Could not fetch your list.")];
                    b_requests := log; b_raised := None |}
        | _ :: _ =>
            let sorted :=
              if bool_decide (sorting_method = lit "score")
              then sorted_by_score all_anime
              else Some all_anime in
            match sorted with
            | None =>
                Some {| b_sent := []; b_requests := log;
                        b_raised := Some KeyError |}
            | Some all_anime =>
                let profile_url :=
                  lit "https://myanimelist.net/profile/" ++ username in
                let title :=
                  username ++ lit "'s Anime List (" ++ status_or_all status
                    ++ lit ")" in
                let view :=
                  init all_anime title user_id (Some profile_url) false in
                Some {| b_sent := [Page (get_embed view) view];
                        b_requests := log; b_raised := None |}
            end
        end
    end.

End Lists.

(** ** Sample lists *)

Module ListSamples.

(** An entry of a personal list with an id and a score. *)
Definition listed (id score : Z) : item :=
  {| i_node := Some {| n_id := Some id; n_title := None; n_alt_en := None;
                       n_mean := None; n_rank := None;
                       n_main_picture := None |};
     i_list_status := Some {| ls_score := Some score; ls_status := None |} |}.

Definition shelf : list item :=
  [listed 1 3; listed 2 5; listed 3 3; listed 4 9; listed 5 5].

(** A user's list served in one short page. *)
Definition one_page (entries : list item) : Lists.list_query -> option (list item) :=
  fun q => if Lists.lq_offset q =? 0 then Some entries else Some [].

(** A season served in one short page. *)
Definition one_season_page (entries : list item)
  : Lists.season_query -> option (list item) :=
  fun q => if Lists.sq_offset q =? 0 then Some entries else Some [].

End ListSamples.

(** ** What a browsing command was given *)

Module Browsing.

(** What the answers to the requests of a run carried, one after the
    other; an answer that failed carried nothing. *)
Definition carried {Q} (api : Q -> option (list item)) (log : list Q) : list item :=
  flat_map (fun q => default [] (api q)) log.

(** The statuses upstream knows, and none at all. *)
Definition upstream_statuses : list (option pystr) :=
  [None; Some (lit "watching"); Some (lit "completed"); Some (lit "on_hold");
   Some (lit "dropped"); Some (lit "plan_to_watch")].

End Browsing.

(** ** Decimal guesses and ratings *)

Module Boundary.

Import Samples.

(** The binary64 number read for a decimal with two places, given in
    hundredths: 100 and every hundredth count of a rating are exact in
    binary64, and the division rounds their quotient to the nearest
    number, which is what reading the decimal does. *)
Definition hundredths (n : Z) : float :=
  (of_uint63 (Uint63.of_Z n) / 100)%float.

(** The difference of two decimals, in hundredths, is within the margin,
    in hundredths. *)
Definition within (margin guess_value actual_rating : Z) : bool :=
  Z.abs (guess_value - actual_rating) <=? margin.

(** User 7 in a round of the given difficulty on an anime rated
    [actual_rating] hundredths, one more in the pool. *)
Definition round_on (difficulty : pystr) (actual_rating : Z)
  : gmap Z GuessGame.session :=
  {[ 7 := {| GuessGame.current_anime := rated 1 (hundredths actual_rating);
             GuessGame.anime_pool := [entry 2 8.2];
             GuessGame.score := 4;
             GuessGame.difficulty := difficulty |} ]}.

End Boundary.

(** ** Upstreams whose paging ends *)

Module Paging.

Import Lists.

(** The request of [/list] for its page [i], and that of [/seasonal]. *)
Definition list_page (username : pystr) (status : option pystr) (i : nat)
  : list_query :=
  {| lq_username := username; lq_status := upstream_status status;
     lq_limit := 100; lq_offset := 100 * Z.of_nat i |}.

Definition season_page (year : Z) (season : pystr) (i : nat) : season_query :=
  {| sq_year := year; sq_season := lower season; sq_limit := 500;
     sq_sort := lit "anime_num_list_users"; sq_offset := 500 * Z.of_nat i |}.

(** The answer to [q] is a full page: the loop goes on after it. *)
Definition full {Q} (api : Q -> option (list item)) (size : Z) (q : Q) : bool :=
  match api q with
  | Some page => size <=? len page
  | None => false
  end.

(** Upstream answers the pages before [k] in full, and page [k] short or
    not at all. *)
Definition ends_at {Q} (api : Q -> option (list item)) (page : nat -> Q)
    (size : Z) (k : nat) : bool :=
  forallb (fun i => full api size (page i)) (seq 0 k)
  && negb (full api size (page k)).

End Paging.

(** * Properties *)

Import Pager Rounds Samples.

(** ** Lengths *)

Lemma len_app {A} (l1 l2 : list A) : len (l1 ++ l2) = len l1 + len l2.
Proof. unfold len. rewrite length_app. lia. Qed.

Lemma len_nonneg {A} (l : list A) : 0 <= len l.
Proof. unfold len. lia. Qed.

Lemma len_nil_iff {A} (l : list A) : len l = 0 <-> l = [].
Proof.
  unfold len. split.
  - destruct l; [reflexivity | cbn [length]; lia].
  - intros ->. reflexivity.
Qed.

Lemma len_join_snoc (sep : pystr) (lines : list pystr) (x : pystr) :
  lines <> [] ->
  len (join sep (lines ++ [x])) = len (join sep lines) + len sep + len x.
Proof.
  induction lines as [|l rest IH]; [congruence | intros _].
  destruct rest as [|l' rest'].
  - cbn [app join]. rewrite !len_app. lia.
  - change (len (l ++ sep ++ join sep ((l' :: rest') ++ [x]))
            = len (l ++ sep ++ join sep (l' :: rest')) + len sep + len x).
    rewrite !len_app, IH by congruence. lia.
Qed.

(** ** The related-anime field *)

Lemma sum_len1_snoc (lines : list pystr) (x : pystr) :
  sum_len1 (lines ++ [x]) = sum_len1 lines + len x + 1.
Proof. induction lines as [|l rest IH]; cbn [app sum_len1]; lia. Qed.

(** The joined text of a non-empty list of lines is one shorter than the
    loop's running sum. *)
Lemma len_join_newline (lines : list pystr) :
  lines <> [] -> len (join newline lines) = sum_len1 lines - 1.
Proof.
  induction lines as [|l rest IH]; [congruence | intros _].
  destruct rest as [|l' rest'].
  - cbn [join sum_len1]. lia.
  - change (len (l ++ newline ++ join newline (l' :: rest'))
            = (len l + 1) + sum_len1 (l' :: rest') - 1).
    rewrite !len_app, IH by congruence.
    change (len newline) with 1. lia.
Qed.

(** The loop keeps the first [kept] candidates, in order, and closes with
    the notice exactly when a candidate is left out. *)
Lemma related_loop_shape (related : list related_entry) (lines : list pystr) :
  related_loop lines related
  = lines ++ map format_line (take (kept lines related) related)
      ++ (if (kept lines related <? length related)%nat then [FOOTER_TEXT] else []).
Proof.
  revert lines. induction related as [|r rest IH]; intros lines.
  - cbn. rewrite app_nil_r. reflexivity.
  - cbn [related_loop kept].
    destruct (MAX_FIELD_LEN <? sum_len1 lines + len (format_line r) + len FOOTER_TEXT)
      eqn:Hover.
    + reflexivity.
    + rewrite IH. cbn [take map length]. rewrite <- app_assoc. reflexivity.
Qed.

(** Every kept candidate passed the loop's test: with the lines before it
    and the notice it stays within the budget. *)
Lemma related_loop_budget (related : list related_entry) (lines : list pystr) :
  (lines = [] \/ sum_len1 lines - 1 + len FOOTER_TEXT <= MAX_FIELD_LEN) ->
  let kept_lines := lines ++ map format_line (take (kept lines related) related) in
  kept_lines = [] \/ sum_len1 kept_lines - 1 + len FOOTER_TEXT <= MAX_FIELD_LEN.
Proof.
  revert lines. induction related as [|r rest IH]; intros lines Hinv; cbn zeta.
  - cbn. rewrite app_nil_r. exact Hinv.
  - cbn [kept].
    destruct (MAX_FIELD_LEN <? sum_len1 lines + len (format_line r) + len FOOTER_TEXT)
      eqn:Hover.
    + cbn. rewrite app_nil_r. exact Hinv.
    + cbn [take map].
      replace (lines ++ format_line r :: map format_line (take (kept (lines ++ [format_line r]) rest) rest))
        with ((lines ++ [format_line r])
                ++ map format_line (take (kept (lines ++ [format_line r]) rest) rest))
        by (rewrite <- app_assoc; reflexivity).
      apply IH. right. rewrite sum_len1_snoc.
      apply Z.ltb_ge in Hover. lia.
Qed.

(** The field never has more than 1025 characters: the budget, and the line
    break before the notice that the loop's test leaves out. *)
Lemma related_str_at_most_1025 (related : list related_entry) :
  len (related_str related) <= MAX_FIELD_LEN + 1.
Proof.
  unfold related_str, related_lines.
  pose proof (related_loop_budget related [] (or_introl eq_refl)) as Hb.
  cbn zeta in Hb. rewrite related_loop_shape.
  cbn [app] in *.
  set (body := map format_line (take (kept [] related) related)) in *.
  destruct (kept [] related <? length related)%nat.
  - destruct body as [|b body'] eqn:Hbody.
    + vm_compute. discriminate.
    + rewrite <- Hbody in *.
      assert (Hne : body <> []) by (rewrite Hbody; discriminate).
      destruct Hb as [Hb | Hb]; [congruence |].
      destruct (body ++ [FOOTER_TEXT]) as [|x rest] eqn:Happ.
      * destruct body; discriminate.
      * rewrite <- Happ, len_join_snoc, len_join_newline by assumption.
        change (len newline) with 1. unfold MAX_FIELD_LEN in *. lia.
  - rewrite app_nil_r.
    destruct body as [|b body'] eqn:Hbody.
    + vm_compute. discriminate.
    + rewrite <- Hbody in *.
      assert (Hne : body <> []) by (rewrite Hbody; discriminate).
      destruct Hb as [Hb | Hb]; [congruence |].
      rewrite len_join_newline by assumption.
      pose proof (len_nonneg FOOTER_TEXT). unfold MAX_FIELD_LEN in *. lia.
Qed.

(** C2 (the code at the input that breaks it): eleven related entries, the
    first ten of which fill 970 characters.  The tenth line passes the test
    with the notice counted (970 + 54 = 1024), the eleventh does not, the
    notice goes in after a line break, and the field has 1025 characters,
    one more than [MAX_FIELD_LEN]. *)
Lemma related_str_crowded_overflows :
  kept [] crowded = 10%nat
  /\ last (related_lines crowded) = Some FOOTER_TEXT
  /\ len (related_str crowded) = 1025
  /\ MAX_FIELD_LEN < len (related_str crowded).
Proof. vm_compute. repeat split; reflexivity. Qed.

(** ** The pager *)

Lemma current_page_update_buttons (self : PaginationView) :
  current_page (update_buttons self) = current_page self.
Proof. reflexivity. Qed.

Lemma total_pages_update_buttons (self : PaginationView) :
  total_pages (update_buttons self) = total_pages self.
Proof. reflexivity. Qed.

(** [-5 Pages] and [+5 Pages] return after deferring to a stranger: the view
    is what it was. *)
Lemma five_buttons_ignore_strangers (self : PaginationView) (who : Z) (b : button) :
  who <> user_id self ->
  b = PrevFive \/ b = NextFive ->
  press b who self
  = ({| view := self; inter := {| user := who; responses := [Defer] |} |}, inr tt).
Proof.
  intros Hwho Hb. apply Z.eqb_neq in Hwho.
  destruct Hb as [-> | ->]; unfold press, callback, prev_five_button, next_five_button,
    bind, interaction_user, self_get; cbn; rewrite Hwho; reflexivity.
Qed.

(** [Previous] and [Next] defer to a stranger and then run the owner's code:
    away from the end they move the page, and the edit that follows raises. *)
Lemma prev_button_stranger_moves (self : PaginationView) (who : Z) :
  who <> user_id self ->
  0 < current_page self ->
  page_after Prev who self = current_page self - 1
  /\ snd (press Prev who self) = inl InteractionResponded.
Proof.
  intros Hwho Hpos. apply Z.eqb_neq in Hwho. apply Z.ltb_lt in Hpos.
  unfold page_after, press, callback, prev_button, bind, interaction_user, self_get.
  cbn. rewrite Hwho. cbn. rewrite Hpos. cbn. split; reflexivity.
Qed.

Lemma next_button_stranger_moves (self : PaginationView) (who : Z) :
  who <> user_id self ->
  current_page self < total_pages self - 1 ->
  page_after Next who self = current_page self + 1
  /\ snd (press Next who self) = inl InteractionResponded.
Proof.
  intros Hwho Hlt. apply Z.eqb_neq in Hwho. apply Z.ltb_lt in Hlt.
  unfold page_after, press, callback, next_button, bind, interaction_user, self_get.
  cbn. rewrite Hwho. cbn. rewrite Hlt. cbn. split; reflexivity.
Qed.

(** C1 (the code at the input that breaks it): on the second of three pages
    of user 1's list, user 2 presses [Previous] and the view is on its
    first page, presses [Next] and it is on its third; [-5 Pages] and
    [+5 Pages] leave it where it was. *)
Lemma stranger_turns_the_page :
  user_id second_page = 1
  /\ current_page second_page = 1
  /\ page_after Prev 2 second_page = 0
  /\ page_after Next 2 second_page = 2
  /\ page_after PrevFive 2 second_page = 1
  /\ page_after NextFive 2 second_page = 1.
Proof. vm_compute. repeat split; reflexivity. Qed.

(** C7: on a view whose page is within [0 .. total_pages - 1], a press by
    the owner ends without an exception, answers the interaction once, and
    leaves the page at the clamped target: [Previous] one back and
    [-5 Pages] five back, not below 0; [+5 Pages] five on and [Next] one
    on, not above [total_pages - 1].  The number of pages stays. *)
Theorem owner_press_clamps (self : PaginationView) (b : button) :
  0 <= current_page self <= total_pages self - 1 ->
  snd (press b (user_id self) self) = inr tt
  /\ length (responses (inter (fst (press b (user_id self) self)))) = 1%nat
  /\ page_after b (user_id self) self = target_page b self
  /\ 0 <= page_after b (user_id self) self <= total_pages self - 1
  /\ total_pages (view (fst (press b (user_id self) self))) = total_pages self.
Proof.
  intros Hrange.
  destruct b;
    unfold page_after, target_page, press, callback,
      prev_button, prev_five_button, next_five_button, next_button,
      bind, interaction_user, self_get;
    cbn; rewrite Z.eqb_refl; cbn.
  - destruct (0 <? current_page self) eqn:Hc; cbn;
      [apply Z.ltb_lt in Hc | apply Z.ltb_ge in Hc]; repeat split; lia.
  - destruct (0 <? current_page self) eqn:Hc; cbn;
      [apply Z.ltb_lt in Hc | apply Z.ltb_ge in Hc]; repeat split; lia.
  - destruct (current_page self <? total_pages self - 1) eqn:Hc; cbn;
      [apply Z.ltb_lt in Hc | apply Z.ltb_ge in Hc]; repeat split; lia.
  - destruct (current_page self <? total_pages self - 1) eqn:Hc; cbn;
      [apply Z.ltb_lt in Hc | apply Z.ltb_ge in Hc]; repeat split; lia.
Qed.

Lemma owner_press_clamps_witness :
  0 <= current_page second_page <= total_pages second_page - 1
  /\ page_after NextFive (user_id second_page) second_page = 2.
Proof.
  split; [vm_compute; split; discriminate |].
  pose proof (owner_press_clamps second_page NextFive) as H.
  destruct H as (_ & _ & Hpage & _); [vm_compute; split; discriminate |].
  rewrite Hpage. reflexivity.
Defined.

(** The design's example: 23 records make 3 pages; [-5 Pages] on page 0
    stays on page 0, [+5 Pages] and [Next] on page 2 stay on page 2. *)
Example pager_23_records :
  let first := init (repeat blank_item 23) (lit "List") 1 None false in
  let third := update_buttons (with_current_page first 2) in
  total_pages first = 3
  /\ page_after PrevFive 1 first = 0
  /\ page_after NextFive 1 third = 2
  /\ page_after Next 1 third = 2.
Proof. vm_compute. repeat split; reflexivity. Qed.

(** ** Comparisons of floats *)

Lemma SFcompare_antisym (x y : spec_float) :
  SFcompare y x = option_map CompOpp (SFcompare x y).
Proof.
  destruct x as [sx | sx | | sx mx ex], y as [sy | sy | | sy my ey]; cbn;
    try reflexivity;
    try (destruct sx; reflexivity);
    try (destruct sy; reflexivity);
    try (destruct sx, sy; reflexivity).
  f_equal.
  destruct sx, sy; cbn; try reflexivity;
    rewrite (Z.compare_antisym ex ey); destruct (ex ?= ey); cbn; try reflexivity;
    change (Pos.compare_cont Eq my mx) with (Pos.compare my mx);
    change (Pos.compare_cont Eq mx my) with (Pos.compare mx my);
    rewrite (Pos.compare_antisym mx my); destruct (Pos.compare mx my); reflexivity.
Qed.

(** [x <= y] rules out [y < x]. *)
Lemma float_leb_not_ltb (x y : float) :
  (x <=? y)%float = true -> (y <? x)%float = false.
Proof.
  rewrite FloatAxioms.leb_spec, FloatAxioms.ltb_spec. unfold SFleb, SFltb.
  rewrite (SFcompare_antisym (Prim2SF x) (Prim2SF y)).
  destruct (SFcompare (Prim2SF x) (Prim2SF y)) as [[ | | ] | ]; cbn; congruence.
Qed.

(** [y < x] rules out [x <= y]. *)
Lemma float_ltb_not_leb (x y : float) :
  (y <? x)%float = true -> (x <=? y)%float = false.
Proof.
  intros H. destruct (x <=? y)%float eqn:E; [| reflexivity].
  apply float_leb_not_ltb in E. congruence.
Qed.

(** [x == y] gives [x <= y] and [y <= x]. *)
Lemma float_eqb_leb (x y : float) :
  (x =? y)%float = true -> (x <=? y)%float = true /\ (y <=? x)%float = true.
Proof.
  rewrite FloatAxioms.eqb_spec, !FloatAxioms.leb_spec. unfold SFeqb, SFleb.
  rewrite (SFcompare_antisym (Prim2SF x) (Prim2SF y)).
  destruct (SFcompare (Prim2SF x) (Prim2SF y)) as [[ | | ] | ]; cbn; split; congruence.
Qed.

(** ** Draws *)

Lemma randint_in_range (n rnd : Z) :
  0 < n -> 0 <= randint 0 (n - 1) rnd < n.
Proof.
  intros Hn. unfold randint.
  replace (n - 1 - 0 + 1) with n by lia.
  pose proof (Z.mod_pos_bound rnd n Hn). lia.
Qed.

(** [pop] at an index in range gives the element there and the list without
    it. *)
Lemma pop_in_range {A} (l : list A) (i : Z) :
  0 <= i < len l ->
  exists x, l !! Z.to_nat i = Some x /\ pop l i = Some (x, delete (Z.to_nat i) l).
Proof.
  intros [Hlo Hhi]. unfold pop.
  destruct (i <? 0) eqn:Hneg; [apply Z.ltb_lt in Hneg; lia |].
  rewrite Hneg. cbn.
  destruct (len l <=? i) eqn:Hge; [apply Z.leb_le in Hge; lia |].
  destruct (l !! Z.to_nat i) as [x |] eqn:Hx.
  - exists x. split; reflexivity.
  - apply lookup_ge_None in Hx. unfold len in Hhi. lia.
Qed.

(** The draw of the source never fails on a pool that is not empty. *)
Lemma pop_randint {A} (l : list A) (rnd : Z) :
  l <> [] ->
  exists k x, l !! k = Some x
              /\ pop l (randint 0 (len l - 1) rnd) = Some (x, delete k l).
Proof.
  intros Hne.
  assert (Hpos : 0 < len l).
  { destruct l; [congruence | unfold len; cbn [length]; lia]. }
  destruct (pop_in_range l (randint 0 (len l - 1) rnd)
              (randint_in_range (len l) rnd Hpos)) as (x & Hx & Hpop).
  eauto.
Qed.

(** Any index in range can be the one drawn. *)
Lemma randint_onto (n k : Z) : 0 <= k < n -> randint 0 (n - 1) k = k.
Proof.
  intros Hk. unfold randint. replace (n - 1 - 0 + 1) with n by lia.
  rewrite Z.mod_small by lia. lia.
Qed.

Lemma length_delete_lookup {A} (l : list A) (k : nat) (x : A) :
  l !! k = Some x -> S (length (delete k l)) = length l.
Proof.
  intros Hk. apply lookup_lt_Some in Hk.
  rewrite length_delete by (apply lookup_lt_is_Some; exact Hk).
  lia.
Qed.

(** ** Guess-The-Rating: one guess *)

Section GuessTurn.

Import GuessGame.

Variable sessions : gmap Z session.
Variable user_id : Z.
Variable s : session.
Variable guess_value : float.
Variable rnd : Z.

Hypothesis Hactive : sessions !! user_id = Some s.

Let actual_rating : float := default 0%float (n_mean (current_anime s)).

Lemma margin_of_design (d : pystr) :
  d ∈ difficulties -> margin_of d = Some (design_margin d).
Proof.
  unfold difficulties. rewrite !elem_of_cons, elem_of_nil.
  intros [-> | [-> | [-> | []]]]; reflexivity.
Qed.

Lemma guess_in_range :
  (0 <=? guess_value)%float = true -> (guess_value <=? 10)%float = true ->
  (guess_value <? 0)%float || (10 <? guess_value)%float = false.
Proof.
  intros H0 H10.
  rewrite (float_leb_not_ltb _ _ H0), (float_leb_not_ltb _ _ H10). reflexivity.
Qed.

(** A miss: the "Wrong!" embed with the score as it stood, and the session
    deleted. *)
Lemma guess_wrong (margin : float) :
  (guess_value <? 0)%float || (10 <? guess_value)%float = false ->
  margin_of (difficulty s) = Some margin ->
  (abs (guess_value - actual_rating) <=? margin)%float = false ->
  guess sessions user_id guess_value rnd
  = {| store := delete user_id sessions;
       sent :=
         [Emb {| e_title := wrong_title;
                 e_description := None;
                 e_fields :=
                   [(lit "Your Guess", VFloat guess_value);
                    (lit "Actual Rating", VFloat actual_rating);
                    (lit "Difficulty: ", VStr (difficulty s));
                    (lit "Final Score", VInt (score s))];
                 e_image := n_main_picture (current_anime s) |}];
       requests := []; raised := None |}.
Proof.
  intros Hrange Hmargin Hmiss. unfold guess.
  rewrite Hactive, Hrange, Hmargin. fold actual_rating. rewrite Hmiss. reflexivity.
Qed.

(** A hit on the last anime: the "Correct!" embed with the score counted
    up, and the session deleted. *)
Lemma guess_correct_last (margin : float) :
  (guess_value <? 0)%float || (10 <? guess_value)%float = false ->
  margin_of (difficulty s) = Some margin ->
  (abs (guess_value - actual_rating) <=? margin)%float = true ->
  anime_pool s = [] ->
  guess sessions user_id guess_value rnd
  = {| store := delete user_id sessions;
       sent :=
         [Emb {| e_title := correct_title;
                 e_description := None;
                 e_fields :=
                   [(lit "Final Guess", VFloat guess_value);
                    (lit "Actual Rating", VFloat actual_rating);
                    (lit "Difficulty: ", VStr (difficulty s));
                    (lit "Final Score", VInt (score s + 1));
                    (lit "Game Over", VStr (lit "Anime pool exhausted! You did it!"))];
                 e_image := n_main_picture (current_anime s) |}];
       requests := []; raised := None |}.
Proof.
  intros Hrange Hmargin Hhit Hpool. unfold guess.
  rewrite Hactive, Hrange, Hmargin. fold actual_rating. rewrite Hhit, Hpool. reflexivity.
Qed.

(** A hit with anime left: one of them is drawn out of the pool and becomes
    the current one, and the score is counted up. *)
Lemma guess_correct_next (margin : float) :
  (guess_value <? 0)%float || (10 <? guess_value)%float = false ->
  margin_of (difficulty s) = Some margin ->
  (abs (guess_value - actual_rating) <=? margin)%float = true ->
  anime_pool s <> [] ->
  exists k drawn,
    anime_pool s !! k = Some drawn
    /\ guess sessions user_id guess_value rnd
       = {| store :=
              <[user_id := {| current_anime := get_node drawn;
                              anime_pool := delete k (anime_pool s);
                              score := score s + 1;
                              difficulty := difficulty s |}]> sessions;
            sent :=
              [Emb {| e_title := correct_title;
                      e_description := None;
                      e_fields :=
                        [(lit "Your Guess", VFloat guess_value);
                         (lit "Actual Rating", VFloat actual_rating);
                         (lit "Difficulty: ", VStr (difficulty s));
                         (lit "Current Score", VInt (score s + 1));
                         (lit "Next Anime",
                          VStr (get_anime_title_with_alternative (get_node drawn)))];
                      e_image := n_main_picture (get_node drawn) |}];
            requests := []; raised := None |}.
Proof.
  intros Hrange Hmargin Hhit Hpool.
  destruct (pop_randint (anime_pool s) rnd Hpool) as (k & drawn & Hk & Hpop).
  exists k, drawn. split; [exact Hk |].
  unfold guess.
  rewrite Hactive, Hrange, Hmargin. fold actual_rating. rewrite Hhit.
  destruct (anime_pool s) as [| it rest] eqn:Hp; [congruence |].
  rewrite Hpop. reflexivity.
Qed.

End GuessTurn.

(** ** Higher/Lower: one turn *)

Section HigherLowerTurn.

Import HigherLower.

Variable sessions : gmap Z session.
Variable user_id : Z.
Variable s : session.
Variable guess : pystr.
Variable rnd : Z.

Hypothesis Hactive : sessions !! user_id = Some s.

Let current_rating : float := default 0%float (n_mean (current_anime s)).
Let next_rating : float := default 0%float (n_mean (next_anime s)).

(** A miss: the "Wrong!" embed with the streak as it stood, and the session
    deleted. *)
Lemma turn_wrong :
  is_correct guess current_rating next_rating = false ->
  _process_higher_lower_guess guess sessions user_id rnd
  = {| store := delete user_id sessions;
       sent :=
         [Emb {| e_title := wrong_title;
                 e_description := None;
                 e_fields :=
                   [(lit "Previous Anime", rating_line (current_anime s) current_rating);
                    (lit "Final Anime", rating_line (next_anime s) next_rating);
                    (lit "Final Streak", VInt (score s))];
                 e_image := n_main_picture (next_anime s) |}];
       requests := []; raised := None |}.
Proof.
  intros Hmiss. unfold _process_higher_lower_guess.
  rewrite Hactive. fold current_rating next_rating. rewrite Hmiss. reflexivity.
Qed.

(** A hit with the pool empty: the "Correct!" embed with the streak counted
    up, and the session deleted. *)
Lemma turn_correct_last :
  is_correct guess current_rating next_rating = true ->
  anime_pool s = [] ->
  _process_higher_lower_guess guess sessions user_id rnd
  = {| store := delete user_id sessions;
       sent :=
         [Emb {| e_title := correct_title;
                 e_description := None;
                 e_fields :=
                   [(lit "Final Streak", VInt (score s + 1));
                    (lit "Final Anime", rating_line (next_anime s) next_rating);
                    (lit "Game Over", VStr (lit "Anime pool exhausted! You did it!"))];
                 e_image := n_main_picture (next_anime s) |}];
       requests := []; raised := None |}.
Proof.
  intros Hhit Hpool. unfold _process_higher_lower_guess.
  rewrite Hactive. fold current_rating next_rating. rewrite Hhit, Hpool. reflexivity.
Qed.

(** A hit with anime left: the next anime becomes the current one, a new
    next one is drawn out of the pool, and the streak is counted up. *)
Lemma turn_correct_next :
  is_correct guess current_rating next_rating = true ->
  anime_pool s <> [] ->
  exists k drawn,
    anime_pool s !! k = Some drawn
    /\ _process_higher_lower_guess guess sessions user_id rnd
       = {| store :=
              <[user_id := {| current_anime := next_anime s;
                              next_anime := get_node drawn;
                              score := score s + 1;
                              anime_pool := delete k (anime_pool s) |}]> sessions;
            sent :=
              [EmbView {| e_title := correct_title;
                          e_description := None;
                          e_fields :=
                            [(lit "Streak", VInt (score s + 1));
                             (lit "Current Anime", rating_line (next_anime s) next_rating);
                             (lit "Next Anime",
                              VStr (get_anime_title_with_alternative (get_node drawn)))];
                          e_image := n_main_picture (get_node drawn) |}
                       user_id];
            requests := []; raised := None |}.
Proof.
  intros Hhit Hpool.
  destruct (pop_randint (anime_pool s) rnd Hpool) as (k & drawn & Hk & Hpop).
  exists k, drawn. split; [exact Hk |].
  unfold _process_higher_lower_guess.
  rewrite Hactive. fold current_rating next_rating. rewrite Hhit.
  destruct (anime_pool s) as [| it rest] eqn:Hp; [congruence |].
  rewrite Hpop. reflexivity.
Qed.

End HigherLowerTurn.

(** ** The claims about single turns *)

(** C3: in an active Guess-The-Rating round (difficulty easy, medium or
    hard), a guess within 0..10 whose distance from the actual rating
    exceeds the margin of the difficulty is answered with the "Wrong!"
    embed showing the score reached as the final score; the session is
    deleted whatever is left in its pool, and the user's next guess is
    answered with the start-a-game message and changes nothing. *)
Theorem wrong_guess_ends_the_round
    (sessions : gmap Z GuessGame.session) (user_id : Z) (s : GuessGame.session)
    (guess_value later_guess : float) (rnd later_rnd : Z) :
  sessions !! user_id = Some s ->
  GuessGame.difficulty s ∈ GuessGame.difficulties ->
  (0 <=? guess_value)%float = true ->
  (guess_value <=? 10)%float = true ->
  (GuessGame.design_margin (GuessGame.difficulty s)
   <? abs (guess_value - default 0%float (n_mean (GuessGame.current_anime s))))%float = true ->
  let o := GuessGame.guess sessions user_id guess_value rnd in
  let o' := GuessGame.guess (store o) user_id later_guess later_rnd in
  judged_wrong o = true
  /\ reported (lit "Final Score") o = Some (VInt (GuessGame.score s))
  /\ raised o = None
  /\ store o = delete user_id sessions
  /\ store o !! user_id = None
  /\ sent o' = [GuessGame.start_first]
  /\ store o' = store o.
Proof.
  intros Hactive Hdiff H0 H10 Hfar o o'.
  assert (Ho : o = _) by
    (apply (guess_wrong sessions user_id s guess_value rnd Hactive _
              (guess_in_range guess_value H0 H10)
              (margin_of_design _ Hdiff)
              (float_ltb_not_leb _ _ Hfar))).
  assert (Hgone : store o !! user_id = None)
    by (rewrite Ho; cbn [store]; apply lookup_delete_eq).
  assert (Ho' : o' = GuessGame.keep (store o) GuessGame.start_first)
    by (unfold o', GuessGame.guess; rewrite Hgone; reflexivity).
  rewrite Ho'. cbn [GuessGame.keep store sent]. rewrite Ho.
  repeat split; try reflexivity.
  rewrite <- Ho. exact Hgone.
Qed.

Lemma wrong_guess_ends_the_round_witness :
  let o := GuessGame.guess medium_round 7 7.24%float 0 in
  judged_wrong o = true
  /\ reported (lit "Final Score") o = Some (VInt 4)
  /\ store o !! 7 = None
  /\ sent (GuessGame.guess (store o) 7 7.5%float 0) = [GuessGame.start_first].
Proof.
  cbv zeta.
  assert (Hd : GuessGame.difficulty medium_session ∈ GuessGame.difficulties)
    by (apply (bool_decide_unpack _); vm_compute; exact I).
  destruct (wrong_guess_ends_the_round medium_round 7 medium_session
              7.24%float 7.5%float 0 0 eq_refl Hd eq_refl eq_refl eq_refl)
    as (Hw & Hs & _ & _ & Hgone & Hnext & _).
  exact (conj Hw (conj Hs (conj Hgone Hnext))).
Defined.

(** The embed of a guess says "Correct!" exactly when the comparison of the
    source holds, and "Wrong!" exactly when it does not. *)
Lemma guess_judged (sessions : gmap Z GuessGame.session) (user_id : Z)
    (s : GuessGame.session) (guess_value : float) (rnd : Z) :
  sessions !! user_id = Some s ->
  GuessGame.difficulty s ∈ GuessGame.difficulties ->
  (0 <=? guess_value)%float = true ->
  (guess_value <=? 10)%float = true ->
  let verdict :=
    (abs (guess_value - default 0%float (n_mean (GuessGame.current_anime s)))
     <=? GuessGame.design_margin (GuessGame.difficulty s))%float in
  let o := GuessGame.guess sessions user_id guess_value rnd in
  judged_correct o = verdict /\ judged_wrong o = negb verdict.
Proof.
  intros Hactive Hdiff H0 H10 verdict o.
  pose proof (guess_in_range guess_value H0 H10) as Hrange.
  pose proof (margin_of_design _ Hdiff) as Hmargin.
  destruct verdict eqn:Hcmp; unfold verdict in Hcmp.
  - destruct (GuessGame.anime_pool s) as [| it rest] eqn:Hpool.
    + unfold o.
      rewrite (guess_correct_last sessions user_id s guess_value rnd Hactive
                 _ Hrange Hmargin Hcmp Hpool).
      split; reflexivity.
    + destruct (guess_correct_next sessions user_id s guess_value rnd Hactive
                  _ Hrange Hmargin Hcmp) as (k & drawn & _ & Ho);
        [rewrite Hpool; discriminate |].
      unfold o. rewrite Ho. split; reflexivity.
  - unfold o.
    rewrite (guess_wrong sessions user_id s guess_value rnd Hactive
               _ Hrange Hmargin Hcmp).
    split; reflexivity.
Qed.

(** What the code does hold to: in an active Guess-The-Rating round with
    difficulty easy, medium or hard, a guess within 0..10 is answered with
    the "Correct!" embed exactly when the binary64 test
    [abs (guess - rating) <= margin] of the code holds, and with the
    "Wrong!" embed exactly when it does not; a guess whose computed distance
    is the binary64 margin itself is judged correct. *)
Theorem guess_judged_by_margin
    (sessions : gmap Z GuessGame.session) (user_id : Z) (s : GuessGame.session)
    (guess_value : float) (rnd : Z) :
  sessions !! user_id = Some s ->
  GuessGame.difficulty s ∈ GuessGame.difficulties ->
  (0 <=? guess_value)%float = true ->
  (guess_value <=? 10)%float = true ->
  let actual_rating := default 0%float (n_mean (GuessGame.current_anime s)) in
  let margin := GuessGame.design_margin (GuessGame.difficulty s) in
  let o := GuessGame.guess sessions user_id guess_value rnd in
  (judged_correct o = true
   <-> (abs (guess_value - actual_rating) <=? margin)%float = true)
  /\ (judged_wrong o = true
      <-> (abs (guess_value - actual_rating) <=? margin)%float = false)
  /\ (abs (guess_value - actual_rating) = margin -> judged_correct o = true).
Proof.
  intros Hactive Hdiff H0 H10 actual_rating margin o.
  destruct (guess_judged sessions user_id s guess_value rnd Hactive Hdiff H0 H10)
    as [Hc Hw].
  fold actual_rating margin o in Hc, Hw.
  rewrite Hc, Hw.
  split; [reflexivity | split].
  - destruct (abs (guess_value - actual_rating) <=? margin)%float; cbn;
      split; congruence.
  - intros Heq. rewrite Heq.
    unfold margin, GuessGame.difficulties in *.
    rewrite !elem_of_cons, elem_of_nil in Hdiff.
    destruct Hdiff as [-> | [-> | [-> | []]]]; reflexivity.
Qed.

Lemma guess_judged_by_margin_witness :
  judged_correct (GuessGame.guess medium_round 7 7.25%float 0) = true
  /\ judged_wrong (GuessGame.guess medium_round 7 7.24%float 0) = true.
Proof.
  assert (Hd : GuessGame.difficulty medium_session ∈ GuessGame.difficulties)
    by (apply (bool_decide_unpack _); vm_compute; exact I).
  split.
  - destruct (guess_judged_by_margin medium_round 7 medium_session 7.25%float 0
                eq_refl Hd eq_refl eq_refl) as (_ & _ & Hedge).
    apply Hedge. reflexivity.
  - destruct (guess_judged_by_margin medium_round 7 medium_session 7.24%float 0
                eq_refl Hd eq_refl eq_refl) as (_ & Hwrong & _).
    apply Hwrong. reflexivity.
Defined.

(** The design's example, and one where the decimals are a margin apart but
    the floats are not: 8.3 and 8.2 as binary64 differ by a little more
    than the binary64 0.1. *)
Example guess_boundary_examples :
  judged_correct (GuessGame.guess medium_round 7 7.25%float 0) = true
  /\ judged_correct (GuessGame.guess medium_round 7 7.24%float 0) = false
  /\ (abs (8.2 - 8.3) <=? 0.1)%float = false
  /\ (abs (7.4 - 7.5) <=? 0.1)%float = true.
Proof. vm_compute. repeat split; reflexivity. Qed.

Import Boundary.

(** C4: a guess exactly one margin away from the rating is not always judged
    correct.  In an easy round on an anime rated 7.8 the guess 8.3 is half a
    point away, the margin the game announces, and it is answered with the
    "Wrong!" embed and the end of the round, while 7.3, as far away on the
    other side, is answered with "Correct!".  In the same way 8.05 is judged
    wrong in a medium round on 7.8, and 8.3 in a hard round on 8.2.  The
    code subtracts and compares in binary64, where the numbers read for 8.3
    and 7.8 are a little more than 0.5 apart. *)
Theorem guess_a_margin_away_is_judged_wrong :
  within 50 830 780 = true
  /\ hundredths 830 = 8.3%float
  /\ hundredths 780 = 7.8%float
  /\ judged_wrong (GuessGame.guess (round_on (lit "easy") 780) 7 (hundredths 830) 0)
     = true
  /\ judged_correct (GuessGame.guess (round_on (lit "easy") 780) 7 (hundredths 830) 0)
     = false
  /\ store (GuessGame.guess (round_on (lit "easy") 780) 7 (hundredths 830) 0) !! 7
     = None
  /\ within 50 730 780 = true
  /\ judged_correct (GuessGame.guess (round_on (lit "easy") 780) 7 (hundredths 730) 0)
     = true
  /\ within 25 805 780 = true
  /\ judged_wrong (GuessGame.guess (round_on (lit "medium") 780) 7 (hundredths 805) 0)
     = true
  /\ within 10 830 820 = true
  /\ judged_wrong (GuessGame.guess (round_on (lit "hard") 820) 7 (hundredths 830) 0)
     = true.
Proof. vm_compute. repeat split; reflexivity. Qed.

Lemma is_correct_higher (current_rating next_rating : float) :
  HigherLower.is_correct (lit "higher") current_rating next_rating
  = (current_rating <=? next_rating)%float.
Proof.
  unfold HigherLower.is_correct.
  change (bool_decide (lit "higher" = lit "higher")) with true.
  change (bool_decide (lit "higher" = lit "lower")) with false.
  cbn. apply orb_false_r.
Qed.

Lemma is_correct_lower (current_rating next_rating : float) :
  HigherLower.is_correct (lit "lower") current_rating next_rating
  = (next_rating <=? current_rating)%float.
Proof.
  unfold HigherLower.is_correct.
  change (bool_decide (lit "lower" = lit "higher")) with false.
  change (bool_decide (lit "lower" = lit "lower")) with true.
  reflexivity.
Qed.

(** The embed of a turn says "Correct!" exactly when the comparison of the
    source holds, and "Wrong!" exactly when it does not. *)
Lemma turn_judged (sessions : gmap Z HigherLower.session) (user_id : Z)
    (s : HigherLower.session) (guess : pystr) (rnd : Z) :
  sessions !! user_id = Some s ->
  let verdict :=
    HigherLower.is_correct guess
      (default 0%float (n_mean (HigherLower.current_anime s)))
      (default 0%float (n_mean (HigherLower.next_anime s))) in
  let o := HigherLower._process_higher_lower_guess guess sessions user_id rnd in
  judged_correct o = verdict /\ judged_wrong o = negb verdict.
Proof.
  intros Hactive verdict o.
  destruct verdict eqn:Hv; unfold verdict in Hv.
  - destruct (HigherLower.anime_pool s) as [| it rest] eqn:Hpool.
    + unfold o.
      rewrite (turn_correct_last sessions user_id s guess rnd Hactive Hv Hpool).
      split; reflexivity.
    + destruct (turn_correct_next sessions user_id s guess rnd Hactive Hv)
        as (k & drawn & _ & Ho); [rewrite Hpool; discriminate |].
      unfold o. rewrite Ho. split; reflexivity.
  - unfold o. rewrite (turn_wrong sessions user_id s guess rnd Hactive Hv).
    split; reflexivity.
Qed.

(** C5: in an active Higher/Lower round, a "higher" turn is answered with
    the "Correct!" embed exactly when the next rating is at least the
    current one, and a "lower" turn exactly when the next rating is at most
    the current one; when the two ratings are equal both turns are
    correct.  A missing rating counts as 0. *)
Theorem higher_lower_judged_by_order
    (sessions : gmap Z HigherLower.session) (user_id : Z)
    (s : HigherLower.session) (rnd : Z) :
  sessions !! user_id = Some s ->
  let current_rating := default 0%float (n_mean (HigherLower.current_anime s)) in
  let next_rating := default 0%float (n_mean (HigherLower.next_anime s)) in
  let higher :=
    HigherLower._process_higher_lower_guess (lit "higher") sessions user_id rnd in
  let lower :=
    HigherLower._process_higher_lower_guess (lit "lower") sessions user_id rnd in
  (judged_correct higher = true <-> (current_rating <=? next_rating)%float = true)
  /\ (judged_correct lower = true <-> (next_rating <=? current_rating)%float = true)
  /\ ((next_rating =? current_rating)%float = true ->
      judged_correct higher = true /\ judged_correct lower = true).
Proof.
  intros Hactive current_rating next_rating higher lower.
  destruct (turn_judged sessions user_id s (lit "higher") rnd Hactive) as [Hh _].
  destruct (turn_judged sessions user_id s (lit "lower") rnd Hactive) as [Hl _].
  rewrite is_correct_higher in Hh. rewrite is_correct_lower in Hl.
  fold current_rating next_rating higher in Hh.
  fold current_rating next_rating lower in Hl.
  rewrite Hh, Hl.
  split; [reflexivity | split; [reflexivity |]].
  intros Heq. apply float_eqb_leb in Heq. tauto.
Qed.

Lemma higher_lower_judged_by_order_witness :
  judged_correct (HigherLower._process_higher_lower_guess (lit "higher") tie_round 7 0)
  = true
  /\ judged_correct (HigherLower._process_higher_lower_guess (lit "lower") tie_round 7 0)
     = true.
Proof.
  destruct (higher_lower_judged_by_order tie_round 7 tie_session 0 eq_refl)
    as (_ & _ & Htie).
  exact (Htie eq_refl).
Defined.

(** C9: a correct guess is counted before the pool is looked at.  With the
    pool empty the game ends: the "Correct!" embed shows the score (the
    streak) with this last guess in it, and the session is deleted.  With
    anime left the same count is shown and stored. *)
Theorem last_correct_guess_is_counted :
  (forall (sessions : gmap Z GuessGame.session) (user_id : Z)
          (s : GuessGame.session) (guess_value : float) (rnd : Z),
      sessions !! user_id = Some s ->
      GuessGame.difficulty s ∈ GuessGame.difficulties ->
      (0 <=? guess_value)%float = true ->
      (guess_value <=? 10)%float = true ->
      (abs (guess_value - default 0%float (n_mean (GuessGame.current_anime s)))
       <=? GuessGame.design_margin (GuessGame.difficulty s))%float = true ->
      let o := GuessGame.guess sessions user_id guess_value rnd in
      judged_correct o = true
      /\ (GuessGame.anime_pool s = [] ->
          reported (lit "Final Score") o = Some (VInt (GuessGame.score s + 1))
          /\ store o = delete user_id sessions)
      /\ (GuessGame.anime_pool s <> [] ->
          reported (lit "Current Score") o = Some (VInt (GuessGame.score s + 1))
          /\ GuessGame.score <$> store o !! user_id = Some (GuessGame.score s + 1)))
  /\ (forall (sessions : gmap Z HigherLower.session) (user_id : Z)
             (s : HigherLower.session) (guess : pystr) (rnd : Z),
         sessions !! user_id = Some s ->
         HigherLower.is_correct guess
           (default 0%float (n_mean (HigherLower.current_anime s)))
           (default 0%float (n_mean (HigherLower.next_anime s))) = true ->
         let o := HigherLower._process_higher_lower_guess guess sessions user_id rnd in
         judged_correct o = true
         /\ (HigherLower.anime_pool s = [] ->
             reported (lit "Final Streak") o = Some (VInt (HigherLower.score s + 1))
             /\ store o = delete user_id sessions)
         /\ (HigherLower.anime_pool s <> [] ->
             reported (lit "Streak") o = Some (VInt (HigherLower.score s + 1))
             /\ HigherLower.score <$> store o !! user_id
                = Some (HigherLower.score s + 1))).
Proof.
  split.
  - intros sessions user_id s guess_value rnd Hactive Hdiff H0 H10 Hhit o.
    pose proof (guess_in_range guess_value H0 H10) as Hrange.
    pose proof (margin_of_design _ Hdiff) as Hmargin.
    split; [| split].
    + destruct (guess_judged sessions user_id s guess_value rnd
                  Hactive Hdiff H0 H10) as [Hj _].
      unfold o. rewrite Hj. exact Hhit.
    + intros Hpool. unfold o.
      rewrite (guess_correct_last sessions user_id s guess_value rnd Hactive
                 _ Hrange Hmargin Hhit Hpool).
      split; reflexivity.
    + intros Hpool.
      destruct (guess_correct_next sessions user_id s guess_value rnd Hactive
                  _ Hrange Hmargin Hhit Hpool) as (k & drawn & _ & Ho).
      unfold o. rewrite Ho. cbn [store]. rewrite lookup_insert_eq.
      split; reflexivity.
  - intros sessions user_id s guess rnd Hactive Hhit o.
    split; [| split].
    + destruct (turn_judged sessions user_id s guess rnd Hactive) as [Hj _].
      unfold o. rewrite Hj. exact Hhit.
    + intros Hpool. unfold o.
      rewrite (turn_correct_last sessions user_id s guess rnd Hactive Hhit Hpool).
      split; reflexivity.
    + intros Hpool.
      destruct (turn_correct_next sessions user_id s guess rnd Hactive Hhit Hpool)
        as (k & drawn & _ & Ho).
      unfold o. rewrite Ho. cbn [store]. rewrite lookup_insert_eq.
      split; reflexivity.
Qed.

Lemma last_correct_guess_is_counted_witness :
  (reported (lit "Final Score") (GuessGame.guess medium_last 7 7.25%float 0)
   = Some (VInt 5)
   /\ store (GuessGame.guess medium_last 7 7.25%float 0) = delete 7 medium_last)
  /\ (reported (lit "Final Streak")
        (HigherLower._process_higher_lower_guess (lit "lower") tie_last 7 0)
      = Some (VInt 3)
      /\ store (HigherLower._process_higher_lower_guess (lit "lower") tie_last 7 0)
         = delete 7 tie_last).
Proof.
  assert (Hd : GuessGame.difficulty medium_last_session ∈ GuessGame.difficulties)
    by (apply (bool_decide_unpack _); vm_compute; exact I).
  destruct last_correct_guess_is_counted as [Hguess Hturn].
  split.
  - destruct (Hguess medium_last 7 medium_last_session 7.25%float 0
                eq_refl Hd eq_refl eq_refl eq_refl) as (_ & Hlast & _).
    exact (Hlast eq_refl).
  - destruct (Hturn tie_last 7 tie_last_session (lit "lower") 0 eq_refl eq_refl)
      as (_ & Hlast & _).
    exact (Hlast eq_refl).
Defined.

(** ** The batched fetch *)

(** What the loop collects is what the answers to its requests carried. *)
Lemma fetch_loop_received (api : upstream) (ranking_type : pystr) (fuel : nat) :
  forall (all_anime : list item) (offset remaining : Z) (log : list request),
  exists new,
    snd (fetch_loop fuel api ranking_type all_anime offset remaining log) = log ++ new
    /\ fst (fetch_loop fuel api ranking_type all_anime offset remaining log)
       = all_anime ++ received api new.
Proof.
  induction fuel as [| fuel IH]; intros all_anime offset remaining log.
  - exists []. cbn. rewrite !app_nil_r. split; reflexivity.
  - cbn [fetch_loop]. destruct (0 <? remaining).
    + unfold get_top_anime_by_rank.
      set (rq := {| rq_ranking_type := ranking_type;
                    rq_limit := Z.min (Z.min remaining 500) 500;
                    rq_offset := offset |}).
      destruct (api rq) as [data |] eqn:Hdata.
      * destruct (len data <? Z.min remaining 500).
        -- exists [rq]. cbn. rewrite Hdata. cbn. rewrite app_nil_r.
           split; reflexivity.
        -- destruct (IH (all_anime ++ data) (offset + Z.min remaining 500)
                       (remaining - Z.min remaining 500) (log ++ [rq]))
             as (new & Hlog & Hall).
           exists (rq :: new). rewrite Hlog, Hall. cbn. rewrite Hdata. cbn.
           rewrite <- !app_assoc. split; reflexivity.
      * exists [rq]. cbn. rewrite Hdata. cbn. rewrite app_nil_r.
        split; reflexivity.
    + exists []. cbn. rewrite !app_nil_r. split; reflexivity.
Qed.

Lemma fetch_all_received (api : upstream) (ranking_type : pystr) (limit : Z) :
  fst (fetch_all api ranking_type limit)
  = received api (snd (fetch_all api ranking_type limit)).
Proof.
  unfold fetch_all.
  destruct (fetch_loop_received api ranking_type (Z.to_nat limit) [] 0 limit [])
    as (new & Hlog & Hall).
  rewrite Hlog, Hall. reflexivity.
Qed.

(** A pool size of at least one makes the loop ask at least once. *)
Lemma fetch_all_asks (api : upstream) (ranking_type : pystr) (limit : Z) :
  1 <= limit -> snd (fetch_all api ranking_type limit) <> [].
Proof.
  intros Hlimit. unfold fetch_all.
  destruct (Z.to_nat limit) as [| fuel] eqn:Hfuel; [lia |].
  cbn [fetch_loop].
  destruct (0 <? limit) eqn:Hpos; [| apply Z.ltb_ge in Hpos; lia].
  unfold get_top_anime_by_rank.
  set (rq := {| rq_ranking_type := ranking_type;
                rq_limit := Z.min (Z.min limit 500) 500;
                rq_offset := 0 |}).
  destruct (api rq) as [data |]; [| discriminate].
  destruct (len data <? Z.min limit 500); [discriminate |].
  destruct (fetch_loop_received api ranking_type fuel ([] ++ data)
              (0 + Z.min limit 500) (limit - Z.min limit 500) ([] ++ [rq]))
    as (new & Hlog & _).
  rewrite Hlog. discriminate.
Qed.

(** The rounds given to the loop are enough: more fuel changes nothing. *)
Lemma fetch_loop_fuel (api : upstream) (ranking_type : pystr) (fuel : nat) :
  forall (all_anime : list item) (offset remaining : Z) (log : list request),
  (Z.to_nat remaining <= fuel)%nat ->
  fetch_loop fuel api ranking_type all_anime offset remaining log
  = fetch_loop (Z.to_nat remaining) api ranking_type all_anime offset remaining log.
Proof.
  induction fuel as [fuel IH] using lt_wf_ind.
  intros all_anime offset remaining log Hfuel.
  destruct (Z.to_nat remaining) as [| m] eqn:Hm.
  - destruct fuel as [| fuel']; [reflexivity |].
    cbn [fetch_loop].
    destruct (0 <? remaining) eqn:Hpos; [apply Z.ltb_lt in Hpos; lia | reflexivity].
  - destruct fuel as [| fuel']; [lia |].
    cbn [fetch_loop].
    destruct (0 <? remaining) eqn:Hpos; [| reflexivity].
    unfold get_top_anime_by_rank.
    destruct (api _) as [data |]; [| reflexivity].
    destruct (len data <? Z.min remaining 500); [reflexivity |].
    apply Z.ltb_lt in Hpos.
    rewrite (IH fuel') by lia.
    rewrite (IH m) by lia.
    reflexivity.
Qed.

(** ** Starting a game *)

(** [/guessgame] ends in one of three ways: an argument is turned down
    before anything is asked upstream; the answers carry no record and the
    game cannot start; or a record is drawn out of what was received and
    the user's entry of the store is replaced. *)
Lemma guessgame_outcome (api : upstream) (sessions : gmap Z GuessGame.session)
    (user_id : Z) (difficulty : pystr) (limit : Z) (ranking_type : pystr) (rnd : Z) :
  let o := GuessGame.guessgame api sessions user_id difficulty limit ranking_type rnd in
  (requests o = [] /\ store o = sessions /\ raised o = None
   /\ exists text, sent o = [Msg text])
  \/ (1 <= limit <= 2500 /\ requests o <> [] /\ received api (requests o) = []
      /\ sent o = [could_not_start] /\ store o = sessions /\ raised o = None)
  \/ (1 <= limit <= 2500 /\ lower difficulty ∈ GuessGame.difficulties
      /\ raised o = None
      /\ exists k drawn,
           received api (requests o) !! k = Some drawn
           /\ store o
              = <[user_id := {| GuessGame.current_anime := get_node drawn;
                                GuessGame.anime_pool :=
                                  delete k (received api (requests o));
                                GuessGame.score := 0;
                                GuessGame.difficulty := lower difficulty |}]>
                  sessions).
Proof.
  cbv zeta. unfold GuessGame.guessgame.
  destruct (bool_decide (lower difficulty ∈ GuessGame.difficulties)) eqn:Hdiff; cbn [negb].
  2: { left. cbn [requests store sent raised GuessGame.keep HigherLower.keep]. eauto 6. }
  apply bool_decide_eq_true in Hdiff.
  destruct ((limit <? 1) || (2500 <? limit)) eqn:Hlimit.
  { left. cbn [requests store sent raised GuessGame.keep HigherLower.keep]. eauto 6. }
  apply orb_false_iff in Hlimit. destruct Hlimit as [Hlo Hhi].
  apply Z.ltb_ge in Hlo. apply Z.ltb_ge in Hhi.
  set (rt := if bool_decide (lower ranking_type = lit "popularity")
             then lit "bypopularity" else lower ranking_type).
  destruct (bool_decide (rt ∈ valid_types)); cbn [negb].
  2: { left. cbn [requests store sent raised GuessGame.keep HigherLower.keep]. eauto 6. }
  pose proof (fetch_all_received api rt limit) as Hrecv.
  pose proof (fetch_all_asks api rt limit Hlo) as Hasks.
  destruct (fetch_all api rt limit) as [all_anime log]. cbn [fst snd] in Hrecv, Hasks.
  destruct all_anime as [| it rest] eqn:Hall.
  - right. left. cbn [requests store sent raised]. rewrite <- Hrecv. repeat split; try assumption; lia.
  - rewrite <- Hall in *.
    assert (Hne : all_anime <> []) by (rewrite Hall; discriminate).
    destruct (pop_randint all_anime rnd Hne) as (k & drawn & Hk & Hpop).
    rewrite Hpop. right. right. cbn [requests store sent raised]. rewrite <- Hrecv.
    repeat split; try assumption; try lia. eauto.
Qed.

(** [/higherlower] likewise; the game needs two records. *)
Lemma higherlower_outcome (api : upstream) (sessions : gmap Z HigherLower.session)
    (user_id : Z) (limit : option Z) (ranking_type : pystr) (rnd1 rnd2 : Z) :
  let o := HigherLower.higherlower api sessions user_id limit ranking_type rnd1 rnd2 in
  (requests o = [] /\ store o = sessions /\ raised o = None
   /\ exists text, sent o = [Msg text])
  \/ (requests o <> [] /\ len (received api (requests o)) < 2
      /\ sent o = [could_not_start] /\ store o = sessions /\ raised o = None)
  \/ (2 <= len (received api (requests o)) /\ raised o = None
      /\ exists k1 first k2 second,
           received api (requests o) !! k1 = Some first
           /\ delete k1 (received api (requests o)) !! k2 = Some second
           /\ store o
              = <[user_id := {| HigherLower.current_anime := get_node first;
                                HigherLower.next_anime := get_node second;
                                HigherLower.score := 0;
                                HigherLower.anime_pool :=
                                  delete k2 (delete k1 (received api (requests o))) |}]>
                  sessions).
Proof.
  cbv zeta. unfold HigherLower.higherlower.
  set (rt := if bool_decide (lower ranking_type = lit "popularity")
             then lit "bypopularity" else lower ranking_type).
  set (limit_value := if HigherLower.not_limit limit then 500 else default 0 limit).
  destruct (bool_decide (rt ∈ valid_types)); cbn [negb].
  2: { left. cbn [requests store sent raised GuessGame.keep HigherLower.keep]. eauto 6. }
  destruct ((limit_value <? 2) || (2500 <? limit_value)) eqn:Hlimit.
  { left. cbn [requests store sent raised GuessGame.keep HigherLower.keep]. eauto 6. }
  apply orb_false_iff in Hlimit. destruct Hlimit as [Hlo Hhi].
  apply Z.ltb_ge in Hlo. apply Z.ltb_ge in Hhi.
  pose proof (fetch_all_received api rt limit_value) as Hrecv.
  pose proof (fetch_all_asks api rt limit_value ltac:(lia)) as Hasks.
  destruct (fetch_all api rt limit_value) as [all_anime log].
  cbn [fst snd] in Hrecv, Hasks.
  destruct (bool_decide (all_anime = []) || (len all_anime <? 2)) eqn:Hfew.
  - right. left. cbn [requests store sent raised]. rewrite <- Hrecv.
    apply orb_true_iff in Hfew. destruct Hfew as [Hnil | Hlt].
    + apply bool_decide_eq_true in Hnil. rewrite Hnil.
      split; [exact Hasks | split; [reflexivity | repeat split]].
    + apply Z.ltb_lt in Hlt.
      split; [exact Hasks | split; [exact Hlt | repeat split]].
  - apply orb_false_iff in Hfew. destruct Hfew as [Hnil Hge].
    apply bool_decide_eq_false in Hnil. apply Z.ltb_ge in Hge.
    destruct (pop_randint all_anime rnd1 Hnil) as (k1 & first & Hk1 & Hpop1).
    rewrite Hpop1.
    assert (Hrest : delete k1 all_anime <> []).
    { pose proof (length_delete_lookup all_anime k1 first Hk1) as Hlen.
      unfold len in Hge. destruct (delete k1 all_anime); [cbn in Hlen; lia | discriminate]. }
    destruct (pop_randint (delete k1 all_anime) rnd2 Hrest)
      as (k2 & second & Hk2 & Hpop2).
    rewrite Hpop2. right. right. cbn [requests store sent raised]. rewrite <- Hrecv.
    repeat split; try assumption. eauto 8.
Qed.

(** [/guessgame] turns down a pool size outside 1..2500 before it asks
    upstream or touches the store. *)
Lemma guessgame_bad_limit (api : upstream) (sessions : gmap Z GuessGame.session)
    (user_id : Z) (difficulty : pystr) (limit : Z) (ranking_type : pystr) (rnd : Z) :
  limit < 1 \/ 2500 < limit ->
  let o := GuessGame.guessgame api sessions user_id difficulty limit ranking_type rnd in
  requests o = [] /\ store o = sessions /\ exists text, sent o = [Msg text].
Proof.
  intros Hbad o.
  destruct (guessgame_outcome api sessions user_id difficulty limit ranking_type rnd)
    as [(Hrq & Hst & _ & Hmsg) | [(Hlimit & _) | (Hlimit & _)]]; [| lia | lia].
  auto.
Qed.

(** [/higherlower] does the same for a pool size outside 2..2500, zero
    apart. *)
Lemma higherlower_bad_limit (api : upstream) (sessions : gmap Z HigherLower.session)
    (user_id : Z) (l : Z) (ranking_type : pystr) (rnd1 rnd2 : Z) :
  l <> 0 ->
  l < 2 \/ 2500 < l ->
  let o := HigherLower.higherlower api sessions user_id (Some l) ranking_type rnd1 rnd2 in
  requests o = [] /\ store o = sessions /\ exists text, sent o = [Msg text].
Proof.
  intros Hnz Hbad. cbv zeta. unfold HigherLower.higherlower.
  cbn [HigherLower.not_limit default].
  destruct (l =? 0) eqn:Hz; [apply Z.eqb_eq in Hz; congruence |].
  cbv iota. unfold id.
  destruct (negb (bool_decide (_ ∈ valid_types))).
  - cbn [requests store sent HigherLower.keep]. eauto.
  - assert (Hout : (l <? 2) || (2500 <? l) = true).
    { apply orb_true_iff. destruct Hbad; [left; apply Z.ltb_lt | right; apply Z.ltb_lt]; lia. }
    rewrite Hout. cbn [requests store sent HigherLower.keep]. eauto.
Qed.

(** C8 (the code at the input that breaks it): [/higherlower] with pool
    size 0 takes the 0 for no pool size at all, asks upstream for 500
    records and starts a game for the user. *)
Lemma higherlower_zero_limit_starts_a_game :
  let o := HigherLower.higherlower (serves three_entries) ∅ 7 (Some 0)
             (lit "bypopularity") 0 0 in
  requests o = [{| rq_ranking_type := lit "bypopularity";
                   rq_limit := 500; rq_offset := 0 |}]
  /\ store o !! 7
     = Some {| HigherLower.current_anime := rated 1 7.5;
               HigherLower.next_anime := rated 2 8.2;
               HigherLower.score := 0;
               HigherLower.anime_pool := [entry 3 6.9] |}
  /\ raised o = None.
Proof. vm_compute. repeat split; reflexivity. Qed.

(** C10: when the answers to the requests of a game-start carry no record
    (fewer than two for Higher/Lower), the command says it could not start
    the game and the session store is what it was, the user's earlier
    session included; and the store is changed only when the records
    received are enough for a pool. *)
Theorem failed_start_keeps_sessions :
  (forall (api : upstream) (sessions : gmap Z GuessGame.session) (user_id : Z)
          (difficulty : pystr) (limit : Z) (ranking_type : pystr) (rnd : Z),
      let o := GuessGame.guessgame api sessions user_id difficulty limit
                 ranking_type rnd in
      (requests o <> [] -> received api (requests o) = [] ->
       sent o = [could_not_start] /\ store o = sessions)
      /\ (store o <> sessions -> received api (requests o) <> []))
  /\ (forall (api : upstream) (sessions : gmap Z HigherLower.session) (user_id : Z)
             (limit : option Z) (ranking_type : pystr) (rnd1 rnd2 : Z),
         let o := HigherLower.higherlower api sessions user_id limit
                    ranking_type rnd1 rnd2 in
         (requests o <> [] -> len (received api (requests o)) < 2 ->
          sent o = [could_not_start] /\ store o = sessions)
         /\ (store o <> sessions -> 2 <= len (received api (requests o)))).
Proof.
  split.
  - intros api sessions user_id difficulty limit ranking_type rnd o.
    destruct (guessgame_outcome api sessions user_id difficulty limit ranking_type rnd)
      as [(Hrq & Hst & _) | [(_ & _ & Hnone & Hsent & Hst & _)
                            | (_ & _ & _ & k & drawn & Hk & _)]];
      unfold o; clear o.
    + split; [congruence | congruence].
    + split; [auto | congruence].
    + split.
      * intros _ Hnone. rewrite Hnone in Hk. rewrite lookup_nil in Hk. discriminate.
      * intros _ Hnone. rewrite Hnone in Hk. rewrite lookup_nil in Hk. discriminate.
  - intros api sessions user_id limit ranking_type rnd1 rnd2 o.
    destruct (higherlower_outcome api sessions user_id limit ranking_type rnd1 rnd2)
      as [(Hrq & Hst & _) | [(_ & Hfew & Hsent & Hst & _) | (Hmany & _)]];
      unfold o; clear o.
    + split; [congruence | congruence].
    + split; [auto | congruence].
    + split; [lia | auto].
Qed.

Lemma failed_start_keeps_sessions_witness :
  (sent (GuessGame.guessgame empty_catalogue medium_round 7 (lit "easy") 10
           (lit "airing") 0) = [could_not_start]
   /\ store (GuessGame.guessgame empty_catalogue medium_round 7 (lit "easy") 10
               (lit "airing") 0) = medium_round)
  /\ (sent (HigherLower.higherlower (serves [entry 1 7.5]) tie_round 7 (Some 5)
              (lit "movie") 0 0) = [could_not_start]
      /\ store (HigherLower.higherlower (serves [entry 1 7.5]) tie_round 7 (Some 5)
                  (lit "movie") 0 0) = tie_round).
Proof.
  destruct failed_start_keeps_sessions as [Hguess Hhl].
  split.
  - destruct (Hguess empty_catalogue medium_round 7 (lit "easy") 10 (lit "airing") 0)
      as [Hfail _].
    apply Hfail; [vm_compute; discriminate | reflexivity].
  - destruct (Hhl (serves [entry 1 7.5]) tie_round 7 (Some 5) (lit "movie") 0 0)
      as [Hfail _].
    apply Hfail; [vm_compute; discriminate | vm_compute; reflexivity].
Defined.

(** ** Rounds *)

(** What a guess does to the store: nothing, or it deletes the user's
    session, or it draws an entry out of the pool and counts the score up. *)
Lemma guess_step (sessions : gmap Z GuessGame.session) (user_id : Z)
    (s : GuessGame.session) (guess_value : float) (rnd : Z) :
  sessions !! user_id = Some s ->
  let o := GuessGame.guess sessions user_id guess_value rnd in
  store o = sessions
  \/ store o = delete user_id sessions
  \/ exists k drawn,
       GuessGame.anime_pool s !! k = Some drawn
       /\ store o
          = <[user_id := {| GuessGame.current_anime := get_node drawn;
                            GuessGame.anime_pool := delete k (GuessGame.anime_pool s);
                            GuessGame.score := GuessGame.score s + 1;
                            GuessGame.difficulty := GuessGame.difficulty s |}]>
              sessions.
Proof.
  intros Hactive o.
  destruct ((guess_value <? 0)%float || (10 <? guess_value)%float) eqn:Hrange.
  { left. unfold o, GuessGame.guess. rewrite Hactive, Hrange. reflexivity. }
  destruct (GuessGame.margin_of (GuessGame.difficulty s)) as [margin |] eqn:Hmargin.
  2: { left. unfold o, GuessGame.guess. rewrite Hactive, Hrange, Hmargin. reflexivity. }
  destruct (abs (guess_value - default 0%float (n_mean (GuessGame.current_anime s)))
            <=? margin)%float eqn:Hcmp.
  - destruct (GuessGame.anime_pool s) as [| it rest] eqn:Hpool.
    + right. left. unfold o.
      rewrite (guess_correct_last sessions user_id s guess_value rnd Hactive
                 margin Hrange Hmargin Hcmp Hpool).
      reflexivity.
    + right. right.
      destruct (guess_correct_next sessions user_id s guess_value rnd Hactive
                  margin Hrange Hmargin Hcmp) as (k & drawn & Hk & Ho);
        [rewrite Hpool; discriminate |].
      exists k, drawn. rewrite <- Hpool. split; [exact Hk |].
      unfold o. rewrite Ho. reflexivity.
  - right. left. unfold o.
    rewrite (guess_wrong sessions user_id s guess_value rnd Hactive
               margin Hrange Hmargin Hcmp).
    reflexivity.
Qed.

(** What a turn of Higher/Lower does to the store. *)
Lemma turn_step (sessions : gmap Z HigherLower.session) (user_id : Z)
    (s : HigherLower.session) (guess : pystr) (rnd : Z) :
  sessions !! user_id = Some s ->
  let o := HigherLower._process_higher_lower_guess guess sessions user_id rnd in
  store o = delete user_id sessions
  \/ exists k drawn,
       HigherLower.anime_pool s !! k = Some drawn
       /\ store o
          = <[user_id := {| HigherLower.current_anime := HigherLower.next_anime s;
                            HigherLower.next_anime := get_node drawn;
                            HigherLower.score := HigherLower.score s + 1;
                            HigherLower.anime_pool :=
                              delete k (HigherLower.anime_pool s) |}]>
              sessions.
Proof.
  intros Hactive o.
  destruct (HigherLower.is_correct guess
              (default 0%float (n_mean (HigherLower.current_anime s)))
              (default 0%float (n_mean (HigherLower.next_anime s)))) eqn:Hv.
  - destruct (HigherLower.anime_pool s) as [| it rest] eqn:Hpool.
    + left. unfold o.
      rewrite (turn_correct_last sessions user_id s guess rnd Hactive Hv Hpool).
      reflexivity.
    + right.
      destruct (turn_correct_next sessions user_id s guess rnd Hactive Hv)
        as (k & drawn & Hk & Ho); [rewrite Hpool; discriminate |].
      exists k, drawn. rewrite <- Hpool. split; [exact Hk |].
      unfold o. rewrite Ho. reflexivity.
  - left. unfold o. rewrite (turn_wrong sessions user_id s guess rnd Hactive Hv).
    reflexivity.
Qed.

(** Without a session nothing is drawn and no session appears. *)
Lemma guess_round_over (user_id : Z) (turns : list (float * Z)) :
  forall sessions : gmap Z GuessGame.session,
  sessions !! user_id = None ->
  guess_draws user_id turns sessions = []
  /\ Forall guess_apart (guess_states user_id turns sessions).
Proof.
  induction turns as [| [g rnd] rest IH]; intros sessions Hnone.
  - split; [reflexivity | constructor].
  - cbn [guess_draws guess_states].
    assert (Ho : GuessGame.guess sessions user_id g rnd
                 = GuessGame.keep sessions GuessGame.start_first)
      by (unfold GuessGame.guess; rewrite Hnone; reflexivity).
    rewrite Ho. cbn [GuessGame.keep store]. rewrite Hnone.
    destruct (IH sessions Hnone) as [Hd Hs]. rewrite Hd.
    split; [reflexivity | constructor; [exact I | exact Hs]].
Qed.

Lemma turn_round_over (user_id : Z) (turns : list (pystr * Z)) :
  forall sessions : gmap Z HigherLower.session,
  sessions !! user_id = None ->
  turn_draws user_id turns sessions = []
  /\ Forall turn_apart (turn_states user_id turns sessions).
Proof.
  induction turns as [| [g rnd] rest IH]; intros sessions Hnone.
  - split; [reflexivity | constructor].
  - cbn [turn_draws turn_states].
    assert (Ho : HigherLower._process_higher_lower_guess g sessions user_id rnd
                 = HigherLower.keep sessions HigherLower.start_first)
      by (unfold HigherLower._process_higher_lower_guess; rewrite Hnone; reflexivity).
    rewrite Ho. cbn [HigherLower.keep store]. rewrite Hnone.
    destruct (IH sessions Hnone) as [Hd Hs]. rewrite Hd.
    split; [reflexivity | constructor; [exact I | exact Hs]].
Qed.

(** Taking an entry out of a pool takes its record out of the records. *)
Lemma pool_records_delete (pool : list item) (k : nat) (drawn : item) :
  pool !! k = Some drawn ->
  pool_records pool ≡ₚ get_node drawn :: pool_records (delete k pool).
Proof.
  intros Hk. unfold pool_records. rewrite list_fmap_delete.
  apply delete_Permutation. rewrite list_lookup_fmap, Hk. reflexivity.
Qed.

Lemma len_delete_lt {A} (l : list A) (k : nat) (x : A) :
  l !! k = Some x -> (len (delete k l) <? len l) = true.
Proof.
  intros Hk. apply Z.ltb_lt. unfold len.
  pose proof (length_delete_lookup l k x Hk). lia.
Qed.

(** In a list without repeats, what comes first stays without repeats when
    the tail is cut, and the heads are not in the tail. *)
Lemma NoDup_shown_one {A} (hist : list A) (c : A) (pool : list A) :
  NoDup (hist ++ c :: pool) -> NoDup (hist ++ [c]) /\ (c ∉ pool).
Proof.
  intros Hnd. apply NoDup_app in Hnd. destruct Hnd as (Hh & Hsep & Hc).
  apply NoDup_cons in Hc. destruct Hc as [Hcp _].
  split; [| exact Hcp].
  apply NoDup_app. split; [exact Hh | split].
  - intros x Hx Hin. apply (Hsep x Hx).
    apply list_elem_of_singleton in Hin. subst x. left.
  - apply NoDup_singleton.
Qed.

Lemma NoDup_shown_two {A} (hist : list A) (c n : A) (pool : list A) :
  NoDup (hist ++ c :: n :: pool) ->
  NoDup (hist ++ [c; n]) /\ (c ∉ pool) /\ (n ∉ pool).
Proof.
  intros Hnd. apply NoDup_app in Hnd. destruct Hnd as (Hh & Hsep & Hc).
  apply NoDup_cons in Hc. destruct Hc as [Hcn Hn].
  apply NoDup_cons in Hn. destruct Hn as [Hnp Hp].
  split; [| split].
  - apply NoDup_app. split; [exact Hh | split].
    + intros x Hx Hin. apply (Hsep x Hx).
      apply elem_of_cons in Hin. destruct Hin as [-> | Hin]; [left |].
      apply list_elem_of_singleton in Hin. subst x. right. left.
    + apply NoDup_cons. split; [| apply NoDup_singleton].
      intros Hin. apply list_elem_of_singleton in Hin. subst n. apply Hcn. left.
  - intros Hin. apply Hcn. right. exact Hin.
  - exact Hnp.
Qed.

(** A Guess-The-Rating round whose records shown so far ([hist]), current
    record and pool records are pairwise distinct keeps them so: whatever
    the turns, no record is drawn that was shown before, and the pool never
    holds the current record. *)
Lemma guess_round_distinct (user_id : Z) (turns : list (float * Z)) :
  forall (sessions : gmap Z GuessGame.session) (s : GuessGame.session)
         (hist : list node),
  sessions !! user_id = Some s ->
  NoDup (hist ++ GuessGame.current_anime s
              :: pool_records (GuessGame.anime_pool s)) ->
  NoDup (hist ++ GuessGame.current_anime s :: guess_draws user_id turns sessions)
  /\ Forall guess_apart (Some s :: guess_states user_id turns sessions).
Proof.
  induction turns as [| [g rnd] rest IH]; intros sessions s hist Hactive Hnd;
    destruct (NoDup_shown_one _ _ _ Hnd) as [Hshown Hapart];
    cbn [guess_draws guess_states].
  - split; [exact Hshown | constructor; [exact Hapart | constructor]].
  - destruct (guess_step sessions user_id s g rnd Hactive)
      as [Hsame | [Hgone | (k & drawn & Hk & Hdraw)]].
    + rewrite Hsame, Hactive. cbn [guess_drew].
      rewrite Z.ltb_irrefl. cbn [app].
      destruct (IH sessions s hist Hactive Hnd) as [Hd Hs].
      split; [exact Hd |].
      constructor; [exact Hapart | exact Hs].
    + rewrite Hgone, Hactive, lookup_delete_eq. cbn [guess_drew app].
      destruct (guess_round_over user_id rest (delete user_id sessions)
                  (lookup_delete_eq _ _)) as [Hd Hs].
      rewrite Hd. split; [exact Hshown |].
      constructor; [exact Hapart |]. constructor; [exact I | exact Hs].
    + rewrite Hdraw, Hactive, lookup_insert_eq.
      cbn [guess_drew GuessGame.anime_pool GuessGame.current_anime].
      rewrite (len_delete_lt _ _ _ Hk). cbn [app].
      set (s' := {| GuessGame.current_anime := get_node drawn;
                    GuessGame.anime_pool := delete k (GuessGame.anime_pool s);
                    GuessGame.score := GuessGame.score s + 1;
                    GuessGame.difficulty := GuessGame.difficulty s |}).
      destruct (IH (<[user_id := s']> sessions) s'
                  (hist ++ [GuessGame.current_anime s])
                  (lookup_insert_eq _ _ _)) as [Hd Hs].
      * cbn [s' GuessGame.current_anime GuessGame.anime_pool].
        rewrite <- app_assoc. cbn [app].
        rewrite <- (pool_records_delete _ _ _ Hk). exact Hnd.
      * rewrite <- app_assoc in Hd. cbn [app] in Hd.
        split; [exact Hd |].
        constructor; [exact Hapart | exact Hs].
Qed.

(** The same for Higher/Lower, with the current and the next record on
    show. *)
Lemma turn_round_distinct (user_id : Z) (turns : list (pystr * Z)) :
  forall (sessions : gmap Z HigherLower.session) (s : HigherLower.session)
         (hist : list node),
  sessions !! user_id = Some s ->
  NoDup (hist ++ HigherLower.current_anime s :: HigherLower.next_anime s
              :: pool_records (HigherLower.anime_pool s)) ->
  NoDup (hist ++ HigherLower.current_anime s :: HigherLower.next_anime s
              :: turn_draws user_id turns sessions)
  /\ Forall turn_apart (Some s :: turn_states user_id turns sessions).
Proof.
  induction turns as [| [g rnd] rest IH]; intros sessions s hist Hactive Hnd.
  - cbn [turn_draws turn_states].
    destruct (NoDup_shown_two _ _ _ _ Hnd) as (Hd & Hc & Hn).
    split; [exact Hd | constructor; [split; assumption | constructor]].
  - assert (Hapart : turn_apart (Some s)).
    { destruct (NoDup_shown_two _ _ _ _ Hnd) as (_ & Hc & Hn). split; assumption. }
    cbn [turn_draws turn_states].
    destruct (turn_step sessions user_id s g rnd Hactive)
      as [Hgone | (k & drawn & Hk & Hdraw)].
    + rewrite Hgone, Hactive, lookup_delete_eq. cbn [turn_drew app].
      destruct (turn_round_over user_id rest (delete user_id sessions)
                  (lookup_delete_eq _ _)) as [Hd Hs].
      rewrite Hd. split.
      * apply (NoDup_shown_two _ _ _ _ Hnd).
      * constructor; [exact Hapart |]. constructor; [exact I | exact Hs].
    + rewrite Hdraw, Hactive, lookup_insert_eq. cbn [turn_drew HigherLower.anime_pool
        HigherLower.next_anime].
      rewrite (len_delete_lt _ _ _ Hk). cbn [app].
      set (s' := {| HigherLower.current_anime := HigherLower.next_anime s;
                    HigherLower.next_anime := get_node drawn;
                    HigherLower.score := HigherLower.score s + 1;
                    HigherLower.anime_pool := delete k (HigherLower.anime_pool s) |}).
      destruct (IH (<[user_id := s']> sessions) s'
                  (hist ++ [HigherLower.current_anime s])
                  (lookup_insert_eq _ _ _)) as [Hd Hs].
      * cbn [s' HigherLower.current_anime HigherLower.next_anime
               HigherLower.anime_pool].
        rewrite <- app_assoc. cbn [app].
        rewrite <- (pool_records_delete _ _ _ Hk). exact Hnd.
      * rewrite <- app_assoc in Hd. cbn [app] in Hd.
        split; [exact Hd |].
        constructor; [exact Hapart | exact Hs].
Qed.

(** A correct last guess ends the round. *)
Lemma guess_correct_on_empty_pool_ends (sessions : gmap Z GuessGame.session)
    (user_id : Z) (s : GuessGame.session) (guess_value : float) (rnd : Z) :
  sessions !! user_id = Some s ->
  judged_correct (GuessGame.guess sessions user_id guess_value rnd) = true ->
  GuessGame.anime_pool s = [] ->
  store (GuessGame.guess sessions user_id guess_value rnd) !! user_id = None.
Proof.
  intros Hactive Hjudged Hpool. revert Hjudged.
  unfold GuessGame.guess. rewrite Hactive.
  destruct ((guess_value <? 0)%float || (10 <? guess_value)%float);
    [intros Hj; vm_compute in Hj; discriminate |].
  destruct (GuessGame.margin_of (GuessGame.difficulty s)) as [margin |];
    [| intros Hj; vm_compute in Hj; discriminate].
  destruct (abs (guess_value - default 0%float (n_mean (GuessGame.current_anime s)))
            <=? margin)%float.
  - rewrite Hpool. intros _. cbn [store]. apply lookup_delete_eq.
  - intros _. cbn [store]. apply lookup_delete_eq.
Qed.

Lemma turn_correct_on_empty_pool_ends (sessions : gmap Z HigherLower.session)
    (user_id : Z) (s : HigherLower.session) (guess : pystr) (rnd : Z) :
  sessions !! user_id = Some s ->
  HigherLower.anime_pool s = [] ->
  store (HigherLower._process_higher_lower_guess guess sessions user_id rnd)
    !! user_id = None.
Proof.
  intros Hactive Hpool.
  destruct (turn_step sessions user_id s guess rnd Hactive)
    as [Hgone | (k & drawn & Hk & _)].
  - rewrite Hgone. apply lookup_delete_eq.
  - rewrite Hpool, lookup_nil in Hk. discriminate.
Qed.

(** C6, amended: every draw takes exactly one entry out of the pool, and a
    correct answer on an empty pool ends the session; when the records
    received at the start are pairwise distinct, no record is drawn twice
    over the turns of the round and the pool never holds a record on
    show.  In this order: a guess, a Guess-The-Rating round, a turn of
    Higher/Lower, a Higher/Lower round. *)
Theorem draws_without_repeats :
  (forall (sessions : gmap Z GuessGame.session) (user_id : Z)
          (s : GuessGame.session) (guess_value : float) (rnd : Z),
      sessions !! user_id = Some s ->
      let o := GuessGame.guess sessions user_id guess_value rnd in
      (forall s', store o !! user_id = Some s' ->
         s' = s
         \/ exists k drawn,
              GuessGame.anime_pool s !! k = Some drawn
              /\ GuessGame.current_anime s' = get_node drawn
              /\ GuessGame.anime_pool s' = delete k (GuessGame.anime_pool s)
              /\ len (GuessGame.anime_pool s') = len (GuessGame.anime_pool s) - 1)
      /\ (judged_correct o = true -> GuessGame.anime_pool s = [] ->
          store o !! user_id = None))
  /\ (forall (api : upstream) (sessions : gmap Z GuessGame.session) (user_id : Z)
             (difficulty : pystr) (limit : Z) (ranking_type : pystr) (rnd : Z)
             (turns : list (float * Z)),
         let o := GuessGame.guessgame api sessions user_id difficulty limit
                    ranking_type rnd in
         received api (requests o) <> [] ->
         NoDup (pool_records (received api (requests o))) ->
         exists s0,
           store o !! user_id = Some s0
           /\ len (GuessGame.anime_pool s0) = len (received api (requests o)) - 1
           /\ NoDup (GuessGame.current_anime s0
                       :: guess_draws user_id turns (store o))
           /\ Forall guess_apart (Some s0 :: guess_states user_id turns (store o)))
  /\ (forall (sessions : gmap Z HigherLower.session) (user_id : Z)
             (s : HigherLower.session) (guess : pystr) (rnd : Z),
         sessions !! user_id = Some s ->
         let o := HigherLower._process_higher_lower_guess guess sessions user_id rnd in
         (forall s', store o !! user_id = Some s' ->
            exists k drawn,
              HigherLower.anime_pool s !! k = Some drawn
              /\ HigherLower.current_anime s' = HigherLower.next_anime s
              /\ HigherLower.next_anime s' = get_node drawn
              /\ HigherLower.anime_pool s' = delete k (HigherLower.anime_pool s)
              /\ len (HigherLower.anime_pool s')
                 = len (HigherLower.anime_pool s) - 1)
         /\ (judged_correct o = true -> HigherLower.anime_pool s = [] ->
             store o !! user_id = None))
  /\ (forall (api : upstream) (sessions : gmap Z HigherLower.session) (user_id : Z)
             (limit : option Z) (ranking_type : pystr) (rnd1 rnd2 : Z)
             (turns : list (pystr * Z)),
         let o := HigherLower.higherlower api sessions user_id limit ranking_type
                    rnd1 rnd2 in
         2 <= len (received api (requests o)) ->
         NoDup (pool_records (received api (requests o))) ->
         exists s0,
           store o !! user_id = Some s0
           /\ len (HigherLower.anime_pool s0) = len (received api (requests o)) - 2
           /\ NoDup (HigherLower.current_anime s0 :: HigherLower.next_anime s0
                       :: turn_draws user_id turns (store o))
           /\ Forall turn_apart (Some s0 :: turn_states user_id turns (store o))).
Proof.
  split; [| split; [| split]].
  - intros sessions user_id s guess_value rnd Hactive o. split.
    + intros s' Hs'.
      destruct (guess_step sessions user_id s guess_value rnd Hactive)
        as [Hsame | [Hgone | (k & drawn & Hk & Hdraw)]]; fold o in Hs'.
      * left. unfold o in Hs'. rewrite Hsame in Hs'. congruence.
      * unfold o in Hs'. rewrite Hgone, lookup_delete_eq in Hs'. discriminate.
      * right. unfold o in Hs'. rewrite Hdraw, lookup_insert_eq in Hs'.
        injection Hs' as <-. exists k, drawn. cbn.
        repeat split; try assumption.
        pose proof (length_delete_lookup _ _ _ Hk). unfold len. lia.
    + intros Hj Hpool.
      apply (guess_correct_on_empty_pool_ends sessions user_id s guess_value rnd
               Hactive Hj Hpool).
  - intros api sessions user_id difficulty limit ranking_type rnd turns o Hsome Hnd.
    destruct (guessgame_outcome api sessions user_id difficulty limit ranking_type rnd)
      as [(Hrq & _) | [(_ & _ & Hnone & _) | (_ & _ & _ & k & drawn & Hk & Hst)]];
      fold o in Hsome, Hnd.
    + unfold o in Hsome. rewrite Hrq in Hsome. contradiction.
    + unfold o in Hsome. contradiction.
    + fold o in Hk, Hst.
      set (s0 := {| GuessGame.current_anime := get_node drawn;
                    GuessGame.anime_pool := delete k (received api (requests o));
                    GuessGame.score := 0;
                    GuessGame.difficulty := lower difficulty |}) in *.
      assert (Hs0 : store o !! user_id = Some s0)
        by (rewrite Hst; apply lookup_insert_eq).
      exists s0. split; [exact Hs0 | split].
      * cbn. pose proof (length_delete_lookup _ _ _ Hk). unfold len. lia.
      * apply (guess_round_distinct user_id turns (store o) s0 [] Hs0).
        cbn [app s0 GuessGame.current_anime GuessGame.anime_pool].
        rewrite <- (pool_records_delete _ _ _ Hk). exact Hnd.
  - intros sessions user_id s guess rnd Hactive o. split.
    + intros s' Hs'.
      destruct (turn_step sessions user_id s guess rnd Hactive)
        as [Hgone | (k & drawn & Hk & Hdraw)]; unfold o in Hs'.
      * rewrite Hgone, lookup_delete_eq in Hs'. discriminate.
      * rewrite Hdraw, lookup_insert_eq in Hs'.
        injection Hs' as <-. exists k, drawn. cbn.
        repeat split; try assumption.
        pose proof (length_delete_lookup _ _ _ Hk). unfold len. lia.
    + intros _ Hpool.
      apply (turn_correct_on_empty_pool_ends sessions user_id s guess rnd
               Hactive Hpool).
  - intros api sessions user_id limit ranking_type rnd1 rnd2 turns o Hmany Hnd.
    destruct (higherlower_outcome api sessions user_id limit ranking_type rnd1 rnd2)
      as [(Hrq & _) | [(_ & Hfew & _)
                      | (_ & _ & k1 & first & k2 & second & Hk1 & Hk2 & Hst)]];
      fold o in Hmany, Hnd.
    + unfold o in Hmany. rewrite Hrq in Hmany.
      change (received api []) with (@nil item) in Hmany.
      unfold len in Hmany. cbn [length] in Hmany. lia.
    + unfold o in Hmany. lia.
    + fold o in Hk1, Hk2, Hst.
      set (s0 := {| HigherLower.current_anime := get_node first;
                    HigherLower.next_anime := get_node second;
                    HigherLower.score := 0;
                    HigherLower.anime_pool :=
                      delete k2 (delete k1 (received api (requests o))) |}) in *.
      assert (Hs0 : store o !! user_id = Some s0)
        by (rewrite Hst; apply lookup_insert_eq).
      exists s0. split; [exact Hs0 | split].
      * cbn. pose proof (length_delete_lookup _ _ _ Hk1).
        pose proof (length_delete_lookup _ _ _ Hk2). unfold len. lia.
      * apply (turn_round_distinct user_id turns (store o) s0 [] Hs0).
        cbn [app s0 HigherLower.current_anime HigherLower.next_anime
               HigherLower.anime_pool].
        rewrite <- (pool_records_delete _ _ _ Hk2).
        rewrite <- (pool_records_delete _ _ _ Hk1). exact Hnd.
Qed.

Lemma three_entries_distinct : NoDup (pool_records three_entries).
Proof.
  apply (NoDup_fmap_1 n_id).
  apply (bool_decide_unpack _). vm_compute. exact I.
Defined.

Lemma draws_without_repeats_witness :
  exists s0,
    store (GuessGame.guessgame (serves three_entries) ∅ 7 (lit "medium") 3
             (lit "bypopularity") 1) !! 7 = Some s0
    /\ NoDup (GuessGame.current_anime s0
                :: guess_draws 7 [(8.25%float, 0); (7.5%float, 0)]
                     (store (GuessGame.guessgame (serves three_entries) ∅ 7
                               (lit "medium") 3 (lit "bypopularity") 1))).
Proof.
  destruct draws_without_repeats as (_ & Hround & _ & _).
  destruct (Hround (serves three_entries) ∅ 7 (lit "medium") 3 (lit "bypopularity") 1
              [(8.25%float, 0); (7.5%float, 0)])
    as (s0 & Hs0 & _ & Hnd & _).
  - vm_compute. discriminate.
  - exact three_entries_distinct.
  - exists s0. split; [exact Hs0 | exact Hnd].
Defined.

(** C6 as stated fails when upstream repeats a record: with the same entry
    received twice, the record on show is still in the pool, and the next
    correct guess draws it again. *)
Lemma repeated_record_is_drawn_again :
  exists s0,
    store (GuessGame.guessgame (serves twice) ∅ 7 (lit "medium") 2
             (lit "bypopularity") 0) !! 7 = Some s0
    /\ GuessGame.current_anime s0 ∈ pool_records (GuessGame.anime_pool s0)
    /\ guess_draws 7 [(7.5%float, 0)]
         (store (GuessGame.guessgame (serves twice) ∅ 7 (lit "medium") 2
                   (lit "bypopularity") 0))
       = [GuessGame.current_anime s0]
    /\ ~ NoDup (GuessGame.current_anime s0
                  :: guess_draws 7 [(7.5%float, 0)]
                       (store (GuessGame.guessgame (serves twice) ∅ 7 (lit "medium") 2
                                 (lit "bypopularity") 0))).
Proof.
  exists {| GuessGame.current_anime := rated 1 7.5;
            GuessGame.anime_pool := [entry 1 7.5];
            GuessGame.score := 0;
            GuessGame.difficulty := lit "medium" |}.
  split; [vm_compute; reflexivity |].
  split; [cbn; left |].
  assert (Hdraws :
    guess_draws 7 [(7.5%float, 0)]
      (store (GuessGame.guessgame (serves twice) ∅ 7 (lit "medium") 2
                (lit "bypopularity") 0))
    = [rated 1 7.5]) by (vm_compute; reflexivity).
  rewrite Hdraws. split; [reflexivity |].
  cbn [GuessGame.current_anime]. intros Hnd.
  apply NoDup_cons in Hnd. destruct Hnd as [Hnotin _]. apply Hnotin. left.
Qed.

(** * More of the code *)

Import PagerRuns.

(** ** The pager over many presses *)

(** What a press leaves of the view: the view turned to the page assigned,
    or the view as it was. *)
Lemma press_view (b : button) (who : Z) (self : PaginationView) :
  view (fst (press b who self))
  = if moves b who self then turned_to self (destination b self) else self.
Proof.
  destruct b;
    unfold press, callback, prev_button, prev_five_button, next_five_button,
      next_button, bind, interaction_user, self_get, moves, destination, turned_to;
    cbn; destruct (who =? user_id self); cbn;
    try destruct (0 <? current_page self); cbn;
    try destruct (current_page self <? total_pages self - 1); cbn;
    reflexivity.
Qed.

Lemma press_keeps_in_range (b : button) (who : Z) (self : PaginationView) :
  in_range self ->
  in_range (view (fst (press b who self)))
  /\ total_pages (view (fst (press b who self))) = total_pages self
  /\ data (view (fst (press b who self))) = data self
  /\ user_id (view (fst (press b who self))) = user_id self
  /\ per_page (view (fst (press b who self))) = per_page self.
Proof.
  unfold in_range. intros Hr. rewrite press_view.
  destruct (moves b who self) eqn:Hm; [| tauto].
  unfold turned_to. cbn.
  destruct b; cbn in *;
    repeat match goal with
           | H : _ && _ = true |- _ => apply andb_true_iff in H; destruct H
           | H : (_ <? _) = true |- _ => apply Z.ltb_lt in H
           end;
    repeat split; lia.
Qed.

Lemma press_keeps_buttons (b : button) (who : Z) (self : PaginationView) :
  buttons_match self -> buttons_match (view (fst (press b who self))).
Proof.
  intros Hb. rewrite press_view.
  destruct (moves b who self); [| exact Hb].
  unfold buttons_match, turned_to. cbn. repeat split; reflexivity.
Qed.

Lemma init_in_range (entries : list item) (heading : pystr) (owner : Z)
    (url : option pystr) (ranking : bool) :
  entries <> [] ->
  in_range (init entries heading owner url ranking)
  /\ total_pages (init entries heading owner url ranking) = (len entries + 9) / 10.
Proof.
  intros Hne. unfold in_range. cbn.
  replace (len entries + 10 - 1) with (len entries + 9) by lia.
  split; [| reflexivity].
  assert (1 <= len entries)
    by (destruct entries; [congruence | unfold len; cbn [length]; lia]).
  assert (1 <= (len entries + 9) / 10)
    by (apply Z.div_le_lower_bound; lia).
  lia.
Qed.

(** X1: a view made over a non-empty list starts on a page in range, and
    whatever is pressed, by whomever, in whatever order, the page stays
    within [0 .. total_pages - 1]; the list and the number of pages, the
    list's length over ten rounded up, stay what they were. *)
Theorem page_stays_in_range (entries : list item) (heading : pystr) (owner : Z)
    (url : option pystr) (ranking : bool) (presses : list (button * Z)) :
  entries <> [] ->
  let v := press_all presses (init entries heading owner url ranking) in
  in_range v
  /\ total_pages v = (len entries + 9) / 10
  /\ data v = entries.
Proof.
  intros Hne.
  destruct (init_in_range entries heading owner url ranking Hne) as [Hr Ht].
  assert (Hd : data (init entries heading owner url ranking) = entries) by reflexivity.
  revert Hr Ht Hd. generalize (init entries heading owner url ranking) as self.
  induction presses as [| [b who] rest IH]; intros self Hr Ht Hd; cbn [press_all].
  - cbv zeta. auto.
  - destruct (press_keeps_in_range b who self Hr) as (Hr' & Ht' & Hd' & _).
    apply IH; [exact Hr' | congruence | congruence].
Qed.

Lemma page_stays_in_range_witness :
  in_range (press_all [(Next, 1); (Prev, 2); (NextFive, 1); (Next, 2); (Next, 1)]
              (init (repeat blank_item 23) (lit "List") 1 None false)).
Proof.
  apply (page_stays_in_range (repeat blank_item 23) (lit "List") 1 None false
           [(Next, 1); (Prev, 2); (NextFive, 1); (Next, 2); (Next, 1)]).
  discriminate.
Defined.

(** X2: the buttons of a view are greyed out exactly at the ends, from its
    creation on and after every press: [Previous] and [-5 Pages] on the
    first page, [+5 Pages] and [Next] on the last. *)
Theorem buttons_always_match (entries : list item) (heading : pystr) (owner : Z)
    (url : option pystr) (ranking : bool) (presses : list (button * Z)) :
  buttons_match (press_all presses (init entries heading owner url ranking)).
Proof.
  assert (Hb : buttons_match (init entries heading owner url ranking))
    by (unfold buttons_match; cbn; repeat split; reflexivity).
  revert Hb. generalize (init entries heading owner url ranking) as self.
  induction presses as [| [b who] rest IH]; intros self Hb; cbn [press_all].
  - exact Hb.
  - apply IH. apply press_keeps_buttons. exact Hb.
Qed.

(** For a window that starts at or after 0, Python's slice is a [take]
    after a [drop]. *)
Lemma slice_window {A} (l : list A) (a n : Z) :
  0 <= a -> 0 <= n ->
  slice l a (a + n) = take (Z.to_nat n) (drop (Z.to_nat a) l).
Proof.
  intros Ha Hn. unfold slice.
  destruct (a <? 0) eqn:Ea; [apply Z.ltb_lt in Ea; lia |].
  destruct (a + n <? 0) eqn:Eb; [apply Z.ltb_lt in Eb; lia |].
  unfold len.
  destruct (Z_le_gt_dec a (Z.of_nat (length l))) as [Hin | Hout].
  - replace (Z.min (Z.of_nat (length l)) (Z.max 0 a)) with a by lia.
    destruct (Z_le_gt_dec (a + n) (Z.of_nat (length l))) as [Hfull | Hshort].
    + replace (Z.min (Z.of_nat (length l)) (Z.max 0 (a + n)) - a) with n by lia.
      reflexivity.
    + replace (Z.min (Z.of_nat (length l)) (Z.max 0 (a + n)) - a)
        with (Z.of_nat (length l) - a) by lia.
      rewrite !take_ge; [reflexivity | |]; rewrite length_drop; lia.
  - replace (Z.min (Z.of_nat (length l)) (Z.max 0 a)) with (Z.of_nat (length l)) by lia.
    rewrite Nat2Z.id.
    rewrite (drop_ge l (length l)) by lia.
    rewrite (drop_ge l (Z.to_nat a)) by lia.
    rewrite !take_nil. reflexivity.
Qed.

(** Windows of [n] laid end to end are a prefix of the list. *)
Lemma chunks_cover {A} (l : list A) (n k : nat) :
  concat (map (fun i => take n (drop (i * n) l)) (seq 0 k)) = take (k * n) l.
Proof.
  induction k as [| k IH].
  - reflexivity.
  - rewrite seq_S, map_app, concat_app, IH. cbn [map concat plus].
    rewrite app_nil_r, take_take_drop. f_equal. lia.
Qed.

Lemma page_data_init (entries : list item) (heading : pystr) (owner : Z)
    (url : option pystr) (ranking : bool) (p : Z) :
  0 <= p ->
  page_data (with_current_page (init entries heading owner url ranking) p)
  = take 10 (drop (Z.to_nat p * 10) entries).
Proof.
  intros Hp. unfold page_data. cbn.
  rewrite (slice_window entries (p * 10) 10) by lia.
  f_equal. f_equal. lia.
Qed.

(** X3: the pages of a view cut its list into consecutive windows: laid end
    to end, pages [0 .. total_pages - 1] give the list back, nothing
    dropped, repeated or reordered; every one of these pages shows between
    one and ten entries, one embed field for each. *)
Theorem pages_partition_the_list (entries : list item) (heading : pystr)
    (owner : Z) (url : option pystr) (ranking : bool) :
  let v := init entries heading owner url ranking in
  concat (map (fun p => page_data (with_current_page v (Z.of_nat p)))
            (seq 0 (Z.to_nat (total_pages v))))
  = entries
  /\ (forall p, 0 <= p < total_pages v ->
        1 <= len (page_data (with_current_page v p)) <= 10
        /\ e_fields (get_embed (with_current_page v p))
           = map (render_item ranking) (page_data (with_current_page v p))).
Proof.
  cbv zeta.
  assert (Htotal : total_pages (init entries heading owner url ranking)
                   = (len entries + 9) / 10)
    by (cbn; f_equal; lia).
  rewrite Htotal.
  pose proof (Z.div_mod (len entries + 9) 10 ltac:(lia)) as Hdm.
  pose proof (Z.mod_pos_bound (len entries + 9) 10 ltac:(lia)) as Hmod.
  pose proof (len_nonneg entries) as Hlen.
  split.
  - rewrite (map_ext _ (fun i => take 10 (drop (i * 10) entries))).
    + rewrite chunks_cover. apply take_ge. unfold len in *. lia.
    + intros i. rewrite page_data_init by lia. rewrite Nat2Z.id. reflexivity.
  - intros p Hp. split; [| reflexivity].
    rewrite page_data_init by lia. unfold len in *.
    rewrite length_take, length_drop. lia.
Qed.

Lemma pages_partition_the_list_witness :
  1 <= len (page_data (with_current_page
                         (init (repeat blank_item 23) (lit "List") 1 None false) 2))
  <= 10.
Proof.
  apply (pages_partition_the_list (repeat blank_item 23) (lit "List") 1 None false).
  vm_compute. split; [discriminate | reflexivity].
Defined.

Lemma turned_to_again (self : PaginationView) (p q : Z) :
  turned_to (turned_to self p) q = turned_to self q.
Proof. reflexivity. Qed.

(** [k] presses of [Next], by anybody: on from the page, not past the
    last. *)
Lemma next_presses (who : Z) (k : nat) :
  forall self : PaginationView,
  press_all (repeat (Next, who) k) self
  = if (0 <? Z.of_nat k) && (current_page self <? total_pages self - 1)
    then turned_to self (Z.min (total_pages self - 1) (current_page self + Z.of_nat k))
    else self.
Proof.
  induction k as [| k IH]; intros self.
  - reflexivity.
  - cbn [repeat press_all]. rewrite press_view. cbn [moves destination].
    replace (0 <? Z.of_nat (S k)) with true by (symmetry; apply Z.ltb_lt; lia).
    cbn [andb].
    destruct (current_page self <? total_pages self - 1) eqn:Hc.
    + rewrite IH. apply Z.ltb_lt in Hc.
      change (current_page (turned_to self (current_page self + 1)))
        with (current_page self + 1).
      change (total_pages (turned_to self (current_page self + 1)))
        with (total_pages self).
      destruct ((0 <? Z.of_nat k) && (current_page self + 1 <? total_pages self - 1))
        eqn:Hmore.
      * rewrite turned_to_again. f_equal. lia.
      * f_equal. apply andb_false_iff in Hmore.
        destruct Hmore as [Hk | Hend];
          [apply Z.ltb_ge in Hk | apply Z.ltb_ge in Hend]; lia.
    + rewrite IH. rewrite Hc. rewrite andb_false_r. reflexivity.
Qed.

(** [k] presses of [Previous], by anybody: back from the page, not before
    the first. *)
Lemma prev_presses (who : Z) (k : nat) :
  forall self : PaginationView,
  press_all (repeat (Prev, who) k) self
  = if (0 <? Z.of_nat k) && (0 <? current_page self)
    then turned_to self (Z.max 0 (current_page self - Z.of_nat k))
    else self.
Proof.
  induction k as [| k IH]; intros self.
  - reflexivity.
  - cbn [repeat press_all]. rewrite press_view. cbn [moves destination].
    replace (0 <? Z.of_nat (S k)) with true by (symmetry; apply Z.ltb_lt; lia).
    cbn [andb].
    destruct (0 <? current_page self) eqn:Hc.
    + rewrite IH. apply Z.ltb_lt in Hc.
      change (current_page (turned_to self (current_page self - 1)))
        with (current_page self - 1).
      destruct ((0 <? Z.of_nat k) && (0 <? current_page self - 1)) eqn:Hmore.
      * rewrite turned_to_again. f_equal. lia.
      * f_equal. apply andb_false_iff in Hmore.
        destruct Hmore as [Hk | Hend];
          [apply Z.ltb_ge in Hk | apply Z.ltb_ge in Hend]; lia.
    + rewrite IH. rewrite Hc. rewrite andb_false_r. reflexivity.
Qed.

(** X4: for the owner, [+5 Pages] leaves the view exactly as five presses
    of [Next] do, and [-5 Pages] exactly as five presses of [Previous],
    the buttons included, on any page. *)
Theorem five_pages_is_five_presses (self : PaginationView) :
  view (fst (press NextFive (user_id self) self))
  = press_all (repeat (Next, user_id self) 5) self
  /\ view (fst (press PrevFive (user_id self) self))
     = press_all (repeat (Prev, user_id self) 5) self.
Proof.
  rewrite next_presses, prev_presses, !press_view.
  cbn [moves destination]. rewrite Z.eqb_refl. split; reflexivity.
Qed.

Lemma turned_to_same (self : PaginationView) :
  buttons_match self -> turned_to self (current_page self) = self.
Proof.
  destruct self. unfold buttons_match, turned_to. cbn.
  intros (-> & -> & -> & ->). reflexivity.
Qed.

(** X5: away from the ends the single steps undo each other: on a view
    whose buttons match its page, [Next] and then [Previous] leave the view
    as it was when it was not on the last page, and [Previous] and then
    [Next] when it was not on the first. *)
Theorem next_and_previous_undo (self : PaginationView) (who who' : Z) :
  in_range self ->
  buttons_match self ->
  (current_page self < total_pages self - 1 ->
   press_all [(Next, who); (Prev, who')] self = self)
  /\ (0 < current_page self ->
      press_all [(Prev, who); (Next, who')] self = self).
Proof.
  unfold in_range. intros Hr Hb. split; intros Hc; cbn [press_all];
    rewrite !press_view; cbn [moves destination].
  - replace (current_page self <? total_pages self - 1) with true
      by (symmetry; apply Z.ltb_lt; lia).
    change (current_page (turned_to self (current_page self + 1)))
      with (current_page self + 1).
    replace (0 <? current_page self + 1) with true
      by (symmetry; apply Z.ltb_lt; lia).
    rewrite turned_to_again.
    replace (current_page self + 1 - 1) with (current_page self) by lia.
    apply turned_to_same. exact Hb.
  - replace (0 <? current_page self) with true
      by (symmetry; apply Z.ltb_lt; lia).
    change (current_page (turned_to self (current_page self - 1)))
      with (current_page self - 1).
    change (total_pages (turned_to self (current_page self - 1)))
      with (total_pages self).
    replace (current_page self - 1 <? total_pages self - 1) with true
      by (symmetry; apply Z.ltb_lt; lia).
    rewrite turned_to_again.
    replace (current_page self - 1 + 1) with (current_page self) by lia.
    apply turned_to_same. exact Hb.
Qed.

Lemma next_and_previous_undo_witness :
  press_all [(Next, 1); (Prev, 1)] second_page = second_page
  /\ press_all [(Prev, 1); (Next, 1)] second_page = second_page.
Proof.
  assert (Hr : in_range second_page) by (vm_compute; split; discriminate).
  assert (Hb : buttons_match second_page) by (vm_compute; repeat split; reflexivity).
  destruct (next_and_previous_undo second_page 1 1 Hr Hb) as [Hnp Hpn].
  split; [apply Hnp | apply Hpn]; reflexivity.
Defined.

(** ** The related-anime field when everything fits *)

Lemma sum_len1_app (a b : list pystr) :
  sum_len1 (a ++ b) = sum_len1 a + sum_len1 b.
Proof. induction a as [| l rest IH]; cbn [app sum_len1]; lia. Qed.

Lemma sum_len1_nonneg (a : list pystr) : 0 <= sum_len1 a.
Proof.
  induction a as [| l rest IH]; cbn [sum_len1]; [lia |].
  pose proof (len_nonneg l). lia.
Qed.

(** The loop keeps every candidate exactly when all the lines, joined, and
    the notice fit in the budget. *)
Lemma kept_all_iff (related : list related_entry) :
  forall lines : list pystr,
  kept lines related = length related
  <-> related = []
      \/ sum_len1 (lines ++ map format_line related) - 1 + len FOOTER_TEXT
         <= MAX_FIELD_LEN.
Proof.
  induction related as [| r rest IH]; intros lines.
  - cbn. tauto.
  - cbn [kept length map].
    replace (lines ++ format_line r :: map format_line rest)
      with ((lines ++ [format_line r]) ++ map format_line rest)
      by (rewrite <- app_assoc; reflexivity).
    destruct (MAX_FIELD_LEN <? sum_len1 lines + len (format_line r) + len FOOTER_TEXT)
      eqn:Hover.
    + apply Z.ltb_lt in Hover. split; [discriminate |].
      intros [Hnil | Hfit]; [discriminate |].
      rewrite sum_len1_app, sum_len1_snoc in Hfit.
      pose proof (sum_len1_nonneg (map format_line rest)). lia.
    + apply Z.ltb_ge in Hover. rewrite Nat.succ_inj_wd, IH.
      split.
      * intros [-> | Hfit]; right; [| exact Hfit].
        cbn [map]. rewrite app_nil_r, sum_len1_snoc. lia.
      * intros [Hnil | Hfit]; [discriminate | right; exact Hfit].
Qed.

(** X6: the related-anime field is the full listing, one line per entry and
    no notice, whenever the listing and the notice together fit in 1024
    characters; a listing that does not leave that room is cut: the field
    ends with the notice and has at most 1025 characters; with no related
    entry the field reads "None". *)
Theorem related_field_full_or_cut (related : list related_entry) :
  let full := join newline (map format_line related) in
  (related = [] -> related_str related = lit "None")
  /\ (related <> [] -> len full + len FOOTER_TEXT <= MAX_FIELD_LEN ->
      related_str related = full)
  /\ (related <> [] -> MAX_FIELD_LEN < len full + len FOOTER_TEXT ->
      last (related_lines related) = Some FOOTER_TEXT
      /\ len (related_str related) <= MAX_FIELD_LEN + 1).
Proof.
  cbv zeta.
  assert (Hfull : related <> [] ->
            len (join newline (map format_line related))
            = sum_len1 ([] ++ map format_line related) - 1).
  { intros Hne. cbn [app]. apply len_join_newline.
    destruct related; [congruence | discriminate]. }
  split; [intros ->; reflexivity | split].
  - intros Hne Hfit. rewrite (Hfull Hne) in Hfit.
    assert (Hall : kept [] related = length related)
      by (apply kept_all_iff; right; exact Hfit).
    unfold related_str, related_lines. rewrite related_loop_shape, Hall.
    rewrite Nat.ltb_irrefl, app_nil_r, firstn_all. cbn [app].
    destruct related as [| r rest]; [congruence | reflexivity].
  - intros Hne Hover. rewrite (Hfull Hne) in Hover.
    assert (Hcut : (kept [] related <? length related)%nat = true).
    { apply Nat.ltb_lt.
      assert (kept [] related <> length related)
        by (rewrite kept_all_iff; intros [Hnil | Hfit]; [congruence | lia]).
      assert (Hle : forall rel lines, (kept lines rel <= length rel)%nat).
      { induction rel as [| r rest IH]; intros lines; cbn [kept length]; [lia |].
        destruct (MAX_FIELD_LEN <? _); [lia |].
        specialize (IH (lines ++ [format_line r])). lia. }
      specialize (Hle related []). lia. }
    split; [| apply related_str_at_most_1025].
    unfold related_lines. rewrite related_loop_shape, Hcut. cbn [app].
    apply last_snoc.
Qed.

Lemma related_field_full_or_cut_witness :
  related_str [sequel 37 10001; sequel 38 10010]
  = join newline (map format_line [sequel 37 10001; sequel 38 10010])
  /\ last (related_lines crowded) = Some FOOTER_TEXT.
Proof.
  split.
  - apply (related_field_full_or_cut [sequel 37 10001; sequel 38 10010]);
      [discriminate | vm_compute; discriminate].
  - apply (related_field_full_or_cut crowded);
      [discriminate | vm_compute; reflexivity].
Defined.

Import GameRuns Upstreams.

(** ** The games: what every answer looks like *)

(** The four ways a guess in an active round with a valid difficulty can
    go. *)
Lemma guess_cases (sessions : gmap Z GuessGame.session) (user_id : Z)
    (s : GuessGame.session) (guess_value : float) (rnd : Z) :
  sessions !! user_id = Some s ->
  GuessGame.difficulty s ∈ GuessGame.difficulties ->
  let o := GuessGame.guess sessions user_id guess_value rnd in
  raised o = None
  /\ ((out_of_range guess_value = true /\ store o = sessions
       /\ judged_correct o = false)
      \/ (out_of_range guess_value = false /\ store o = delete user_id sessions
          /\ judged_correct o = false)
      \/ (out_of_range guess_value = false /\ GuessGame.anime_pool s = []
          /\ store o = delete user_id sessions /\ judged_correct o = true
          /\ reported (lit "Final Score") o = Some (VInt (GuessGame.score s + 1)))
      \/ (out_of_range guess_value = false
          /\ reported (lit "Final Score") o = None
          /\ exists k drawn,
               GuessGame.anime_pool s !! k = Some drawn
               /\ store o
                  = <[user_id := {| GuessGame.current_anime := get_node drawn;
                                    GuessGame.anime_pool :=
                                      delete k (GuessGame.anime_pool s);
                                    GuessGame.score := GuessGame.score s + 1;
                                    GuessGame.difficulty := GuessGame.difficulty s |}]>
                      sessions)).
Proof.
  intros Hactive Hdiff o.
  destruct (out_of_range guess_value) eqn:Hrange; unfold out_of_range in Hrange.
  { assert (Ho : o = GuessGame.keep sessions
                       (Msg (lit "Rating must be between 0 and 10. Use `/help guess` for more info.")))
      by (unfold o, GuessGame.guess; rewrite Hactive, Hrange; reflexivity).
    rewrite Ho. split; [reflexivity |]. left. repeat split. }
  pose proof (margin_of_design _ Hdiff) as Hmargin.
  destruct (abs (guess_value - default 0%float (n_mean (GuessGame.current_anime s)))
            <=? GuessGame.design_margin (GuessGame.difficulty s))%float eqn:Hcmp.
  - destruct (GuessGame.anime_pool s) as [| it rest] eqn:Hpool.
    + unfold o.
      rewrite (guess_correct_last sessions user_id s guess_value rnd Hactive
                 _ Hrange Hmargin Hcmp Hpool).
      split; [reflexivity |]. right. right. left. repeat split.
    + destruct (guess_correct_next sessions user_id s guess_value rnd Hactive
                  _ Hrange Hmargin Hcmp) as (k & drawn & Hk & Ho);
        [rewrite Hpool; discriminate |].
      unfold o. rewrite Ho. split; [reflexivity |]. right. right. right.
      split; [reflexivity | split; [reflexivity |]].
      exists k, drawn. rewrite <- Hpool. split; [exact Hk | reflexivity].
  - unfold o.
    rewrite (guess_wrong sessions user_id s guess_value rnd Hactive
               _ Hrange Hmargin Hcmp).
    split; [reflexivity |]. right. left. repeat split.
Qed.

(** The three ways a turn of Higher/Lower in an active round can go. *)
Lemma turn_cases (sessions : gmap Z HigherLower.session) (user_id : Z)
    (s : HigherLower.session) (guess : pystr) (rnd : Z) :
  sessions !! user_id = Some s ->
  let o := HigherLower._process_higher_lower_guess guess sessions user_id rnd in
  raised o = None
  /\ ((store o = delete user_id sessions /\ judged_correct o = false)
      \/ (HigherLower.anime_pool s = [] /\ store o = delete user_id sessions
          /\ judged_correct o = true
          /\ reported (lit "Final Streak") o
             = Some (VInt (HigherLower.score s + 1)))
      \/ (reported (lit "Final Streak") o = None
          /\ exists k drawn,
               HigherLower.anime_pool s !! k = Some drawn
               /\ store o
                  = <[user_id := {| HigherLower.current_anime := HigherLower.next_anime s;
                                    HigherLower.next_anime := get_node drawn;
                                    HigherLower.score := HigherLower.score s + 1;
                                    HigherLower.anime_pool :=
                                      delete k (HigherLower.anime_pool s) |}]>
                      sessions)).
Proof.
  intros Hactive o.
  destruct (HigherLower.is_correct guess
              (default 0%float (n_mean (HigherLower.current_anime s)))
              (default 0%float (n_mean (HigherLower.next_anime s)))) eqn:Hv.
  - destruct (HigherLower.anime_pool s) as [| it rest] eqn:Hpool.
    + unfold o.
      rewrite (turn_correct_last sessions user_id s guess rnd Hactive Hv Hpool).
      split; [reflexivity |]. right. left. repeat split.
    + destruct (turn_correct_next sessions user_id s guess rnd Hactive Hv)
        as (k & drawn & Hk & Ho); [rewrite Hpool; discriminate |].
      unfold o. rewrite Ho. split; [reflexivity |]. right. right.
      split; [reflexivity |].
      exists k, drawn. rewrite <- Hpool. split; [exact Hk | reflexivity].
  - unfold o. rewrite (turn_wrong sessions user_id s guess rnd Hactive Hv).
    split; [reflexivity |]. left. repeat split.
Qed.

Lemma guess_without_session (sessions : gmap Z GuessGame.session) (user_id : Z)
    (guess_value : float) (rnd : Z) :
  sessions !! user_id = None ->
  GuessGame.guess sessions user_id guess_value rnd
  = GuessGame.keep sessions GuessGame.start_first.
Proof. intros Hnone. unfold GuessGame.guess. rewrite Hnone. reflexivity. Qed.

Lemma turn_without_session (sessions : gmap Z HigherLower.session) (user_id : Z)
    (guess : pystr) (rnd : Z) :
  sessions !! user_id = None ->
  HigherLower._process_higher_lower_guess guess sessions user_id rnd
  = HigherLower.keep sessions HigherLower.start_first.
Proof.
  intros Hnone. unfold HigherLower._process_higher_lower_guess.
  rewrite Hnone. reflexivity.
Qed.

(** ** One user's turns and the other users' sessions *)

(** X7: the sessions are kept apart by user.  Whatever a user does, starting
    a game, guessing or pressing a button of either game, the entry of every
    other user in the store is what it was; and a press on the buttons of
    somebody else's Higher/Lower round changes nothing and sends nothing. *)
Theorem other_sessions_untouched :
  (forall (sessions : gmap Z GuessGame.session) (user_id other : Z)
          (guess_value : float) (rnd : Z),
      other <> user_id ->
      store (GuessGame.guess sessions user_id guess_value rnd) !! other
      = sessions !! other)
  /\ (forall (api : upstream) (sessions : gmap Z GuessGame.session)
             (user_id other : Z) (difficulty : pystr) (limit : Z)
             (ranking_type : pystr) (rnd : Z),
         other <> user_id ->
         store (GuessGame.guessgame api sessions user_id difficulty limit
                  ranking_type rnd) !! other
         = sessions !! other)
  /\ (forall (api : upstream) (sessions : gmap Z HigherLower.session)
             (user_id other : Z) (limit : option Z) (ranking_type : pystr)
             (rnd1 rnd2 : Z),
         other <> user_id ->
         store (HigherLower.higherlower api sessions user_id limit ranking_type
                  rnd1 rnd2) !! other
         = sessions !! other)
  /\ (forall (sessions : gmap Z HigherLower.session) (view_user who other : Z)
             (rnd : Z),
         (other <> who ->
          store (HigherLower.higher_button view_user who sessions rnd) !! other
          = sessions !! other
          /\ store (HigherLower.lower_button view_user who sessions rnd) !! other
             = sessions !! other)
         /\ (who <> view_user ->
             HigherLower.higher_button view_user who sessions rnd
             = {| store := sessions; sent := []; requests := []; raised := None |}
             /\ HigherLower.lower_button view_user who sessions rnd
                = {| store := sessions; sent := []; requests := [];
                     raised := None |})).
Proof.
  assert (Hturn : forall (sessions : gmap Z HigherLower.session) (user_id other : Z)
                         (guess : pystr) (rnd : Z),
             other <> user_id ->
             store (HigherLower._process_higher_lower_guess guess sessions user_id rnd)
               !! other = sessions !! other).
  { intros sessions user_id other guess rnd Hne.
    destruct (sessions !! user_id) as [s |] eqn:Hactive.
    - destruct (turn_step sessions user_id s guess rnd Hactive)
        as [-> | (k & drawn & _ & ->)].
      + apply lookup_delete_ne. congruence.
      + apply lookup_insert_ne. congruence.
    - rewrite (turn_without_session _ _ _ _ Hactive). reflexivity. }
  split; [| split; [| split]].
  - intros sessions user_id other guess_value rnd Hne.
    destruct (sessions !! user_id) as [s |] eqn:Hactive.
    + destruct (guess_step sessions user_id s guess_value rnd Hactive)
        as [-> | [-> | (k & drawn & _ & ->)]].
      * reflexivity.
      * apply lookup_delete_ne. congruence.
      * apply lookup_insert_ne. congruence.
    + rewrite (guess_without_session _ _ _ _ Hactive). reflexivity.
  - intros api sessions user_id other difficulty limit ranking_type rnd Hne.
    destruct (guessgame_outcome api sessions user_id difficulty limit ranking_type rnd)
      as [(_ & -> & _) | [(_ & _ & _ & _ & -> & _)
                         | (_ & _ & _ & k & drawn & _ & ->)]];
      [reflexivity | reflexivity |].
    apply lookup_insert_ne. congruence.
  - intros api sessions user_id other limit ranking_type rnd1 rnd2 Hne.
    destruct (higherlower_outcome api sessions user_id limit ranking_type rnd1 rnd2)
      as [(_ & -> & _) | [(_ & _ & _ & -> & _)
                         | (_ & _ & k1 & first & k2 & second & _ & _ & ->)]];
      [reflexivity | reflexivity |].
    apply lookup_insert_ne. congruence.
  - intros sessions view_user who other rnd. split.
    + intros Hne. unfold HigherLower.higher_button, HigherLower.lower_button.
      destruct (negb (who =? view_user)); cbn [store];
        split; try reflexivity; apply Hturn; exact Hne.
    + intros Hne. apply Z.eqb_neq in Hne.
      unfold HigherLower.higher_button, HigherLower.lower_button.
      rewrite Hne. split; reflexivity.
Qed.

Lemma other_sessions_untouched_witness :
  store (GuessGame.guess (<[8 := medium_last_session]> medium_round) 7 7.24%float 0)
    !! 8 = Some medium_last_session
  /\ store (HigherLower.higher_button 7 8 tie_round 0) = tie_round.
Proof.
  destruct other_sessions_untouched as (Hguess & _ & _ & Hbutton).
  split.
  - rewrite (Hguess (<[8 := medium_last_session]> medium_round) 7 8 7.24%float 0);
      [reflexivity | discriminate].
  - destruct (Hbutton tie_round 7 8 8 0) as [_ Hstranger].
    destruct Hstranger as [-> _]; [discriminate | reflexivity].
Defined.

(** ** No command raises *)

(** X8: the margin is always bound and every draw is in range.  Two
    exceptions lie in the games' own bookkeeping, and [raised] records
    them: the [UnboundLocalError] of [/guess] when the difficulty of the
    session is none of the three, and the [IndexError] of a draw outside
    the pool.  Neither occurs on the stores the commands build: the empty
    store holds only sessions of the three difficulties, [/guessgame] and
    [/guess] keep it so, and on such a store [/guess] finds its margin
    bound; the index of every draw, in [/guessgame], [/guess],
    [/higherlower] and the turns of Higher/Lower, is within the pool.
    What the HTTP layer raises, and records outside upstream's schema, are
    outside the model. *)
Theorem margin_is_bound_and_draws_in_range :
  valid_store ∅
  /\ (forall (api : upstream) (sessions : gmap Z GuessGame.session) (user_id : Z)
             (difficulty : pystr) (limit : Z) (ranking_type : pystr) (rnd : Z),
         let o := GuessGame.guessgame api sessions user_id difficulty limit
                    ranking_type rnd in
         raised o = None /\ (valid_store sessions -> valid_store (store o)))
  /\ (forall (sessions : gmap Z GuessGame.session) (user_id : Z)
             (guess_value : float) (rnd : Z),
         valid_store sessions ->
         let o := GuessGame.guess sessions user_id guess_value rnd in
         raised o = None /\ valid_store (store o))
  /\ (forall (api : upstream) (sessions : gmap Z HigherLower.session) (user_id : Z)
             (limit : option Z) (ranking_type : pystr) (rnd1 rnd2 : Z),
         raised (HigherLower.higherlower api sessions user_id limit ranking_type
                   rnd1 rnd2) = None)
  /\ (forall (sessions : gmap Z HigherLower.session) (user_id : Z)
             (guess : pystr) (rnd : Z),
         raised (HigherLower._process_higher_lower_guess guess sessions user_id rnd)
         = None).
Proof.
  split; [| split; [| split; [| split]]].
  - intros user_id s Hs. rewrite lookup_empty in Hs. discriminate.
  - intros api sessions user_id difficulty limit ranking_type rnd o.
    destruct (guessgame_outcome api sessions user_id difficulty limit ranking_type rnd)
      as [(_ & Hst & Hr & _) | [(_ & _ & _ & _ & Hst & Hr)
                               | (_ & Hdiff & Hr & k & drawn & _ & Hst)]];
      fold o in Hst, Hr; (split; [exact Hr |]); intros Hvalid; rewrite Hst;
      try exact Hvalid.
    intros u s Hs. destruct (decide (u = user_id)) as [-> | Hne].
    + rewrite lookup_insert_eq in Hs. injection Hs as <-. exact Hdiff.
    + rewrite lookup_insert_ne in Hs by congruence. exact (Hvalid u s Hs).
  - intros sessions user_id guess_value rnd Hvalid o.
    destruct (sessions !! user_id) as [s |] eqn:Hactive.
    + destruct (guess_cases sessions user_id s guess_value rnd Hactive
                  (Hvalid _ _ Hactive))
        as (Hr & [(_ & Hst & _) | [(_ & Hst & _) | [(_ & _ & Hst & _)
                                  | (_ & _ & k & drawn & _ & Hst)]]]);
        fold o in Hr, Hst; (split; [exact Hr |]); rewrite Hst;
        try exact Hvalid.
      * intros u s' Hs'. apply lookup_delete_Some in Hs'. destruct Hs' as [_ Hs'].
        exact (Hvalid u s' Hs').
      * intros u s' Hs'. apply lookup_delete_Some in Hs'. destruct Hs' as [_ Hs'].
        exact (Hvalid u s' Hs').
      * intros u s' Hs'. destruct (decide (u = user_id)) as [-> | Hne].
        -- rewrite lookup_insert_eq in Hs'. injection Hs' as <-.
           exact (Hvalid _ _ Hactive).
        -- rewrite lookup_insert_ne in Hs' by congruence. exact (Hvalid u s' Hs').
    + unfold o. rewrite (guess_without_session _ _ _ _ Hactive).
      split; [reflexivity | exact Hvalid].
  - intros api sessions user_id limit ranking_type rnd1 rnd2.
    destruct (higherlower_outcome api sessions user_id limit ranking_type rnd1 rnd2)
      as [(_ & _ & Hr & _) | [(_ & _ & _ & _ & Hr) | (_ & Hr & _)]]; exact Hr.
  - intros sessions user_id guess rnd.
    destruct (sessions !! user_id) as [s |] eqn:Hactive.
    + apply (turn_cases sessions user_id s guess rnd Hactive).
    + rewrite (turn_without_session _ _ _ _ Hactive). reflexivity.
Qed.

Lemma medium_round_valid : valid_store medium_round.
Proof.
  intros u s Hs. unfold medium_round in Hs.
  apply lookup_singleton_Some in Hs. destruct Hs as [_ <-].
  apply (bool_decide_unpack _). vm_compute. exact I.
Defined.

Lemma margin_is_bound_and_draws_in_range_witness :
  raised (GuessGame.guess medium_round 7 7.25%float 1) = None
  /\ valid_store (store (GuessGame.guess medium_round 7 7.25%float 1)).
Proof.
  destruct margin_is_bound_and_draws_in_range as (_ & _ & Hguess & _).
  exact (Hguess medium_round 7 7.25%float 1 medium_round_valid).
Defined.

(** ** Score and pool over a round *)

Lemma guess_round_accounts (user_id : Z) (turns : list (float * Z)) :
  forall (sessions : gmap Z GuessGame.session) (st : option GuessGame.session)
         (total : Z),
  sessions !! user_id = st ->
  (forall s, st = Some s ->
     GuessGame.difficulty s ∈ GuessGame.difficulties
     /\ GuessGame.score s + len (GuessGame.anime_pool s) = total) ->
  Forall (fun st' => forall s', st' = Some s' ->
            GuessGame.score s' + len (GuessGame.anime_pool s') = total)
    (guess_states user_id turns sessions)
  /\ Forall (fun o => judged_correct o = true ->
               forall v, reported (lit "Final Score") o = Some v ->
                         v = VInt (total + 1))
       (guess_outcomes user_id turns sessions).
Proof.
  induction turns as [| [g rnd] rest IH]; intros sessions st total Hst Hinv.
  - split; constructor.
  - cbn [guess_states guess_outcomes].
    set (o := GuessGame.guess sessions user_id g rnd).
    assert (Hnow :
      (forall s', store o !! user_id = Some s' ->
         GuessGame.difficulty s' ∈ GuessGame.difficulties
         /\ GuessGame.score s' + len (GuessGame.anime_pool s') = total)
      /\ (judged_correct o = true ->
          forall v, reported (lit "Final Score") o = Some v -> v = VInt (total + 1))).
    { destruct st as [s |].
      - destruct (Hinv s eq_refl) as [Hdiff Hsum].
        destruct (guess_cases sessions user_id s g rnd Hst Hdiff)
          as (_ & [(_ & Hstore & Hj) | [(_ & Hstore & Hj)
                  | [(_ & Hpool & Hstore & _ & Hrep)
                    | (_ & Hrep & k & drawn & Hk & Hstore)]]]);
          fold o in Hstore; try fold o in Hj; try fold o in Hrep.
        + split; [| congruence].
          intros s' Hs'. rewrite Hstore, Hst in Hs'. injection Hs' as <-. auto.
        + split; [| congruence].
          intros s' Hs'. rewrite Hstore, lookup_delete_eq in Hs'. discriminate.
        + split.
          * intros s' Hs'. rewrite Hstore, lookup_delete_eq in Hs'. discriminate.
          * intros _ v Hv. rewrite Hrep in Hv. injection Hv as <-.
            rewrite Hpool in Hsum. unfold len in Hsum. cbn [length] in Hsum.
            f_equal. lia.
        + split; [| intros _ v Hv; congruence].
          intros s' Hs'. rewrite Hstore, lookup_insert_eq in Hs'. injection Hs' as <-.
          cbn. split; [exact Hdiff |].
          pose proof (length_delete_lookup _ _ _ Hk). unfold len in *. lia.
      - unfold o. rewrite (guess_without_session _ _ _ _ Hst).
        split; [| intros Hj; vm_compute in Hj; discriminate].
        intros s' Hs'. cbn [GuessGame.keep store] in Hs'. congruence. }
    destruct Hnow as [Hnext Hfinal].
    destruct (IH (store o) (store o !! user_id) total eq_refl Hnext) as [Hs Ho].
    split; constructor; try assumption.
    intros s' Hs'. apply (Hnext s' Hs').
Qed.

Lemma turn_round_accounts (user_id : Z) (turns : list (pystr * Z)) :
  forall (sessions : gmap Z HigherLower.session) (st : option HigherLower.session)
         (total : Z),
  sessions !! user_id = st ->
  (forall s, st = Some s ->
     HigherLower.score s + len (HigherLower.anime_pool s) = total) ->
  Forall (fun st' => forall s', st' = Some s' ->
            HigherLower.score s' + len (HigherLower.anime_pool s') = total)
    (turn_states user_id turns sessions)
  /\ Forall (fun o => judged_correct o = true ->
               forall v, reported (lit "Final Streak") o = Some v ->
                         v = VInt (total + 1))
       (turn_outcomes user_id turns sessions).
Proof.
  induction turns as [| [g rnd] rest IH]; intros sessions st total Hst Hinv.
  - split; constructor.
  - cbn [turn_states turn_outcomes].
    set (o := HigherLower._process_higher_lower_guess g sessions user_id rnd).
    assert (Hnow :
      (forall s', store o !! user_id = Some s' ->
         HigherLower.score s' + len (HigherLower.anime_pool s') = total)
      /\ (judged_correct o = true ->
          forall v, reported (lit "Final Streak") o = Some v -> v = VInt (total + 1))).
    { destruct st as [s |].
      - pose proof (Hinv s eq_refl) as Hsum.
        destruct (turn_cases sessions user_id s g rnd Hst)
          as (_ & [(Hstore & Hj) | [(Hpool & Hstore & _ & Hrep)
                                   | (Hrep & k & drawn & Hk & Hstore)]]);
          fold o in Hstore; try fold o in Hj; try fold o in Hrep.
        + split; [| congruence].
          intros s' Hs'. rewrite Hstore, lookup_delete_eq in Hs'. discriminate.
        + split.
          * intros s' Hs'. rewrite Hstore, lookup_delete_eq in Hs'. discriminate.
          * intros _ v Hv. rewrite Hrep in Hv. injection Hv as <-.
            rewrite Hpool in Hsum. unfold len in Hsum. cbn [length] in Hsum.
            f_equal. lia.
        + split; [| intros _ v Hv; congruence].
          intros s' Hs'. rewrite Hstore, lookup_insert_eq in Hs'. injection Hs' as <-.
          cbn. pose proof (length_delete_lookup _ _ _ Hk). unfold len in *. lia.
      - unfold o. rewrite (turn_without_session _ _ _ _ Hst).
        split; [| intros Hj; vm_compute in Hj; discriminate].
        intros s' Hs'. cbn [HigherLower.keep store] in Hs'. congruence. }
    destruct Hnow as [Hnext Hfinal].
    destruct (IH (store o) (store o !! user_id) total eq_refl Hnext) as [Hs Ho].
    split; constructor; assumption.
Qed.

(** X9: over a whole round the score and the pool add up.  In a
    Guess-The-Rating game started from [n] received records, after every
    turn the score plus the size of the pool is [n - 1] while the session
    lives, and a round won by exhausting the pool reports the final score
    [n]; in Higher/Lower the streak plus the pool is [n - 2] and the final
    streak of a won round is [n - 1]. *)
Theorem score_and_pool_add_up :
  (forall (api : upstream) (sessions : gmap Z GuessGame.session) (user_id : Z)
          (difficulty : pystr) (limit : Z) (ranking_type : pystr) (rnd : Z)
          (turns : list (float * Z)),
      let o := GuessGame.guessgame api sessions user_id difficulty limit
                 ranking_type rnd in
      let n := len (received api (requests o)) in
      received api (requests o) <> [] ->
      Forall (fun st => forall s, st = Some s ->
                GuessGame.score s + len (GuessGame.anime_pool s) = n - 1)
        (store o !! user_id :: guess_states user_id turns (store o))
      /\ Forall (fun o' => judged_correct o' = true ->
                   forall v, reported (lit "Final Score") o' = Some v -> v = VInt n)
           (guess_outcomes user_id turns (store o)))
  /\ (forall (api : upstream) (sessions : gmap Z HigherLower.session) (user_id : Z)
             (limit : option Z) (ranking_type : pystr) (rnd1 rnd2 : Z)
             (turns : list (pystr * Z)),
         let o := HigherLower.higherlower api sessions user_id limit ranking_type
                    rnd1 rnd2 in
         let n := len (received api (requests o)) in
         2 <= n ->
         Forall (fun st => forall s, st = Some s ->
                   HigherLower.score s + len (HigherLower.anime_pool s) = n - 2)
           (store o !! user_id :: turn_states user_id turns (store o))
         /\ Forall (fun o' => judged_correct o' = true ->
                      forall v, reported (lit "Final Streak") o' = Some v ->
                                v = VInt (n - 1))
              (turn_outcomes user_id turns (store o))).
Proof.
  split.
  - intros api sessions user_id difficulty limit ranking_type rnd turns o n Hsome.
    destruct (guessgame_outcome api sessions user_id difficulty limit ranking_type rnd)
      as [(Hrq & _) | [(_ & _ & Hnone & _) | (_ & Hdiff & _ & k & drawn & Hk & Hst)]];
      fold o in Hsome.
    + unfold o in Hsome. rewrite Hrq in Hsome. contradiction.
    + unfold o in Hsome. contradiction.
    + fold o in Hk, Hst.
      assert (Hstart : forall s, store o !! user_id = Some s ->
                GuessGame.difficulty s ∈ GuessGame.difficulties
                /\ GuessGame.score s + len (GuessGame.anime_pool s) = n - 1).
      { intros s Hs. rewrite Hst, lookup_insert_eq in Hs. injection Hs as <-.
        cbn. split; [exact Hdiff |].
        pose proof (length_delete_lookup _ _ _ Hk). unfold n, len in *. lia. }
      destruct (guess_round_accounts user_id turns (store o) (store o !! user_id)
                  (n - 1) eq_refl Hstart) as [Hs Ho].
      split.
      * constructor; [| exact Hs]. intros s Hs'. apply (Hstart s Hs').
      * eapply Forall_impl; [exact Ho |].
        intros o' Hfin Hj v Hv. rewrite (Hfin Hj v Hv). f_equal. lia.
  - intros api sessions user_id limit ranking_type rnd1 rnd2 turns o n Hmany.
    destruct (higherlower_outcome api sessions user_id limit ranking_type rnd1 rnd2)
      as [(Hrq & _) | [(_ & Hfew & _)
                      | (_ & _ & k1 & first & k2 & second & Hk1 & Hk2 & Hst)]];
      fold o in Hmany.
    + unfold n, o in Hmany. rewrite Hrq in Hmany.
      change (received api []) with (@nil item) in Hmany.
      unfold len in Hmany. cbn [length] in Hmany. lia.
    + unfold n, o in Hmany. lia.
    + fold o in Hk1, Hk2, Hst.
      assert (Hstart : forall s, store o !! user_id = Some s ->
                HigherLower.score s + len (HigherLower.anime_pool s) = n - 2).
      { intros s Hs. rewrite Hst, lookup_insert_eq in Hs. injection Hs as <-.
        cbn. pose proof (length_delete_lookup _ _ _ Hk1).
        pose proof (length_delete_lookup _ _ _ Hk2). unfold n, len in *. lia. }
      destruct (turn_round_accounts user_id turns (store o) (store o !! user_id)
                  (n - 2) eq_refl Hstart) as [Hs Ho].
      split.
      * constructor; [exact Hstart | exact Hs].
      * eapply Forall_impl; [exact Ho |].
        intros o' Hfin Hj v Hv. rewrite (Hfin Hj v Hv). f_equal. lia.
Qed.

Lemma score_and_pool_add_up_witness :
  Forall (fun o' => judged_correct o' = true ->
            forall v, reported (lit "Final Score") o' = Some v -> v = VInt 3)
    (guess_outcomes 7 [(8.25%float, 0); (7.5%float, 0); (6.9%float, 0)]
       (store (GuessGame.guessgame (serves three_entries) ∅ 7 (lit "medium") 3
                 (lit "bypopularity") 1))).
Proof.
  destruct score_and_pool_add_up as [Hguess _].
  destruct (Hguess (serves three_entries) ∅ 7 (lit "medium") 3 (lit "bypopularity") 1
              [(8.25%float, 0); (7.5%float, 0); (6.9%float, 0)])
    as [_ Hfinal].
  - vm_compute. discriminate.
  - exact Hfinal.
Defined.

(** ** Arguments in any case, and the alias of the ranking type *)

Lemma to_lower_again (c : N) : to_lower (to_lower c) = to_lower c.
Proof.
  unfold to_lower. destruct (is_upper c) eqn:Hu; [| rewrite Hu; reflexivity].
  unfold is_upper in *. apply andb_true_iff in Hu. destruct Hu as [Hlo Hhi].
  apply N.leb_le in Hlo. apply N.leb_le in Hhi.
  replace (65 <=? c + 32)%N with true by (symmetry; apply N.leb_le; lia).
  replace (c + 32 <=? 90)%N with false by (symmetry; apply N.leb_gt; lia).
  reflexivity.
Qed.

Lemma lower_again (s : pystr) : lower (lower s) = lower s.
Proof.
  unfold lower. rewrite map_map. apply map_ext. intros c. apply to_lower_again.
Qed.

(** X10: the game commands read their words in any case, and take
    "popularity" for "bypopularity": [/guessgame] and [/higherlower] answer
    a difficulty and a ranking type exactly as they answer their lower-case
    forms, and a ranking type that lower-cases to "popularity" exactly as
    "bypopularity". *)
Theorem commands_ignore_case :
  (forall (api : upstream) (sessions : gmap Z GuessGame.session) (user_id : Z)
          (difficulty : pystr) (limit : Z) (ranking_type : pystr) (rnd : Z),
      GuessGame.guessgame api sessions user_id difficulty limit ranking_type rnd
      = GuessGame.guessgame api sessions user_id (lower difficulty) limit
          (lower ranking_type) rnd
      /\ (lower ranking_type = lit "popularity" ->
          GuessGame.guessgame api sessions user_id difficulty limit ranking_type rnd
          = GuessGame.guessgame api sessions user_id difficulty limit
              (lit "bypopularity") rnd))
  /\ (forall (api : upstream) (sessions : gmap Z HigherLower.session) (user_id : Z)
             (limit : option Z) (ranking_type : pystr) (rnd1 rnd2 : Z),
         HigherLower.higherlower api sessions user_id limit ranking_type rnd1 rnd2
         = HigherLower.higherlower api sessions user_id limit (lower ranking_type)
             rnd1 rnd2
         /\ (lower ranking_type = lit "popularity" ->
             HigherLower.higherlower api sessions user_id limit ranking_type
               rnd1 rnd2
             = HigherLower.higherlower api sessions user_id limit
                 (lit "bypopularity") rnd1 rnd2)).
Proof.
  assert (E1 : (if bool_decide (lit "popularity" = lit "popularity")
                then lit "bypopularity" else lit "popularity")
               = lit "bypopularity") by reflexivity.
  assert (E2 : (if bool_decide (lower (lit "bypopularity") = lit "popularity")
                then lit "bypopularity" else lower (lit "bypopularity"))
               = lit "bypopularity") by reflexivity.
  split.
  - intros api sessions user_id difficulty limit ranking_type rnd. split.
    + unfold GuessGame.guessgame. rewrite !lower_again. reflexivity.
    + intros Halias. unfold GuessGame.guessgame. cbv zeta.
      rewrite Halias, E1, E2. reflexivity.
  - intros api sessions user_id limit ranking_type rnd1 rnd2. split.
    + unfold HigherLower.higherlower. rewrite !lower_again. reflexivity.
    + intros Halias. unfold HigherLower.higherlower. cbv zeta.
      rewrite Halias, E1, E2. reflexivity.
Qed.

Lemma commands_ignore_case_witness :
  GuessGame.guessgame (serves three_entries) ∅ 7 (lit "Hard") 3 (lit "Popularity") 1
  = GuessGame.guessgame (serves three_entries) ∅ 7 (lit "Hard") 3
      (lit "bypopularity") 1.
Proof.
  destruct commands_ignore_case as [Hguess _].
  apply (Hguess (serves three_entries) ∅ 7 (lit "Hard") 3 (lit "Popularity") 1).
  reflexivity.
Defined.

(** ** A guess and the store *)

(** X11: in an active round of a valid store, [/guess] leaves the store as
    it was exactly when the value is outside 0..10: a guess in range always
    moves the round on, to the next anime or to its end. *)
Theorem guess_changes_store_iff_in_range
    (sessions : gmap Z GuessGame.session) (user_id : Z) (s : GuessGame.session)
    (guess_value : float) (rnd : Z) :
  valid_store sessions ->
  sessions !! user_id = Some s ->
  store (GuessGame.guess sessions user_id guess_value rnd) = sessions
  <-> out_of_range guess_value = true.
Proof.
  intros Hvalid Hactive.
  destruct (guess_cases sessions user_id s guess_value rnd Hactive
              (Hvalid _ _ Hactive))
    as (_ & [(Hr & Hst & _) | [(Hr & Hst & _) | [(Hr & _ & Hst & _)
                              | (Hr & _ & k & drawn & _ & Hst)]]]);
    rewrite Hst, Hr; split; try congruence; intros Heq; exfalso.
  - assert (H : delete user_id sessions !! user_id = Some s) by (rewrite Heq; exact Hactive).
    rewrite lookup_delete_eq in H. discriminate.
  - assert (H : delete user_id sessions !! user_id = Some s) by (rewrite Heq; exact Hactive).
    rewrite lookup_delete_eq in H. discriminate.
  - match type of Heq with
    | <[_ := ?s']> _ = _ =>
        assert (H : Some s' = Some s)
          by (rewrite <- Hactive, <- Heq at 1; symmetry; apply lookup_insert_eq)
    end.
    injection H as H. apply (f_equal GuessGame.score) in H. cbn in H. lia.
Qed.

Lemma guess_changes_store_iff_in_range_witness :
  store (GuessGame.guess medium_round 7 10.5%float 0) = medium_round.
Proof.
  apply (guess_changes_store_iff_in_range medium_round 7 medium_session 10.5%float 0
           medium_round_valid eq_refl).
  reflexivity.
Defined.

(** ** A new game over an old one *)

(** X12: starting a game replaces the user's session and takes nothing from
    it.  [/guessgame] and [/higherlower] send the same messages and the same
    requests whether or not the user had a session, and once the game
    starts the store is the same as if the old session had not been there:
    the new entry has the new pool and the score 0. *)
Theorem new_game_replaces_old :
  (forall (api : upstream) (sessions : gmap Z GuessGame.session) (user_id : Z)
          (old : GuessGame.session) (difficulty : pystr) (limit : Z)
          (ranking_type : pystr) (rnd : Z),
      let o := GuessGame.guessgame api sessions user_id difficulty limit
                 ranking_type rnd in
      let o' := GuessGame.guessgame api (<[user_id := old]> sessions) user_id
                  difficulty limit ranking_type rnd in
      sent o' = sent o /\ requests o' = requests o
      /\ (received api (requests o) <> [] ->
          store o' = store o
          /\ GuessGame.score <$> store o' !! user_id = Some 0))
  /\ (forall (api : upstream) (sessions : gmap Z HigherLower.session) (user_id : Z)
             (old : HigherLower.session) (limit : option Z)
             (ranking_type : pystr) (rnd1 rnd2 : Z),
         let o := HigherLower.higherlower api sessions user_id limit ranking_type
                    rnd1 rnd2 in
         let o' := HigherLower.higherlower api (<[user_id := old]> sessions) user_id
                     limit ranking_type rnd1 rnd2 in
         sent o' = sent o /\ requests o' = requests o
         /\ (2 <= len (received api (requests o)) ->
             store o' = store o
             /\ HigherLower.score <$> store o' !! user_id = Some 0)).
Proof.
  split.
  - intros api sessions user_id old difficulty limit ranking_type rnd. cbv zeta.
    unfold GuessGame.guessgame.
    destruct (negb (bool_decide (lower difficulty ∈ GuessGame.difficulties))).
    { cbn. repeat split; congruence. }
    destruct ((limit <? 1) || (2500 <? limit)).
    { cbn. repeat split; congruence. }
    set (rt := if bool_decide (lower ranking_type = lit "popularity")
               then lit "bypopularity" else lower ranking_type).
    destruct (negb (bool_decide (rt ∈ valid_types))).
    { cbn. repeat split; congruence. }
    pose proof (fetch_all_received api rt limit) as Hrecv.
    destruct (fetch_all api rt limit) as [all_anime log]. cbn [fst snd] in Hrecv.
    destruct all_anime as [| it rest] eqn:Hall.
    { cbn [sent requests store]. rewrite <- Hrecv. repeat split; congruence. }
    rewrite <- Hall.
    assert (Hne : all_anime <> []) by (rewrite Hall; discriminate).
    destruct (pop_randint all_anime rnd Hne) as (k & drawn & _ & Hpop).
    rewrite Hpop. cbn [sent requests store].
    split; [reflexivity | split; [reflexivity |]].
    intros _. rewrite insert_insert_eq, lookup_insert_eq. split; reflexivity.
  - intros api sessions user_id old limit ranking_type rnd1 rnd2. cbv zeta.
    unfold HigherLower.higherlower.
    set (rt := if bool_decide (lower ranking_type = lit "popularity")
               then lit "bypopularity" else lower ranking_type).
    set (limit_value := if HigherLower.not_limit limit then 500 else default 0 limit).
    destruct (negb (bool_decide (rt ∈ valid_types))).
    { cbn [sent requests store HigherLower.keep].
      change (received api []) with (@nil item). unfold len. cbn [length].
      repeat split; lia. }
    destruct ((limit_value <? 2) || (2500 <? limit_value)).
    { cbn [sent requests store HigherLower.keep].
      change (received api []) with (@nil item). unfold len. cbn [length].
      repeat split; lia. }
    pose proof (fetch_all_received api rt limit_value) as Hrecv.
    destruct (fetch_all api rt limit_value) as [all_anime log].
    cbn [fst snd] in Hrecv.
    destruct (bool_decide (all_anime = []) || (len all_anime <? 2)) eqn:Hfew.
    { cbn [sent requests store]. rewrite <- Hrecv.
      split; [reflexivity | split; [reflexivity |]]. intros Hmany. exfalso.
      apply orb_true_iff in Hfew. destruct Hfew as [Hnil | Hlt].
      - apply bool_decide_eq_true in Hnil. rewrite Hnil in Hmany.
        unfold len in Hmany. cbn [length] in Hmany. lia.
      - apply Z.ltb_lt in Hlt. lia. }
    apply orb_false_iff in Hfew. destruct Hfew as [Hnil Hge].
    apply bool_decide_eq_false in Hnil. apply Z.ltb_ge in Hge.
    destruct (pop_randint all_anime rnd1 Hnil) as (k1 & first & Hk1 & Hpop1).
    rewrite Hpop1.
    assert (Hrest : delete k1 all_anime <> []).
    { pose proof (length_delete_lookup all_anime k1 first Hk1) as Hlen.
      unfold len in Hge.
      destruct (delete k1 all_anime); [cbn in Hlen; lia | discriminate]. }
    destruct (pop_randint (delete k1 all_anime) rnd2 Hrest)
      as (k2 & second & _ & Hpop2).
    rewrite Hpop2. cbn [sent requests store].
    split; [reflexivity | split; [reflexivity |]].
    intros _. rewrite insert_insert_eq, lookup_insert_eq. split; reflexivity.
Qed.

Lemma new_game_replaces_old_witness :
  store (GuessGame.guessgame (serves three_entries) medium_round 7 (lit "easy") 3
           (lit "airing") 0)
  = store (GuessGame.guessgame (serves three_entries) ∅ 7 (lit "easy") 3
             (lit "airing") 0).
Proof.
  destruct new_game_replaces_old as [Hguess _].
  destruct (Hguess (serves three_entries) ∅ 7 medium_session (lit "easy") 3
              (lit "airing") 0) as (_ & _ & Hstore).
  destruct Hstore as [Hstore _]; [vm_compute; discriminate |].
  exact Hstore.
Defined.

(** ** What the game commands ask upstream *)

(** The requests of the loop, one by one: the ranking type given, offsets
    500 apart, and as limit what is still wanted, 500 at most. *)
Lemma fetch_loop_requests (api : upstream) (ranking_type : pystr) (fuel : nat) :
  forall (all_anime : list item) (offset remaining : Z) (log : list request),
  exists new,
    snd (fetch_loop fuel api ranking_type all_anime offset remaining log) = log ++ new
    /\ forall (i : nat) (rq : request),
         new !! i = Some rq ->
         rq_ranking_type rq = ranking_type
         /\ rq_offset rq = offset + 500 * Z.of_nat i
         /\ rq_limit rq = Z.min (remaining - 500 * Z.of_nat i) 500
         /\ 0 < remaining - 500 * Z.of_nat i.
Proof.
  induction fuel as [| fuel IH]; intros all_anime offset remaining log.
  - exists []. cbn. rewrite app_nil_r. split; [reflexivity |].
    intros i rq Hi. rewrite lookup_nil in Hi. discriminate.
  - cbn [fetch_loop]. destruct (0 <? remaining) eqn:Hpos.
    + apply Z.ltb_lt in Hpos. unfold get_top_anime_by_rank.
      set (rq0 := {| rq_ranking_type := ranking_type;
                     rq_limit := Z.min (Z.min remaining 500) 500;
                     rq_offset := offset |}).
      assert (Hfirst : forall (i : nat) (rq : request),
                 [rq0] !! i = Some rq ->
                 rq_ranking_type rq = ranking_type
                 /\ rq_offset rq = offset + 500 * Z.of_nat i
                 /\ rq_limit rq = Z.min (remaining - 500 * Z.of_nat i) 500
                 /\ 0 < remaining - 500 * Z.of_nat i).
      { intros i rq Hi. destruct i as [| i]; [| destruct i; discriminate].
        injection Hi as <-. cbn. repeat split; lia. }
      destruct (api rq0) as [data |].
      * destruct (len data <? Z.min remaining 500).
        -- exists [rq0]. split; [reflexivity | exact Hfirst].
        -- destruct (IH (all_anime ++ data) (offset + Z.min remaining 500)
                       (remaining - Z.min remaining 500) (log ++ [rq0]))
             as (new & Hlog & Hnew).
           exists (rq0 :: new). split; [rewrite Hlog, <- app_assoc; reflexivity |].
           intros i rq Hi. destruct i as [| i]; [apply (Hfirst 0%nat rq Hi) |].
           cbn in Hi. destruct (Hnew i rq Hi) as (Hrt & Hoff & Hlim & Hleft).
           repeat split; [exact Hrt | lia | lia | lia].
      * exists [rq0]. split; [reflexivity | exact Hfirst].
    + exists []. cbn. rewrite app_nil_r. split; [reflexivity |].
      intros i rq Hi. rewrite lookup_nil in Hi. discriminate.
Qed.

(** An upstream that never sends more than it is asked for fills the loop
    with at most what was wanted. *)
Lemma fetch_loop_bound (api : upstream) (ranking_type : pystr) (fuel : nat) :
  (forall rq data, 1 <= rq_limit rq -> api rq = Some data ->
                   len data <= rq_limit rq) ->
  forall (all_anime : list item) (offset remaining : Z) (log : list request),
  len (fst (fetch_loop fuel api ranking_type all_anime offset remaining log))
  <= len all_anime + Z.max 0 remaining.
Proof.
  intros Hhonest.
  induction fuel as [| fuel IH]; intros all_anime offset remaining log.
  - cbn. lia.
  - cbn [fetch_loop]. destruct (0 <? remaining) eqn:Hpos; [| cbn; lia].
    apply Z.ltb_lt in Hpos. unfold get_top_anime_by_rank.
    set (rq0 := {| rq_ranking_type := ranking_type;
                   rq_limit := Z.min (Z.min remaining 500) 500;
                   rq_offset := offset |}).
    destruct (api rq0) as [data |] eqn:Hdata; [| cbn; lia].
    pose proof (Hhonest rq0 data ltac:(cbn; lia) Hdata) as Hle. cbn in Hle.
    destruct (len data <? Z.min remaining 500).
    + cbn [fst]. rewrite len_app. lia.
    + specialize (IH (all_anime ++ data) (offset + Z.min remaining 500)
                    (remaining - Z.min remaining 500) (log ++ [rq0])).
      rewrite len_app in IH. lia.
Qed.

(** The requests of [/guessgame] are those of the loop for a valid ranking
    type and the pool size given. *)
Lemma guessgame_fetches (api : upstream) (sessions : gmap Z GuessGame.session)
    (user_id : Z) (difficulty : pystr) (limit : Z) (ranking_type : pystr) (rnd : Z) :
  let o := GuessGame.guessgame api sessions user_id difficulty limit ranking_type rnd in
  requests o = []
  \/ exists rt, rt ∈ valid_types /\ 1 <= limit <= 2500
                /\ requests o = snd (fetch_all api rt limit).
Proof.
  cbv zeta. unfold GuessGame.guessgame.
  destruct (negb (bool_decide (lower difficulty ∈ GuessGame.difficulties)));
    [left; reflexivity |].
  destruct ((limit <? 1) || (2500 <? limit)) eqn:Hlimit; [left; reflexivity |].
  apply orb_false_iff in Hlimit. destruct Hlimit as [Hlo Hhi].
  apply Z.ltb_ge in Hlo. apply Z.ltb_ge in Hhi.
  set (rt := if bool_decide (lower ranking_type = lit "popularity")
             then lit "bypopularity" else lower ranking_type).
  destruct (bool_decide (rt ∈ valid_types)) eqn:Hrt; cbn [negb]; [| left; reflexivity].
  apply bool_decide_eq_true in Hrt.
  right. exists rt. split; [exact Hrt | split; [lia |]].
  destruct (fetch_all api rt limit) as [all_anime log]. cbn [snd].
  destruct all_anime as [| it rest]; [reflexivity |].
  destruct (pop _ _) as [[drawn left_over] |]; reflexivity.
Qed.

(** The same for [/higherlower], whose pool size is 500 when none, or 0, is
    given. *)
Lemma higherlower_fetches (api : upstream) (sessions : gmap Z HigherLower.session)
    (user_id : Z) (limit : option Z) (ranking_type : pystr) (rnd1 rnd2 : Z) :
  let o := HigherLower.higherlower api sessions user_id limit ranking_type rnd1 rnd2 in
  let limit_value := if HigherLower.not_limit limit then 500 else default 0 limit in
  requests o = []
  \/ exists rt, rt ∈ valid_types /\ 2 <= limit_value <= 2500
                /\ requests o = snd (fetch_all api rt limit_value).
Proof.
  cbv zeta. unfold HigherLower.higherlower.
  set (rt := if bool_decide (lower ranking_type = lit "popularity")
             then lit "bypopularity" else lower ranking_type).
  set (limit_value := if HigherLower.not_limit limit then 500 else default 0 limit).
  destruct (bool_decide (rt ∈ valid_types)) eqn:Hrt; cbn [negb]; [| left; reflexivity].
  apply bool_decide_eq_true in Hrt.
  destruct ((limit_value <? 2) || (2500 <? limit_value)) eqn:Hlimit;
    [left; reflexivity |].
  apply orb_false_iff in Hlimit. destruct Hlimit as [Hlo Hhi].
  apply Z.ltb_ge in Hlo. apply Z.ltb_ge in Hhi.
  right. exists rt. split; [exact Hrt | split; [lia |]].
  destruct (fetch_all api rt limit_value) as [all_anime log]. cbn [snd].
  destruct (bool_decide (all_anime = []) || (len all_anime <? 2)); [reflexivity |].
  destruct (pop _ _) as [[first left_over] |]; [| reflexivity].
  destruct (pop _ _) as [[second left_over'] |]; reflexivity.
Qed.

Lemma fetch_all_requests (api : upstream) (rt : pystr) (limit : Z) :
  forall (i : nat) (rq : request),
  snd (fetch_all api rt limit) !! i = Some rq ->
  rq_ranking_type rq = rt
  /\ rq_offset rq = 500 * Z.of_nat i
  /\ rq_limit rq = Z.min (limit - 500 * Z.of_nat i) 500
  /\ 0 < limit - 500 * Z.of_nat i.
Proof.
  unfold fetch_all.
  destruct (fetch_loop_requests api rt (Z.to_nat limit) [] 0 limit [])
    as (new & Hlog & Hnew).
  rewrite Hlog. cbn [app]. intros i rq Hi.
  destruct (Hnew i rq Hi) as (? & ? & ? & ?). repeat split; try assumption; lia.
Qed.

Lemma at_most_five (log : list request) (limit : Z) :
  limit <= 2500 ->
  (forall (i : nat) (rq : request),
     log !! i = Some rq -> 0 < limit - 500 * Z.of_nat i) ->
  (length log <= 5)%nat.
Proof.
  intros Hlimit Hleft.
  destruct (le_lt_dec (length log) 5) as [Hle | Hgt]; [exact Hle |].
  destruct (lookup_lt_is_Some_2 log 5 Hgt) as [rq Hrq].
  specialize (Hleft 5%nat rq Hrq). lia.
Qed.

(** X13: what the game commands ask upstream is bounded and well-formed.
    Every request of [/guessgame] and [/higherlower] names one of the four
    ranking types, asks for between 1 and 500 records, and the i-th request
    starts at offset 500 i; a command sends at most five requests. *)
Theorem game_requests_are_disciplined :
  (forall (api : upstream) (sessions : gmap Z GuessGame.session) (user_id : Z)
          (difficulty : pystr) (limit : Z) (ranking_type : pystr) (rnd : Z),
      let o := GuessGame.guessgame api sessions user_id difficulty limit
                 ranking_type rnd in
      (length (requests o) <= 5)%nat
      /\ forall (i : nat) (rq : request),
           requests o !! i = Some rq ->
           rq_ranking_type rq ∈ valid_types
           /\ rq_offset rq = 500 * Z.of_nat i
           /\ 1 <= rq_limit rq <= 500)
  /\ (forall (api : upstream) (sessions : gmap Z HigherLower.session) (user_id : Z)
             (limit : option Z) (ranking_type : pystr) (rnd1 rnd2 : Z),
         let o := HigherLower.higherlower api sessions user_id limit ranking_type
                    rnd1 rnd2 in
         (length (requests o) <= 5)%nat
         /\ forall (i : nat) (rq : request),
              requests o !! i = Some rq ->
              rq_ranking_type rq ∈ valid_types
              /\ rq_offset rq = 500 * Z.of_nat i
              /\ 1 <= rq_limit rq <= 500).
Proof.
  split.
  - intros api sessions user_id difficulty limit ranking_type rnd o.
    destruct (guessgame_fetches api sessions user_id difficulty limit ranking_type rnd)
      as [Hnone | (rt & Hrt & Hlimit & Hlog)]; fold o in Hnone || fold o in Hlog.
    + rewrite Hnone. split; [cbn; lia |].
      intros i rq Hi. rewrite lookup_nil in Hi. discriminate.
    + rewrite Hlog. split.
      * apply (at_most_five _ limit); [lia |].
        intros i rq Hi. apply (fetch_all_requests api rt limit i rq Hi).
      * intros i rq Hi.
        destruct (fetch_all_requests api rt limit i rq Hi) as (-> & Hoff & Hlim & Hleft).
        repeat split; [exact Hrt | exact Hoff | lia | lia].
  - intros api sessions user_id limit ranking_type rnd1 rnd2 o.
    destruct (higherlower_fetches api sessions user_id limit ranking_type rnd1 rnd2)
      as [Hnone | (rt & Hrt & Hlimit & Hlog)]; fold o in Hnone || fold o in Hlog.
    + rewrite Hnone. split; [cbn; lia |].
      intros i rq Hi. rewrite lookup_nil in Hi. discriminate.
    + rewrite Hlog. split.
      * eapply at_most_five; [apply Hlimit |].
        intros i rq Hi. apply (fetch_all_requests api rt _ i rq Hi).
      * intros i rq Hi.
        destruct (fetch_all_requests api rt _ i rq Hi) as (-> & Hoff & Hlim & Hleft).
        repeat split; [exact Hrt | exact Hoff | lia | lia].
Qed.

Lemma game_requests_are_disciplined_witness :
  rq_offset {| rq_ranking_type := lit "bypopularity"; rq_limit := 3; rq_offset := 0 |}
  = 500 * Z.of_nat 0.
Proof.
  destruct game_requests_are_disciplined as [Hguess _].
  destruct (Hguess (serves three_entries) ∅ 7 (lit "medium") 3 (lit "bypopularity") 1)
    as [_ Hrq].
  apply (Hrq 0%nat). reflexivity.
Defined.

(** X14: an upstream that never sends more records than a request asks for
    cannot overfill a game: the records received by [/guessgame] are at most
    the pool size asked for, and those received by [/higherlower] at most
    2500. *)
Theorem honest_upstream_fills_at_most_limit (api : upstream) :
  (forall rq data, 1 <= rq_limit rq -> api rq = Some data ->
                   len data <= rq_limit rq) ->
  (forall (sessions : gmap Z GuessGame.session) (user_id : Z)
          (difficulty : pystr) (limit : Z) (ranking_type : pystr) (rnd : Z),
      received api (requests (GuessGame.guessgame api sessions user_id difficulty
                                limit ranking_type rnd)) <> [] ->
      len (received api (requests (GuessGame.guessgame api sessions user_id
                                     difficulty limit ranking_type rnd)))
      <= limit)
  /\ (forall (sessions : gmap Z HigherLower.session) (user_id : Z)
             (limit : option Z) (ranking_type : pystr) (rnd1 rnd2 : Z),
         len (received api (requests (HigherLower.higherlower api sessions user_id
                                        limit ranking_type rnd1 rnd2)))
         <= 2500).
Proof.
  intros Hhonest. split.
  - intros sessions user_id difficulty limit ranking_type rnd Hsome.
    destruct (guessgame_fetches api sessions user_id difficulty limit ranking_type rnd)
      as [Hnone | (rt & _ & Hlimit & Hlog)].
    + rewrite Hnone in Hsome. contradiction.
    + rewrite Hlog, <- fetch_all_received. unfold fetch_all.
      pose proof (fetch_loop_bound api rt (Z.to_nat limit) Hhonest [] 0 limit []) as Hb.
      change (len (@nil item)) with 0 in Hb. lia.
  - intros sessions user_id limit ranking_type rnd1 rnd2.
    destruct (higherlower_fetches api sessions user_id limit ranking_type rnd1 rnd2)
      as [Hnone | (rt & _ & Hlimit & Hlog)].
    + rewrite Hnone. change (received api []) with (@nil item).
      unfold len. cbn [length]. lia.
    + rewrite Hlog, <- fetch_all_received. unfold fetch_all.
      match goal with
      | |- len (fst (fetch_loop ?f api rt [] 0 ?lv [])) <= _ =>
          pose proof (fetch_loop_bound api rt f Hhonest [] 0 lv []) as Hb
      end.
      change (len (@nil item)) with 0 in Hb. lia.
Qed.

Lemma catalogue_honest (ranking : list item) :
  forall rq data, 1 <= rq_limit rq -> catalogue ranking rq = Some data ->
                  len data <= rq_limit rq.
Proof.
  intros rq data Hpos Hdata. injection Hdata as <-.
  unfold len. rewrite length_take. lia.
Defined.

Lemma honest_upstream_fills_at_most_limit_witness :
  len (received (catalogue three_entries)
         (requests (GuessGame.guessgame (catalogue three_entries) ∅ 7 (lit "medium") 2
                      (lit "airing") 0)))
  <= 2.
Proof.
  destruct (honest_upstream_fills_at_most_limit (catalogue three_entries)
              (catalogue_honest three_entries)) as [Hguess _].
  apply (Hguess ∅ 7 (lit "medium") 2 (lit "airing") 0).
  vm_compute. discriminate.
Defined.

(** The loop on a ranking served as asked: what is wanted of the ranking
    from the offset on. *)
Lemma fetch_loop_catalogue (ranking : list item) (ranking_type : pystr) (fuel : nat) :
  forall (all_anime : list item) (offset remaining : Z) (log : list request),
  0 <= offset ->
  (Z.to_nat remaining <= fuel)%nat ->
  fst (fetch_loop fuel (catalogue ranking) ranking_type all_anime offset remaining log)
  = all_anime ++ take (Z.to_nat remaining) (drop (Z.to_nat offset) ranking).
Proof.
  induction fuel as [| fuel IH]; intros all_anime offset remaining log Hoff Hfuel.
  - cbn. replace (Z.to_nat remaining) with 0%nat by lia.
    rewrite take_0, app_nil_r. reflexivity.
  - cbn [fetch_loop]. destruct (0 <? remaining) eqn:Hpos.
    + apply Z.ltb_lt in Hpos. unfold get_top_anime_by_rank, catalogue.
      cbn [rq_limit rq_offset].
      set (b := Z.min remaining 500).
      replace (Z.min b 500) with b by lia.
      set (rest := drop (Z.to_nat offset) ranking).
      destruct (len (take (Z.to_nat b) rest) <? b) eqn:Hshort.
      * apply Z.ltb_lt in Hshort. cbn [fst]. f_equal.
        unfold len in Hshort. rewrite length_take in Hshort.
        rewrite !take_ge by lia. reflexivity.
      * apply Z.ltb_ge in Hshort.
        rewrite IH by lia. rewrite <- app_assoc. f_equal.
        replace (Z.to_nat (offset + b)) with (Z.to_nat offset + Z.to_nat b)%nat by lia.
        rewrite <- drop_drop. fold rest.
        rewrite take_take_drop. f_equal. lia.
    + apply Z.ltb_ge in Hpos. cbn [fst].
      replace (Z.to_nat remaining) with 0%nat by lia.
      rewrite take_0, app_nil_r. reflexivity.
Qed.

(** X15: against a ranking served as asked, the batches add up to what was
    wanted: the loop of the game commands collects exactly the first
    [limit] records of the ranking, in order, all of them when the ranking
    is shorter, however the pool size splits into batches of 500. *)
Theorem batches_collect_the_top (ranking : list item) (ranking_type : pystr)
    (limit : Z) :
  fst (fetch_all (catalogue ranking) ranking_type limit)
  = take (Z.to_nat limit) ranking.
Proof.
  unfold fetch_all.
  rewrite fetch_loop_catalogue by lia. reflexivity.
Qed.

Import Search.

(** ** Search hits *)

Lemma before_has_no_sep (sep : N) (s : pystr) : sep ∉ before sep s.
Proof.
  induction s as [| c rest IH]; cbn [before]; [apply not_elem_of_nil |].
  destruct (N.eqb c sep) eqn:Hc; [apply not_elem_of_nil |].
  apply N.eqb_neq in Hc. apply not_elem_of_cons. split; [congruence | exact IH].
Qed.

Lemma before_prefix (sep : N) (y rest : pystr) :
  sep ∉ y -> before sep (y ++ sep :: rest) = y.
Proof.
  induction y as [| c y IH]; intros Hy; cbn [app before].
  - rewrite N.eqb_refl. reflexivity.
  - apply not_elem_of_cons in Hy. destruct Hy as [Hc Hy].
    destruct (N.eqb c sep) eqn:E; [apply N.eqb_eq in E; congruence |].
    rewrite IH by exact Hy. reflexivity.
Qed.

Lemma year_has_no_hyphen (start_date : option pystr) :
  hyphen ∉ year_of start_date.
Proof.
  unfold year_of. destruct (bool_decide _ && bool_decide _).
  - apply before_has_no_sep.
  - apply (bool_decide_unpack _). vm_compute. exact I.
Qed.

(** X16: the year shown for a hit is what comes before the first hyphen of
    its start date: for a date that opens with a hyphen-free, non-empty
    year followed by a hyphen it is that year, whatever follows; it never
    holds a hyphen; and it is "Unknown" when the date is missing, empty or
    "Unknown". *)
Theorem year_is_the_date_before_its_hyphen :
  (forall y rest : pystr,
      y <> [] -> hyphen ∉ y -> year_of (Some (y ++ hyphen :: rest)) = y)
  /\ (forall start_date : option pystr, hyphen ∉ year_of start_date)
  /\ year_of None = lit "Unknown"
  /\ year_of (Some []) = lit "Unknown"
  /\ year_of (Some (lit "Unknown")) = lit "Unknown".
Proof.
  split; [| split; [| repeat split]].
  - intros y rest Hne Hy. unfold year_of. cbn [default].
    rewrite bool_decide_eq_true_2 by (destruct y; [congruence | discriminate]).
    rewrite bool_decide_eq_true_2.
    + cbn [andb]. apply before_prefix. exact Hy.
    + intros Heq.
      assert (Hin : hyphen ∈ lit "Unknown")
        by (rewrite <- Heq; apply elem_of_app; right; left).
      revert Hin. apply (bool_decide_unpack _). vm_compute. exact I.
  - apply year_has_no_hyphen.
Qed.

Lemma year_is_the_date_before_its_hyphen_witness :
  year_of (Some (lit "2023-04-07")) = lit "2023".
Proof.
  destruct year_is_the_date_before_its_hyphen as [Hyear _].
  apply (Hyear (lit "2023") (lit "04-07")).
  - discriminate.
  - apply (bool_decide_unpack _). vm_compute. exact I.
Defined.

Lemma lookup_map {A B} (f : A -> B) (l : list A) (i : nat) :
  map f l !! i = f <$> l !! i.
Proof.
  revert i. induction l as [| x l IH]; intros [| i]; cbn; try reflexivity.
  apply IH.
Qed.

(** X17: [parse_search_results] gives one result for each hit of the
    response, in the order of the response and with its id, and never
    fails on a missing key: a hit without a node or without a synopsis gets
    the placeholder text, and a response without data gives no result. *)
Theorem parse_keeps_every_hit (data : list search_item) :
  parse_search_results None = []
  /\ length (parse_search_results (Some data)) = length data
  /\ map r_id (parse_search_results (Some data))
     = map (fun it => si_node it ≫= s_id) data
  /\ Forall (fun r => hyphen ∉ r_year r) (parse_search_results (Some data))
  /\ forall (i : nat) (it : search_item) (r : search_result),
       data !! i = Some it ->
       parse_search_results (Some data) !! i = Some r ->
       (si_node it ≫= s_synopsis) = None ->
       r_synopsis r = lit "No description available".
Proof.
  split; [reflexivity | split; [| split; [| split]]].
  - unfold parse_search_results. apply length_map.
  - unfold parse_search_results. rewrite map_map. apply map_ext.
    intros [[node |]]; reflexivity.
  - unfold parse_search_results. apply Forall_map. apply Forall_forall.
    intros it _. cbn [r_year]. apply year_has_no_hyphen.
  - intros i it r Hit Hr Hnone. unfold parse_search_results in Hr.
    rewrite lookup_map, Hit in Hr. injection Hr as <-. cbn [r_synopsis].
    destruct (si_node it) as [node |]; [| reflexivity].
    change (default empty_search_node (Some node)) with node.
    change (s_synopsis node = None) in Hnone.
    rewrite Hnone. reflexivity.
Qed.

Lemma parse_keeps_every_hit_witness :
  r_synopsis {| r_id := None; r_title := None; r_alt_en := None; r_picture := None;
                r_synopsis := lit "No description available";
                r_year := lit "Unknown" |}
  = lit "No description available".
Proof.
  destruct (parse_keeps_every_hit [{| si_node := None |}]) as (_ & _ & _ & _ & Hsyn).
  apply (Hsyn 0%nat {| si_node := None |}); reflexivity.
Defined.

(** ** The dropdown of the search *)

Lemma label_of_fits (anime : search_result) (l : pystr) :
  label_of anime = Some l -> len l <= 100.
Proof.
  unfold label_of, len. intros Hl.
  assert (Hcut : forall s : pystr, Z.of_nat (length (take 100 s)) <= 100)
    by (intros s; rewrite length_take; lia).
  destruct (r_alt_en anime) as [en |];
    [destruct (bool_decide _ && bool_decide _) |];
    try (injection Hl as <-; apply Hcut);
    destruct (r_title anime) as [t |]; try discriminate;
    injection Hl as <-; apply Hcut.
Qed.

Lemma label_of_fails (anime : search_result) :
  label_of anime = None
  <-> r_title anime = None /\ (r_alt_en anime = None \/ r_alt_en anime = Some []).
Proof.
  unfold label_of.
  destruct (r_alt_en anime) as [en |]; destruct (r_title anime) as [t |]; cbn [fmap option_fmap option_map].
  - destruct (bool_decide _ && bool_decide _); split; try discriminate;
      intros [Ht _]; discriminate.
  - destruct (bool_decide (en <> [])) eqn:Hen; cbn [andb].
    + rewrite bool_decide_eq_true_2 by discriminate.
      apply bool_decide_eq_true in Hen.
      split; [discriminate |]. intros [_ [H | H]]; [discriminate | congruence].
    + apply bool_decide_eq_false in Hen.
      assert (en = []) by (destruct en; [reflexivity | exfalso; apply Hen; discriminate]).
      subst en. split; auto.
  - split; [discriminate | intros [Ht _]; discriminate].
  - split; auto.
Qed.

Lemma options_from_spec (results : list search_result) :
  forall (k : nat) (opts : list select_option),
  options_from k results = Some opts ->
  length opts = length results
  /\ Forall (fun o => len (label o) <= 100) opts
  /\ forall (i : nat) (o : select_option),
       opts !! i = Some o -> value o = str_of_int (Z.of_nat (k + i)).
Proof.
  induction results as [| anime rest IH]; intros k opts Hopts; cbn [options_from] in Hopts.
  - injection Hopts as <-. split; [reflexivity | split; [constructor |]].
    intros i o Hi. rewrite lookup_nil in Hi. discriminate.
  - destruct (label_of anime) as [l |] eqn:Hl; [| discriminate].
    destruct (options_from (S k) rest) as [more |] eqn:Hmore; [| discriminate].
    injection Hopts as <-.
    destruct (IH (S k) more Hmore) as (Hlen & Hfit & Hval).
    split; [cbn [length]; lia | split].
    + constructor; [exact (label_of_fits anime l Hl) | exact Hfit].
    + intros i o Hi. destruct i as [| i].
      * injection Hi as <-. cbn [value]. do 2 f_equal. lia.
      * cbn in Hi. rewrite (Hval i o Hi). do 2 f_equal. lia.
Qed.

Lemma options_from_fails (results : list search_result) :
  forall k : nat,
  options_from k results = None <-> Exists (fun r => label_of r = None) results.
Proof.
  induction results as [| anime rest IH]; intros k; cbn [options_from].
  - split; [discriminate | intros H; inversion H].
  - destruct (label_of anime) as [l |] eqn:Hl.
    + destruct (options_from (S k) rest) as [more |] eqn:Hmore.
      * split; [discriminate |]. intros H. inversion H as [? ? Hh | ? ? Ht]; subst.
        -- congruence.
        -- apply (IH (S k)) in Ht. congruence.
      * split; [| reflexivity]. intros _. right. apply (IH (S k)). exact Hmore.
    + split; [| reflexivity]. intros _. left. exact Hl.
Qed.

(** X18: the dropdown of the search has one option for each hit, in order,
    the i-th carrying the index i as its value, and no label is longer than
    100 characters; building it fails exactly when some hit has no title
    and no English title to show in its place. *)
Theorem dropdown_options_fit (results : list search_result) :
  (forall opts : list select_option,
      options results = Some opts ->
      length opts = length results
      /\ Forall (fun o => len (label o) <= 100) opts
      /\ forall (i : nat) (o : select_option),
           opts !! i = Some o -> value o = str_of_int (Z.of_nat i))
  /\ (options results = None
      <-> Exists (fun r => r_title r = None
                           /\ (r_alt_en r = None \/ r_alt_en r = Some []))
            results).
Proof.
  split.
  - intros opts Hopts. apply (options_from_spec results 0 opts Hopts).
  - unfold options. rewrite options_from_fails.
    split; intros H; eapply Exists_impl; try exact H;
      intros r Hr; apply label_of_fails; exact Hr.
Qed.

Lemma dropdown_options_fit_witness :
  Forall (fun o => len (label o) <= 100)
    [{| label := repeat 65%N 100; value := lit "0" |}].
Proof.
  destruct (dropdown_options_fit
              [{| r_id := Some 1; r_title := Some (repeat 65%N 120); r_alt_en := None;
                  r_picture := None; r_synopsis := []; r_year := lit "Unknown" |}])
    as [Hfit _].
  apply (Hfit [{| label := repeat 65%N 100; value := lit "0" |}]).
  reflexivity.
Defined.

Import Lists.

(** ** Sorting a list by score *)

Lemma insert_by_score_perm (x : Z * item) (l : list (Z * item)) :
  insert_by_score x l ≡ₚ x :: l.
Proof.
  induction l as [| y rest IH]; cbn [insert_by_score]; [reflexivity |].
  destruct (fst x <? fst y); [| reflexivity].
  rewrite IH. apply Permutation_swap.
Qed.

Lemma insert_by_score_sorted (x : Z * item) (l : list (Z * item)) :
  StronglySorted (fun a b => fst b <= fst a) l ->
  StronglySorted (fun a b => fst b <= fst a) (insert_by_score x l).
Proof.
  induction l as [| y rest IH]; intros Hs; cbn [insert_by_score].
  - constructor; constructor.
  - inversion Hs as [| ? ? Hrest Hall]; subst.
    destruct (fst x <? fst y) eqn:Hxy.
    + apply Z.ltb_lt in Hxy. constructor; [apply IH; exact Hrest |].
      rewrite (insert_by_score_perm x rest). constructor; [lia | exact Hall].
    + apply Z.ltb_ge in Hxy. constructor; [exact Hs |].
      constructor; [exact Hxy |].
      eapply Forall_impl; [exact Hall |]. cbn. intros z Hz. lia.
Qed.

(** Inserting does not reorder the entries of one score. *)
Lemma insert_by_score_filter (k : Z) (x : Z * item) (l : list (Z * item)) :
  filter (fun y => fst y = k) (insert_by_score x l)
  = filter (fun y => fst y = k) (x :: l).
Proof.
  induction l as [| y rest IH]; cbn [insert_by_score]; [reflexivity |].
  destruct (fst x <? fst y) eqn:Hxy; [| reflexivity].
  apply Z.ltb_lt in Hxy.
  rewrite (filter_cons _ y), IH, !filter_cons.
  destruct (decide (fst y = k)), (decide (fst x = k)); try reflexivity. lia.
Qed.

Lemma sort_keyed (keyed : list (Z * item)) :
  foldr insert_by_score [] keyed ≡ₚ keyed
  /\ StronglySorted (fun a b => fst b <= fst a) (foldr insert_by_score [] keyed)
  /\ forall k, filter (fun y => fst y = k) (foldr insert_by_score [] keyed)
               = filter (fun y => fst y = k) keyed.
Proof.
  induction keyed as [| x rest (Hperm & Hsorted & Hstable)]; cbn [foldr].
  - split; [reflexivity | split; [constructor | reflexivity]].
  - split; [| split].
    + rewrite insert_by_score_perm, Hperm. reflexivity.
    + apply insert_by_score_sorted. exact Hsorted.
    + intros k. rewrite insert_by_score_filter, !filter_cons, Hstable. reflexivity.
Qed.

(** The keyed list [sorted] works on: each entry beside its score. *)
Lemma keyed_spec (all_anime : list item) (keyed : list (Z * item)) :
  mapM (fun anime => (fun k => (k, anime)) <$> score_of anime) all_anime = Some keyed ->
  snd <$> keyed = all_anime
  /\ Forall (fun y => score_of (snd y) = Some (fst y)) keyed.
Proof.
  revert keyed. induction all_anime as [| a rest IH]; intros keyed Hk.
  - injection Hk as <-. split; [reflexivity | constructor].
  - cbn [mapM] in Hk.
    destruct (score_of a) as [k |] eqn:Ha; [| discriminate].
    cbn [fmap option_fmap option_map mbind option_bind] in Hk.
    destruct (mapM _ rest) as [more |] eqn:Hmore; [| discriminate].
    injection Hk as <-.
    destruct (IH more eq_refl) as [Hsnd Hkeys].
    split; [cbn; rewrite Hsnd; reflexivity |].
    constructor; [exact Ha | exact Hkeys].
Qed.

Lemma keyed_fails (all_anime : list item) :
  mapM (fun anime => (fun k => (k, anime)) <$> score_of anime) all_anime = None
  <-> Exists (fun anime => score_of anime = None) all_anime.
Proof.
  induction all_anime as [| a rest IH]; cbn [mapM].
  - split; [discriminate | intros H; inversion H].
  - destruct (score_of a) as [k |] eqn:Ha;
      cbn [fmap option_fmap option_map mbind option_bind].
    + destruct (mapM _ rest) as [more |]; cbn [mbind option_bind].
      * split; [discriminate |]. intros H.
        inversion H as [? ? Hh | ? ? Ht]; subst; [congruence |].
        apply IH in Ht. discriminate.
      * split; [| reflexivity]. intros _. right. apply IH. reflexivity.
    + split; [| reflexivity]. intros _. left. exact Ha.
Qed.

(** X19: sorting a list by score keeps every entry, once each; puts no
    entry before one of a higher score; and keeps the entries of one score
    in the order they had.  It raises [KeyError] exactly when some entry
    has no score. *)
Theorem sorted_by_score_is_a_stable_sort (all_anime : list item) :
  (forall sorted : list item,
      sorted_by_score all_anime = Some sorted ->
      sorted ≡ₚ all_anime
      /\ StronglySorted
           (fun a b => exists sa sb, score_of a = Some sa /\ score_of b = Some sb
                                     /\ sb <= sa)
           sorted
      /\ forall k, filter (fun a => score_of a = Some k) sorted
                   = filter (fun a => score_of a = Some k) all_anime)
  /\ (sorted_by_score all_anime = None
      <-> Exists (fun anime => score_of anime = None) all_anime).
Proof.
  unfold sorted_by_score. split.
  - intros sorted Hs.
    destruct (mapM _ all_anime) as [keyed |] eqn:Hkeyed; [| discriminate].
    cbn [mbind option_bind] in Hs. injection Hs as <-.
    destruct (keyed_spec all_anime keyed Hkeyed) as [Hsnd Hkeys].
    destruct (sort_keyed keyed) as (Hperm & Hsorted & Hstable).
    assert (Hkeys' : Forall (fun y => score_of (snd y) = Some (fst y))
                       (foldr insert_by_score [] keyed))
      by (rewrite Hperm; exact Hkeys).
    assert (Hfilter : forall (k : Z) (l : list (Z * item)),
               Forall (fun y => score_of (snd y) = Some (fst y)) l ->
               filter (fun a => score_of a = Some k) (snd <$> l)
               = snd <$> filter (fun y => fst y = k) l).
    { intros k l Hl. induction Hl as [| y l Hy Hl IH]; [reflexivity |].
      cbn [fmap list_fmap]. rewrite !filter_cons, IH.
      destruct (decide (score_of (snd y) = Some k)) as [Hyes | Hno],
               (decide (fst y = k)) as [Hk | Hk];
        try reflexivity; exfalso; [apply Hk | apply Hno]; congruence. }
    split; [| split].
    + rewrite <- Hsnd. apply fmap_Permutation. exact Hperm.
    + clear - Hsorted Hkeys'.
      induction Hsorted as [| y l Hsorted IH Hall]; [constructor |].
      inversion Hkeys' as [| ? ? Hy Hl]; subst.
      cbn [fmap list_fmap]. constructor; [apply IH; exact Hl |].
      apply Forall_fmap. apply Forall_forall. intros z Hz.
      rewrite Forall_forall in Hall, Hl. cbn.
      exists (fst y), (fst z). repeat split; [exact Hy | apply Hl; exact Hz |].
      apply (Hall z Hz).
    + intros k. rewrite (Hfilter k _ Hkeys'), Hstable, <- (Hfilter k _ Hkeys), Hsnd.
      reflexivity.
  - rewrite <- keyed_fails.
    destruct (mapM _ all_anime) as [keyed |]; cbn [mbind option_bind];
      split; congruence.
Qed.

Import ListSamples.

Lemma sorted_by_score_is_a_stable_sort_witness :
  [listed 4 9; listed 2 5; listed 5 5; listed 1 3; listed 3 3] ≡ₚ shelf.
Proof.
  destruct (sorted_by_score_is_a_stable_sort shelf) as [Hsort _].
  apply (Hsort [listed 4 9; listed 2 5; listed 5 5; listed 1 3; listed 3 3]).
  reflexivity.
Defined.

(** ** The paging loop of [/seasonal] and [/list] *)

(** The offsets of the first [n] pages. *)
Lemma fetch_pages_some {Q} (size : Z) (ask : Z -> Q * option (list item))
    (fuel : nat) :
  forall (all_anime : list item) (offset : Z) (log : list Q)
         (res : list item * list Q),
  fetch_pages fuel size ask all_anime offset log = Some res ->
  exists k : nat,
    (k < fuel)%nat
    /\ snd res
       = log ++ map (fun i => fst (ask (offset + size * Z.of_nat i))) (seq 0 (S k))
    /\ fst res
       = all_anime
           ++ flat_map (fun i => default [] (snd (ask (offset + size * Z.of_nat i))))
                (seq 0 (S k))
    /\ (forall i : nat, (i < k)%nat ->
          exists data, snd (ask (offset + size * Z.of_nat i)) = Some data
                       /\ size <= len data)
    /\ (snd (ask (offset + size * Z.of_nat k)) = None
        \/ exists data, snd (ask (offset + size * Z.of_nat k)) = Some data
                        /\ len data < size).
Proof.
  induction fuel as [| fuel IH]; intros all_anime offset log res Hres;
    cbn [fetch_pages] in Hres; [discriminate |].
  destruct (ask offset) as [q response] eqn:Hask.
  assert (Hzero : offset + size * Z.of_nat 0 = offset) by lia.
  destruct response as [data |].
  - destruct (len data <? size) eqn:Hshort.
    + injection Hres as <-. exists 0%nat. apply Z.ltb_lt in Hshort.
      cbn [seq map flat_map fst snd]. rewrite Hzero, Hask. cbn [fst snd default].
      rewrite app_nil_r.
      split; [lia | split; [reflexivity | split; [reflexivity | split]]].
      * intros i Hi. lia.
      * right. exists data. split; [reflexivity | exact Hshort].
    + apply Z.ltb_ge in Hshort.
      destruct (IH _ _ _ _ Hres) as (k & Hk & Hlog & Hall & Hfull & Hlast).
      assert (Hshift : forall i : nat,
                 offset + size + size * Z.of_nat i = offset + size * Z.of_nat (S i))
        by (intros i; lia).
      exists (S k). split; [lia | split; [| split; [| split]]].
      * rewrite Hlog, <- app_assoc. cbn [app]. f_equal.
        change (seq 0 (S (S k))) with (0%nat :: seq 1 (S k)).
        cbn [map]. rewrite Hzero, Hask. cbn [fst]. f_equal.
        rewrite <- seq_shift, map_map.
        apply map_ext. intros i. rewrite Hshift. reflexivity.
      * rewrite Hall, <- app_assoc. f_equal.
        change (seq 0 (S (S k))) with (0%nat :: seq 1 (S k)).
        cbn [flat_map]. rewrite Hzero, Hask. cbn [snd default]. f_equal.
        rewrite <- seq_shift, !flat_map_concat_map, map_map. f_equal.
        apply map_ext. intros i. rewrite Hshift. reflexivity.
      * intros i Hi. destruct i as [| i].
        -- rewrite Hzero, Hask. exists data. split; [reflexivity | exact Hshort].
        -- rewrite <- Hshift. apply Hfull. lia.
      * rewrite <- Hshift. exact Hlast.
  - injection Hres as <-. exists 0%nat.
    cbn [seq map flat_map fst snd]. rewrite Hzero, Hask. cbn [fst snd default].
    rewrite app_nil_r.
    split; [lia | split; [reflexivity | split; [reflexivity | split]]].
    + intros i Hi. lia.
    + left. reflexivity.
Qed.

Lemma fetch_pages_none {Q} (size : Z) (ask : Z -> Q * option (list item))
    (fuel : nat) :
  forall (all_anime : list item) (offset : Z) (log : list Q),
  fetch_pages fuel size ask all_anime offset log = None
  <-> forall i : nat, (i < fuel)%nat ->
        exists data, snd (ask (offset + size * Z.of_nat i)) = Some data
                     /\ size <= len data.
Proof.
  induction fuel as [| fuel IH]; intros all_anime offset log; cbn [fetch_pages].
  - split; [intros _ i Hi; lia | reflexivity].
  - assert (Hzero : offset + size * Z.of_nat 0 = offset) by lia.
    assert (Hshift : forall i : nat,
               offset + size + size * Z.of_nat i = offset + size * Z.of_nat (S i))
      by (intros i; lia).
    destruct (ask offset) as [q response] eqn:Hask.
    destruct response as [data |].
    + destruct (len data <? size) eqn:Hshort.
      * apply Z.ltb_lt in Hshort. split; [discriminate |].
        intros Hfull. destruct (Hfull 0%nat ltac:(lia)) as (data' & Hd & Hlen).
        rewrite Hzero, Hask in Hd. injection Hd as <-. lia.
      * apply Z.ltb_ge in Hshort. rewrite IH. split.
        -- intros Hfull i Hi. destruct i as [| i].
           ++ rewrite Hzero, Hask. exists data. split; [reflexivity | exact Hshort].
           ++ rewrite <- Hshift. apply Hfull. lia.
        -- intros Hfull i Hi. rewrite Hshift. apply Hfull. lia.
    + split; [discriminate |].
      intros Hfull. destruct (Hfull 0%nat ltac:(lia)) as (data' & Hd & _).
      rewrite Hzero, Hask in Hd. discriminate.
Qed.

(** X20: the paging loop of [/seasonal] and [/list] goes on exactly as long
    as upstream answers with full pages.  Run for any number of rounds, it
    has not ended exactly when every page so far was full; when it ends,
    it has asked for the pages one after the other, a page size apart, up
    to the first answer that failed or was short, and has collected what
    all of them carried. *)
Theorem paging_ends_at_the_first_short_page {Q} (size : Z)
    (ask : Z -> Q * option (list item)) (fuel : nat) :
  (fetch_pages fuel size ask [] 0 [] = None
   <-> forall i : nat, (i < fuel)%nat ->
         exists data, snd (ask (size * Z.of_nat i)) = Some data /\ size <= len data)
  /\ (forall res : list item * list Q,
         fetch_pages fuel size ask [] 0 [] = Some res ->
         exists k : nat,
           (k < fuel)%nat
           /\ snd res = map (fun i => fst (ask (size * Z.of_nat i))) (seq 0 (S k))
           /\ fst res
              = flat_map (fun i => default [] (snd (ask (size * Z.of_nat i))))
                  (seq 0 (S k))
           /\ (forall i : nat, (i < k)%nat ->
                 exists data, snd (ask (size * Z.of_nat i)) = Some data
                              /\ size <= len data)
           /\ (snd (ask (size * Z.of_nat k)) = None
               \/ exists data, snd (ask (size * Z.of_nat k)) = Some data
                               /\ len data < size)).
Proof.
  split.
  - rewrite fetch_pages_none. cbn [Z.add]. reflexivity.
  - intros res Hres.
    destruct (fetch_pages_some size ask fuel [] 0 [] res Hres)
      as (k & Hk & Hlog & Hall & Hfull & Hlast).
    exists k. cbn [app Z.add] in *. auto.
Qed.

Lemma paging_ends_at_the_first_short_page_witness :
  exists k : nat,
    (k < 3)%nat
    /\ snd (shelf, [{| lq_username := lit "bob"; lq_status := None;
                       lq_limit := 100; lq_offset := 0 |}])
       = map (fun i => fst (get_user_anime_list (one_page shelf) (lit "bob") None 100
                              (100 * Z.of_nat i)))
           (seq 0 (S k)).
Proof.
  destruct (paging_ends_at_the_first_short_page 100
              (fun offset => get_user_anime_list (one_page shelf) (lit "bob") None 100
                               offset) 3) as [_ Hends].
  destruct (Hends (shelf, [{| lq_username := lit "bob"; lq_status := None;
                              lq_limit := 100; lq_offset := 0 |}]) eq_refl)
    as (k & Hk & Hlog & _).
  exists k. split; [exact Hk | exact Hlog].
Defined.

(** ** The browsing commands *)

Import Browsing.

(** A loop whose requests are made from the offset alone has asked for the
    pages in order, and has collected what the answers carried. *)
Lemma fetch_pages_log {Q} (size : Z) (mk : Z -> Q) (api : Q -> option (list item))
    (ask : Z -> Q * option (list item)) (fuel : nat)
    (res : list item * list Q) :
  (forall offset, ask offset = (mk offset, api (mk offset))) ->
  fetch_pages fuel size ask [] 0 [] = Some res ->
  fst res = carried api (snd res)
  /\ snd res <> []
  /\ forall (i : nat) (q : Q), snd res !! i = Some q -> q = mk (size * Z.of_nat i).
Proof.
  intros Hask Hres.
  destruct (fetch_pages_some size ask fuel [] 0 [] res Hres)
    as (k & _ & Hlog & Hall & _).
  cbn [app Z.add] in Hlog, Hall.
  assert (Hlog' : snd res = map (fun i => mk (size * Z.of_nat i)) (seq 0 (S k))).
  { rewrite Hlog. apply map_ext. intros i. rewrite Hask. reflexivity. }
  split; [| split].
  - rewrite Hall, Hlog'. unfold carried.
    rewrite !flat_map_concat_map, map_map. f_equal.
    apply map_ext. intros i. rewrite Hask. reflexivity.
  - rewrite Hlog'. cbn [seq map]. discriminate.
  - intros i q Hq. rewrite Hlog', lookup_map in Hq.
    destruct (seq 0 (S k) !! i) as [j |] eqn:Hi; [| discriminate].
    apply lookup_seq in Hi. destruct Hi as [-> _].
    injection Hq as <-. reflexivity.
Qed.

Lemma fetch_pages_unended {Q} (size : Z) (mk : Z -> Q)
    (api : Q -> option (list item)) (ask : Z -> Q * option (list item))
    (fuel : nat) :
  (forall offset, ask offset = (mk offset, api (mk offset))) ->
  fetch_pages fuel size ask [] 0 [] = None
  <-> forall i : nat, (i < fuel)%nat ->
        exists data, api (mk (size * Z.of_nat i)) = Some data /\ size <= len data.
Proof.
  intros Hask. rewrite fetch_pages_none. cbn [Z.add].
  split; intros H i Hi; specialize (H i Hi); rewrite Hask in *; exact H.
Qed.

Lemma sorted_by_score_perm (all_anime sorted : list item) :
  sorted_by_score all_anime = Some sorted -> sorted ≡ₚ all_anime.
Proof.
  unfold sorted_by_score. intros Hs.
  destruct (mapM _ all_anime) as [keyed |] eqn:Hkeyed; [| discriminate].
  cbn [mbind option_bind] in Hs. injection Hs as <-.
  destruct (keyed_spec all_anime keyed Hkeyed) as [Hsnd _].
  destruct (sort_keyed keyed) as (Hperm & _).
  rewrite <- Hsnd. apply fmap_Permutation. exact Hperm.
Qed.

Lemma sorted_by_score_fails (all_anime : list item) :
  sorted_by_score all_anime = None
  <-> Exists (fun anime => score_of anime = None) all_anime.
Proof.
  unfold sorted_by_score. rewrite <- keyed_fails.
  destruct (mapM _ all_anime) as [keyed |]; cbn [mbind option_bind];
    split; congruence.
Qed.

(** After the validation, the status is one upstream knows, and it is sent
    as it is. *)
Lemma upstream_status_known (status : option pystr) :
  (forall st, status = Some st -> st ∈ valid_statuses) ->
  upstream_status status ∈ upstream_statuses
  /\ forall (api : list_query -> option (list item)) (username : pystr)
            (limit offset : Z),
       fst (get_user_anime_list api username (upstream_status status) limit offset)
       = {| lq_username := username; lq_status := upstream_status status;
            lq_limit := limit; lq_offset := offset |}.
Proof.
  intros Hvalid. destruct status as [st |].
  - specialize (Hvalid st eq_refl). unfold valid_statuses in Hvalid.
    rewrite !elem_of_cons in Hvalid. rewrite elem_of_nil in Hvalid.
    destruct Hvalid as [-> | [-> | [-> | [-> | [-> | []]]]]];
      (split; [apply (bool_decide_unpack _); vm_compute; exact I
              | intros api username limit offset; reflexivity]).
  - split; [apply (bool_decide_unpack _); vm_compute; exact I
           | intros api username limit offset; reflexivity].
Qed.

(** The page [/list] sends for the entries [shown]. *)
Lemma list_command_runs (fuel : nat) (api : list_query -> option (list item))
    (uid : Z) (username sm : pystr) (status : option pystr)
    (o : browse_outcome list_query) :
  list_command fuel api uid username sm status = Some o ->
  (b_requests o = [] /\ b_raised o = None /\ (exists text, b_sent o = [Text text])
   /\ ~ (sm ∈ [lit "alphabetical"; lit "score"]
         /\ forall st, status = Some st -> st ∈ valid_statuses))
  \/ (sm ∈ [lit "alphabetical"; lit "score"]
      /\ (forall st, status = Some st -> st ∈ valid_statuses)
      /\ b_requests o <> []
      /\ (forall (i : nat) (q : list_query),
             b_requests o !! i = Some q ->
             q = {| lq_username := username; lq_status := upstream_status status;
                    lq_limit := 100; lq_offset := 100 * Z.of_nat i |})
      /\ ((carried api (b_requests o) = [] /\ b_raised o = None
           /\ exists text, b_sent o = [Text text])
          \/ (carried api (b_requests o) <> [] /\ sm = lit "score"
              /\ sorted_by_score (carried api (b_requests o)) = None
              /\ b_raised o = Some KeyError /\ b_sent o = [])
          \/ (carried api (b_requests o) <> [] /\ b_raised o = None
              /\ exists (shown : list item) (heading : pystr) (url : pystr),
                   (if bool_decide (sm = lit "score")
                    then sorted_by_score (carried api (b_requests o))
                    else Some (carried api (b_requests o))) = Some shown
                   /\ b_sent o
                      = [Page (get_embed (init shown heading uid (Some url) false))
                           (init shown heading uid (Some url) false)]))).
Proof.
  unfold list_command. intros H.
  destruct (bool_decide (sm ∈ [lit "alphabetical"; lit "score"])) eqn:Hsm;
    cbn [negb] in H.
  2: { injection H as <-. left. cbn [b_requests b_raised b_sent].
       apply bool_decide_eq_false in Hsm.
       split; [reflexivity | split; [reflexivity | split; [eauto |]]].
       intros [Hin _]. exact (Hsm Hin). }
  apply bool_decide_eq_true in Hsm.
  destruct (match status with
            | Some st => negb (bool_decide (st ∈ valid_statuses))
            | None => false
            end) eqn:Hst.
  { injection H as <-. left. cbn [b_requests b_raised b_sent].
    split; [reflexivity | split; [reflexivity | split; [eauto |]]].
    intros [_ Hvalid]. destruct status as [st |]; [| discriminate].
    apply negb_true_iff, bool_decide_eq_false in Hst.
    exact (Hst (Hvalid st eq_refl)). }
  assert (Hvalid : forall st, status = Some st -> st ∈ valid_statuses).
  { intros st ->. apply negb_false_iff, bool_decide_eq_true in Hst. exact Hst. }
  destruct (upstream_status_known status Hvalid) as [_ Hsent].
  destruct (fetch_pages _ _ _ _ _ _) as [[all_anime log] |] eqn:Hf; [| discriminate].
  apply (fetch_pages_log 100
           (fun offset => {| lq_username := username;
                             lq_status := upstream_status status;
                             lq_limit := 100; lq_offset := offset |}) api) in Hf.
  2: { intros offset.
       change (get_user_anime_list api username (upstream_status status) 100 offset)
         with (fst (get_user_anime_list api username (upstream_status status)
                      100 offset),
               api (fst (get_user_anime_list api username (upstream_status status)
                           100 offset))).
       rewrite Hsent. reflexivity. }
  cbn [fst snd] in Hf. destruct Hf as (-> & Hne & Hlog).
  right. split; [exact Hsm | split; [exact Hvalid |]].
  destruct (carried api log) as [| a rest] eqn:Hgot.
  - injection H as <-. cbn [b_requests b_raised b_sent]. rewrite Hgot.
    split; [exact Hne | split; [exact Hlog |]].
    left. split; [reflexivity | split; [reflexivity | eauto]].
  - destruct (bool_decide (sm = lit "score")) eqn:Hscore.
    + apply bool_decide_eq_true in Hscore.
      destruct (sorted_by_score (a :: rest)) as [shown |] eqn:Hsorted;
        injection H as <-; cbn [b_requests b_raised b_sent]; rewrite Hgot;
        (split; [exact Hne | split; [exact Hlog |]]); right.
      * right. split; [discriminate | split; [reflexivity |]].
        eexists shown, _, _. rewrite Hsorted. split; reflexivity.
      * left. split; [discriminate |]. auto.
    + injection H as <-. cbn [b_requests b_raised b_sent]. rewrite Hgot.
      split; [exact Hne | split; [exact Hlog |]]. right. right.
      split; [discriminate | split; [reflexivity |]].
      eexists (a :: rest), _, _. split; reflexivity.
Qed.

Lemma season_query_shape (api : season_query -> option (list item)) (year : Z)
    (season : pystr) (offset : Z) :
  get_seasonal_anime api year season 500 offset
  = ({| sq_year := year; sq_season := season; sq_limit := 500;
        sq_sort := lit "anime_num_list_users"; sq_offset := offset |},
     api {| sq_year := year; sq_season := season; sq_limit := 500;
            sq_sort := lit "anime_num_list_users"; sq_offset := offset |}).
Proof. reflexivity. Qed.

Lemma list_query_shape (api : list_query -> option (list item)) (username : pystr)
    (status : option pystr) (offset : Z) :
  (forall st, status = Some st -> st ∈ valid_statuses) ->
  get_user_anime_list api username (upstream_status status) 100 offset
  = ({| lq_username := username; lq_status := upstream_status status;
        lq_limit := 100; lq_offset := offset |},
     api {| lq_username := username; lq_status := upstream_status status;
            lq_limit := 100; lq_offset := offset |}).
Proof.
  intros Hvalid. destruct (upstream_status_known status Hvalid) as [_ Hsent].
  change (get_user_anime_list api username (upstream_status status) 100 offset)
    with (fst (get_user_anime_list api username (upstream_status status) 100 offset),
          api (fst (get_user_anime_list api username (upstream_status status)
                      100 offset))).
  rewrite Hsent. reflexivity.
Qed.

Lemma seasonal_runs (fuel : nat) (api : season_query -> option (list item))
    (uid year : Z) (season : pystr) (o : browse_outcome season_query) :
  seasonal fuel api uid year season = Some o ->
  b_raised o = None
  /\ ((b_requests o = [] /\ (lower season ∉ valid_seasons)
       /\ exists text, b_sent o = [Text text])
      \/ (lower season ∈ valid_seasons
          /\ b_requests o <> []
          /\ (forall (i : nat) (q : season_query),
                 b_requests o !! i = Some q ->
                 q = {| sq_year := year; sq_season := lower season;
                        sq_limit := 500; sq_sort := lit "anime_num_list_users";
                        sq_offset := 500 * Z.of_nat i |})
          /\ ((carried api (b_requests o) = []
               /\ exists text, b_sent o = [Text text])
              \/ (carried api (b_requests o) <> []
                  /\ exists heading : pystr,
                       b_sent o
                       = [Page (get_embed (init (carried api (b_requests o)) heading
                                             uid None true))
                            (init (carried api (b_requests o)) heading
                               uid None true)])))).
Proof.
  unfold seasonal. intros H.
  destruct (bool_decide (lower season ∈ valid_seasons)) eqn:Hseason;
    cbn [negb] in H.
  2: { injection H as <-. cbn [b_requests b_raised b_sent].
       apply bool_decide_eq_false in Hseason.
       split; [reflexivity |]. left.
       split; [reflexivity | split; [exact Hseason | eauto]]. }
  apply bool_decide_eq_true in Hseason.
  destruct (fetch_pages _ _ _ _ _ _) as [[all_anime log] |] eqn:Hf; [| discriminate].
  apply (fetch_pages_log 500
           (fun offset => {| sq_year := year; sq_season := lower season;
                             sq_limit := 500;
                             sq_sort := lit "anime_num_list_users";
                             sq_offset := offset |}) api) in Hf;
    [| intros offset; apply season_query_shape].
  cbn [fst snd] in Hf. destruct Hf as (-> & Hne & Hlog).
  destruct (carried api log) as [| a rest] eqn:Hgot;
    injection H as <-; cbn [b_requests b_raised b_sent]; rewrite Hgot;
    (split; [reflexivity |]); right;
    (split; [exact Hseason | split; [exact Hne | split; [exact Hlog |]]]).
  - left. split; [reflexivity | eauto].
  - right. split; [discriminate |]. eexists. reflexivity.
Qed.

Lemma init_starts (entries : list item) (heading : pystr) (owner : Z)
    (url : option pystr) (ranking : bool) :
  entries <> [] ->
  data (init entries heading owner url ranking) = entries
  /\ user_id (init entries heading owner url ranking) = owner
  /\ is_ranking (init entries heading owner url ranking) = ranking
  /\ current_page (init entries heading owner url ranking) = 0
  /\ in_range (init entries heading owner url ranking)
  /\ buttons_match (init entries heading owner url ranking).
Proof.
  intros Hne.
  split; [reflexivity | split; [reflexivity | split; [reflexivity |
    split; [reflexivity | split]]]].
  - apply init_in_range. exact Hne.
  - unfold buttons_match. cbn. repeat split; reflexivity.
Qed.

(** X21: the browsing commands ask upstream only with arguments they have
    checked, and page by page.  Every request of [/list] is for the user
    named, for 100 entries from the offset 100 times its position, with a
    status upstream knows or none; every request of [/seasonal] is for the
    year given and one of the four seasons, in lower case, for 500 entries
    from the offset 500 times its position.  A sorting method, status or
    season that is not valid is answered without any request. *)
Theorem browsing_requests_are_disciplined (fuel : nat) :
  (forall (api : list_query -> option (list item)) (uid : Z)
          (username sm : pystr) (status : option pystr)
          (o : browse_outcome list_query),
      list_command fuel api uid username sm status = Some o ->
      (b_requests o <> []
       <-> sm ∈ [lit "alphabetical"; lit "score"]
           /\ forall st, status = Some st -> st ∈ valid_statuses)
      /\ forall (i : nat) (q : list_query),
           b_requests o !! i = Some q ->
           lq_username q = username
           /\ lq_limit q = 100
           /\ lq_offset q = 100 * Z.of_nat i
           /\ lq_status q = upstream_status status
           /\ lq_status q ∈ upstream_statuses)
  /\ (forall (api : season_query -> option (list item)) (uid year : Z)
             (season : pystr) (o : browse_outcome season_query),
         seasonal fuel api uid year season = Some o ->
         (b_requests o <> [] <-> lower season ∈ valid_seasons)
         /\ forall (i : nat) (q : season_query),
              b_requests o !! i = Some q ->
              sq_year q = year
              /\ sq_season q = lower season
              /\ sq_season q ∈ valid_seasons
              /\ sq_limit q = 500
              /\ sq_offset q = 500 * Z.of_nat i).
Proof.
  split.
  - intros api uid username sm status o Ho.
    destruct (list_command_runs fuel api uid username sm status o Ho)
      as [(Hnone & _ & _ & Hbad) | (Hsm & Hvalid & Hne & Hlog & _)].
    + split.
      * split; [intros Hne; destruct (Hne Hnone) | intros Hok; destruct (Hbad Hok)].
      * intros i q Hq. rewrite Hnone, lookup_nil in Hq. discriminate.
    + split.
      * split; [intros _; split; assumption | intros _; exact Hne].
      * intros i q Hq. rewrite (Hlog i q Hq). cbn [lq_username lq_limit lq_offset lq_status].
        repeat split. apply upstream_status_known. exact Hvalid.
  - intros api uid year season o Ho.
    destruct (seasonal_runs fuel api uid year season o Ho)
      as [_ [(Hnone & Hbad & _) | (Hseason & Hne & Hlog & _)]].
    + split.
      * split; [intros Hne; destruct (Hne Hnone) | intros Hok; destruct (Hbad Hok)].
      * intros i q Hq. rewrite Hnone, lookup_nil in Hq. discriminate.
    + split.
      * split; [intros _; exact Hseason | intros _; exact Hne].
      * intros i q Hq. rewrite (Hlog i q Hq).
        cbn [sq_year sq_season sq_limit sq_offset].
        repeat split. exact Hseason.
Qed.

Lemma browsing_requests_are_disciplined_witness :
  exists o : browse_outcome list_query,
    list_command 3 (one_page shelf) 7 (lit "bob") (lit "score")
      (Some (lit "on hold")) = Some o
    /\ forall (i : nat) (q : list_query),
         b_requests o !! i = Some q ->
         lq_username q = lit "bob"
         /\ lq_limit q = 100
         /\ lq_offset q = 100 * Z.of_nat i
         /\ lq_status q = upstream_status (Some (lit "on hold"))
         /\ lq_status q ∈ upstream_statuses.
Proof.
  eexists. split; [reflexivity |].
  destruct (browsing_requests_are_disciplined 3) as [Hlist _].
  apply (Hlist (one_page shelf) 7 (lit "bob") (lit "score") (Some (lit "on hold"))).
  reflexivity.
Defined.

(** What an answer of [/list] shows, against what its requests carried. *)
Lemma list_outcome_shows (fuel : nat)
    (api : list_query -> option (list item)) (uid : Z) (username sm : pystr)
    (status : option pystr) (o : browse_outcome list_query) :
  list_command fuel api uid username sm status = Some o ->
  (b_raised o = Some KeyError
   <-> sm = lit "score"
       /\ Exists (fun anime => score_of anime = None) (carried api (b_requests o)))
  /\ (b_raised o = Some KeyError -> b_sent o = [])
  /\ ((exists e v, b_sent o = [Page e v])
      <-> carried api (b_requests o) <> [] /\ b_raised o = None)
  /\ forall (e : embed) (v : PaginationView),
       Page e v ∈ b_sent o ->
       e = get_embed v
       /\ data v ≡ₚ carried api (b_requests o)
       /\ (sm <> lit "score" -> data v = carried api (b_requests o))
       /\ (sm = lit "score"
           -> sorted_by_score (carried api (b_requests o)) = Some (data v))
       /\ user_id v = uid
       /\ is_ranking v = false
       /\ current_page v = 0
       /\ in_range v
       /\ buttons_match v.
Proof.
  intros Ho.
  destruct (list_command_runs fuel api uid username sm status o Ho)
    as [(Hnone & Hraised & (text & Hsent) & _)
       | (_ & _ & _ & _ &
          [(Hgot & Hraised & (text & Hsent))
          | [(Hgot & Hscore & Hsorted & Hraised & Hsent)
            | (Hgot & Hraised & shown & heading & url & Hshown & Hsent)]])].
  - rewrite Hnone, Hraised, Hsent. unfold carried. cbn [flat_map].
    split; [| split; [| split]].
    + split; [discriminate | intros [_ Hex]; inversion Hex].
    + discriminate.
    + split; [intros (e & v & He); discriminate | intros [Hne _]; congruence].
    + intros e v Hin. apply list_elem_of_singleton in Hin. discriminate.
  - rewrite Hgot, Hraised, Hsent.
    split; [| split; [| split]].
    + split; [discriminate | intros [_ Hex]; inversion Hex].
    + discriminate.
    + split; [intros (e & v & He); discriminate | intros [Hne _]; congruence].
    + intros e v Hin. apply list_elem_of_singleton in Hin. discriminate.
  - rewrite Hraised, Hsent.
    split; [| split; [| split]].
    + split; [intros _ | reflexivity].
      split; [exact Hscore | apply sorted_by_score_fails; exact Hsorted].
    + reflexivity.
    + split; [intros (e & v & He); discriminate | intros [_ Hno]; discriminate].
    + intros e v Hin. apply elem_of_nil in Hin. destruct Hin.
  - rewrite Hraised, Hsent.
    assert (Hperm : shown ≡ₚ carried api (b_requests o)).
    { destruct (bool_decide (sm = lit "score"));
        [apply sorted_by_score_perm; exact Hshown
        | injection Hshown as <-; reflexivity]. }
    assert (Hne : shown <> []).
    { intros ->. apply Hgot. symmetry in Hperm.
      apply Permutation_nil_r in Hperm. exact Hperm. }
    destruct (init_starts shown heading uid (Some url) false Hne)
      as (Hdata & Huser & Hranking & Hpage & Hrange & Hbuttons).
    split; [| split; [| split]].
    + split; [discriminate |]. intros [Hscore Hex].
      apply sorted_by_score_fails in Hex.
      rewrite bool_decide_eq_true_2 in Hshown by exact Hscore. congruence.
    + discriminate.
    + split; [intros _; split; [exact Hgot | reflexivity] | intros _; eauto].
    + intros e v Hin. apply list_elem_of_singleton in Hin.
      injection Hin as -> ->.
      split; [reflexivity |]. rewrite Hdata.
      split; [exact Hperm |].
      split; [intros Hno; rewrite bool_decide_eq_false_2 in Hshown by exact Hno;
              congruence |].
      split; [intros Hyes; rewrite bool_decide_eq_true_2 in Hshown by exact Hyes;
              exact Hshown |].
      auto.
Qed.


(** What an answer of [/seasonal] shows, against what its requests
    carried. *)
Lemma seasonal_outcome_shows (fuel : nat)
    (api : season_query -> option (list item)) (uid year : Z) (season : pystr)
    (o : browse_outcome season_query) :
  seasonal fuel api uid year season = Some o ->
  b_raised o = None
  /\ ((exists e v, b_sent o = [Page e v]) <-> carried api (b_requests o) <> [])
  /\ forall (e : embed) (v : PaginationView),
       Page e v ∈ b_sent o ->
       e = get_embed v
       /\ data v = carried api (b_requests o)
       /\ user_id v = uid
       /\ is_ranking v = true
       /\ current_page v = 0
       /\ in_range v
       /\ buttons_match v.
Proof.
  intros Ho.
  destruct (seasonal_runs fuel api uid year season o Ho)
    as [Hraised [(Hnone & _ & (text & Hsent))
                | (_ & _ & _ & [(Hgot & (text & Hsent))
                               | (Hgot & heading & Hsent)])]];
    (split; [exact Hraised |]); rewrite Hsent.
  - rewrite Hnone. unfold carried. cbn [flat_map].
    split.
    + split; [intros (e & v & He); discriminate | congruence].
    + intros e v Hin. apply list_elem_of_singleton in Hin. discriminate.
  - rewrite Hgot. split.
    + split; [intros (e & v & He); discriminate | congruence].
    + intros e v Hin. apply list_elem_of_singleton in Hin. discriminate.
  - destruct (init_starts (carried api (b_requests o)) heading uid None true Hgot)
      as (Hdata & Huser & Hranking & Hpage & Hrange & Hbuttons).
    split.
    + split; [intros _; exact Hgot | intros _; eauto].
    + intros e v Hin. apply list_elem_of_singleton in Hin.
      injection Hin as -> ->. auto 10.
Qed.


(** X24: the browsing commands go on asking exactly as long as upstream
    answers with full pages.  After any number of rounds, [/list] has not
    answered exactly when its arguments are valid and every page so far
    came back with 100 entries or more, and [/seasonal] exactly when the
    season is valid and every page so far came back with 500 or more; so
    both answer as soon as one page fails or comes back short. *)
Theorem browsing_goes_on_while_pages_are_full (fuel : nat) :
  (forall (api : list_query -> option (list item)) (uid : Z)
          (username sm : pystr) (status : option pystr),
      list_command fuel api uid username sm status = None
      <-> sm ∈ [lit "alphabetical"; lit "score"]
          /\ (forall st, status = Some st -> st ∈ valid_statuses)
          /\ forall i : nat, (i < fuel)%nat ->
               exists page,
                 api {| lq_username := username;
                        lq_status := upstream_status status;
                        lq_limit := 100; lq_offset := 100 * Z.of_nat i |}
                 = Some page
                 /\ 100 <= len page)
  /\ (forall (api : season_query -> option (list item)) (uid year : Z)
             (season : pystr),
         seasonal fuel api uid year season = None
         <-> lower season ∈ valid_seasons
             /\ forall i : nat, (i < fuel)%nat ->
                  exists page,
                    api {| sq_year := year; sq_season := lower season;
                           sq_limit := 500;
                           sq_sort := lit "anime_num_list_users";
                           sq_offset := 500 * Z.of_nat i |}
                    = Some page
                    /\ 500 <= len page).
Proof.
  split.
  - intros api uid username sm status. unfold list_command.
    destruct (bool_decide (sm ∈ [lit "alphabetical"; lit "score"])) eqn:Hsm;
      cbn [negb].
    2: { apply bool_decide_eq_false in Hsm.
         split; [discriminate | intros [Hin _]; destruct (Hsm Hin)]. }
    apply bool_decide_eq_true in Hsm.
    destruct (match status with
              | Some st => negb (bool_decide (st ∈ valid_statuses))
              | None => false
              end) eqn:Hst.
    { split; [discriminate |]. intros (_ & Hvalid & _).
      destruct status as [st |]; [| discriminate].
      apply negb_true_iff, bool_decide_eq_false in Hst.
      destruct (Hst (Hvalid st eq_refl)). }
    assert (Hvalid : forall st, status = Some st -> st ∈ valid_statuses).
    { intros st ->. apply negb_false_iff, bool_decide_eq_true in Hst. exact Hst. }
    pose proof (fetch_pages_unended 100
                  (fun offset => {| lq_username := username;
                                    lq_status := upstream_status status;
                                    lq_limit := 100; lq_offset := offset |})
                  api
                  (fun offset => get_user_anime_list api username
                                   (upstream_status status) 100 offset)
                  fuel
                  (fun offset => list_query_shape api username status offset Hvalid))
      as Hloop.
    destruct (fetch_pages _ _ _ _ _ _) as [[all_anime log] |].
    + split.
      * destruct all_anime as [| a rest]; [discriminate |].
        destruct (if bool_decide (sm = lit "score") then _ else _); discriminate.
      * intros (_ & _ & Hfull). apply Hloop in Hfull. discriminate.
    + split; [| reflexivity].
      intros _. split; [exact Hsm | split; [exact Hvalid |]].
      apply Hloop. reflexivity.
  - intros api uid year season. unfold seasonal.
    destruct (bool_decide (lower season ∈ valid_seasons)) eqn:Hseason; cbn [negb].
    2: { apply bool_decide_eq_false in Hseason.
         split; [discriminate | intros [Hin _]; destruct (Hseason Hin)]. }
    apply bool_decide_eq_true in Hseason.
    pose proof (fetch_pages_unended 500
                  (fun offset => {| sq_year := year; sq_season := lower season;
                                    sq_limit := 500;
                                    sq_sort := lit "anime_num_list_users";
                                    sq_offset := offset |})
                  api
                  (fun offset => get_seasonal_anime api year (lower season) 500 offset)
                  fuel
                  (fun offset => season_query_shape api year (lower season) offset))
      as Hloop.
    destruct (fetch_pages _ _ _ _ _ _) as [[all_anime log] |].
    + split.
      * destruct all_anime as [| a rest]; discriminate.
      * intros (_ & Hfull). apply Hloop in Hfull. discriminate.
    + split; [| reflexivity].
      intros _. split; [exact Hseason |]. apply Hloop. reflexivity.
Qed.

(** ** The browsing commands against an upstream whose paging ends *)

Import Paging.

Lemma ends_at_spec {Q} (api : Q -> option (list item)) (page : nat -> Q)
    (size : Z) (k : nat) :
  ends_at api page size k = true ->
  (forall i : nat, (i < k)%nat ->
     exists data, api (page i) = Some data /\ size <= len data)
  /\ (forall data, api (page k) = Some data -> len data < size).
Proof.
  unfold ends_at. intros H. apply andb_true_iff in H. destruct H as [Hfull Hlast].
  rewrite forallb_forall in Hfull. split.
  - intros i Hi.
    assert (Hin : In i (seq 0 k)) by (apply in_seq; lia).
    specialize (Hfull i Hin). unfold full in Hfull.
    destruct (api (page i)) as [data |]; [| discriminate].
    exists data. split; [reflexivity | apply Z.leb_le; exact Hfull].
  - intros data Hd. apply negb_true_iff in Hlast. unfold full in Hlast.
    rewrite Hd in Hlast. apply Z.leb_gt in Hlast. exact Hlast.
Qed.

(** Once page [k] is the first that fails or comes short, the loop ends
    with it whatever more rounds it is given: it has asked for the pages
    up to [k] and has what they carried. *)
Lemma fetch_pages_ends {Q} (size : Z) (mk : Z -> Q)
    (api : Q -> option (list item)) (ask : Z -> Q * option (list item))
    (k : nat) :
  (forall offset, ask offset = (mk offset, api (mk offset))) ->
  ends_at api (fun i => mk (size * Z.of_nat i)) size k = true ->
  forall fuel : nat, (k < fuel)%nat ->
  fetch_pages fuel size ask [] 0 []
  = Some (carried api (map (fun i => mk (size * Z.of_nat i)) (seq 0 (S k))),
          map (fun i => mk (size * Z.of_nat i)) (seq 0 (S k))).
Proof.
  intros Hask Hends fuel Hfuel.
  destruct (ends_at_spec api _ size k Hends) as [Hfull Hlast].
  cbv beta in Hfull, Hlast.
  destruct (fetch_pages fuel size ask [] 0 []) as [res |] eqn:Hres.
  - destruct (fetch_pages_some size ask fuel [] 0 [] res Hres)
      as (k' & _ & Hlog & _ & Hfull' & Hlast').
    cbn [app Z.add] in Hlog, Hfull', Hlast'.
    assert (Hk : k' = k).
    { destruct (lt_eq_lt_dec k' k) as [[Hlt | Heq] | Hgt]; [| exact Heq |].
      - destruct (Hfull k' Hlt) as (data & Hd & Hlen).
        rewrite Z.add_0_l, Hask in Hlast'. cbn [snd] in Hlast'.
        destruct Hlast' as [Hnone | (data' & Hd' & Hshort)]; [congruence |].
        rewrite Hd in Hd'. injection Hd' as <-. lia.
      - destruct (Hfull' k Hgt) as (data & Hd & Hlen).
        rewrite Z.add_0_l, Hask in Hd. cbn [snd] in Hd.
        specialize (Hlast data Hd). lia. }
    subst k'.
    destruct (fetch_pages_log size mk api ask fuel res Hask Hres) as (Hfst & _ & _).
    assert (Hlog' : snd res = map (fun i => mk (size * Z.of_nat i)) (seq 0 (S k))).
    { rewrite Hlog. apply map_ext. intros i. rewrite Hask. reflexivity. }
    destruct res as [all_anime log]. cbn [fst snd] in Hfst, Hlog'.
    subst log. subst all_anime. reflexivity.
  - pose proof (proj1 (fetch_pages_none size ask fuel [] 0 []) Hres) as Hon.
    destruct (Hon k Hfuel) as (data & Hd & Hlen).
    rewrite Z.add_0_l, Hask in Hd. cbn [snd] in Hd.
    specialize (Hlast data Hd). lia.
Qed.

Lemma list_command_ends (api : list_query -> option (list item)) (uid : Z)
    (username sm : pystr) (status : option pystr) (k : nat) :
  sm ∈ [lit "alphabetical"; lit "score"] ->
  (forall st, status = Some st -> st ∈ valid_statuses) ->
  ends_at api (list_page username status) 100 k = true ->
  exists o : browse_outcome list_query,
    (forall fuel : nat, (k < fuel)%nat ->
       list_command fuel api uid username sm status = Some o)
    /\ b_requests o = map (list_page username status) (seq 0 (S k)).
Proof.
  intros Hsm Hvalid Hends.
  assert (Hfetch : forall fuel : nat, (k < fuel)%nat ->
            fetch_pages fuel 100
              (fun offset => get_user_anime_list api username
                               (upstream_status status) 100 offset) [] 0 []
            = Some (carried api (map (list_page username status) (seq 0 (S k))),
                    map (list_page username status) (seq 0 (S k)))).
  { intros fuel Hfuel.
    apply (fetch_pages_ends 100
             (fun offset => {| lq_username := username;
                               lq_status := upstream_status status;
                               lq_limit := 100; lq_offset := offset |})
             api _ k);
      [intros offset; apply list_query_shape; exact Hvalid
      | exact Hends | exact Hfuel]. }
  assert (Hst : match status with
                | Some st => negb (bool_decide (st ∈ valid_statuses))
                | None => false
                end = false).
  { destruct status as [st |]; [| reflexivity].
    rewrite bool_decide_eq_true_2 by (apply Hvalid; reflexivity). reflexivity. }
  assert (Hsame : forall fuel : nat, (k < fuel)%nat ->
            list_command fuel api uid username sm status
            = list_command (S k) api uid username sm status).
  { intros fuel Hfuel. unfold list_command.
    rewrite (Hfetch fuel Hfuel), (Hfetch (S k) (Nat.lt_succ_diag_r k)).
    reflexivity. }
  assert (Hsome : exists o : browse_outcome list_query,
            list_command (S k) api uid username sm status = Some o
            /\ b_requests o = map (list_page username status) (seq 0 (S k))).
  { unfold list_command.
    rewrite (Hfetch (S k) (Nat.lt_succ_diag_r k)).
    rewrite (bool_decide_eq_true_2 _ Hsm). cbn [negb]. rewrite Hst.
    cbv beta iota.
    destruct (carried api (map (list_page username status) (seq 0 (S k))))
      as [| a rest]; [eexists; split; reflexivity |].
    destruct (if bool_decide (sm = lit "score")
              then sorted_by_score (a :: rest) else Some (a :: rest));
      eexists; split; reflexivity. }
  destruct Hsome as (o & Ho & Hreq). exists o.
  split; [| exact Hreq].
  intros fuel Hfuel. rewrite (Hsame fuel Hfuel). exact Ho.
Qed.

Lemma seasonal_ends (api : season_query -> option (list item)) (uid year : Z)
    (season : pystr) (k : nat) :
  lower season ∈ valid_seasons ->
  ends_at api (season_page year season) 500 k = true ->
  exists o : browse_outcome season_query,
    (forall fuel : nat, (k < fuel)%nat ->
       seasonal fuel api uid year season = Some o)
    /\ b_requests o = map (season_page year season) (seq 0 (S k)).
Proof.
  intros Hseason Hends.
  assert (Hfetch : forall fuel : nat, (k < fuel)%nat ->
            fetch_pages fuel 500
              (fun offset => get_seasonal_anime api year (lower season) 500 offset)
              [] 0 []
            = Some (carried api (map (season_page year season) (seq 0 (S k))),
                    map (season_page year season) (seq 0 (S k)))).
  { intros fuel Hfuel.
    apply (fetch_pages_ends 500
             (fun offset => {| sq_year := year; sq_season := lower season;
                               sq_limit := 500;
                               sq_sort := lit "anime_num_list_users";
                               sq_offset := offset |})
             api _ k);
      [intros offset; apply season_query_shape | exact Hends | exact Hfuel]. }
  assert (Hsame : forall fuel : nat, (k < fuel)%nat ->
            seasonal fuel api uid year season = seasonal (S k) api uid year season).
  { intros fuel Hfuel. unfold seasonal.
    rewrite (Hfetch fuel Hfuel), (Hfetch (S k) (Nat.lt_succ_diag_r k)).
    reflexivity. }
  assert (Hsome : exists o : browse_outcome season_query,
            seasonal (S k) api uid year season = Some o
            /\ b_requests o = map (season_page year season) (seq 0 (S k))).
  { unfold seasonal.
    rewrite (Hfetch (S k) (Nat.lt_succ_diag_r k)).
    rewrite (bool_decide_eq_true_2 _ Hseason). cbn [negb]. cbv beta iota.
    destruct (carried api (map (season_page year season) (seq 0 (S k))))
      as [| a rest]; eexists; split; reflexivity. }
  destruct Hsome as (o & Ho & Hreq). exists o.
  split; [| exact Hreq].
  intros fuel Hfuel. rewrite (Hsame fuel Hfuel). exact Ho.
Qed.

(** X22: [/list] answers, and what it shows is what it fetched.  With a
    valid sorting method and status, against an upstream whose page [k] is
    the first that fails or comes short, the command comes to one and the
    same answer however many rounds beyond [k] its loop is allowed, after
    asking for the pages 0 to [k].  It sends a page exactly when the
    answers carried some entry and the sort did not fail; the page is the
    first of a view of the user who asked, over the entries the answers
    carried: in the order they came when the list is not sorted by score,
    and sorted by score otherwise.  The sort ends the command in
    [KeyError], with nothing sent, exactly when the list is sorted by score
    and some entry fetched has no score. *)
Theorem list_shows_what_it_fetched
    (api : list_query -> option (list item)) (uid : Z) (username sm : pystr)
    (status : option pystr) (k : nat) :
  sm ∈ [lit "alphabetical"; lit "score"] ->
  (forall st, status = Some st -> st ∈ valid_statuses) ->
  ends_at api (list_page username status) 100 k = true ->
  exists o : browse_outcome list_query,
    (forall fuel : nat, (k < fuel)%nat ->
       list_command fuel api uid username sm status = Some o)
    /\ b_requests o = map (list_page username status) (seq 0 (S k))
    /\ (b_raised o = Some KeyError
        <-> sm = lit "score"
            /\ Exists (fun anime => score_of anime = None)
                 (carried api (b_requests o)))
    /\ (b_raised o = Some KeyError -> b_sent o = [])
    /\ ((exists e v, b_sent o = [Page e v])
        <-> carried api (b_requests o) <> [] /\ b_raised o = None)
    /\ forall (e : embed) (v : PaginationView),
         Page e v ∈ b_sent o ->
         e = get_embed v
         /\ data v ≡ₚ carried api (b_requests o)
         /\ (sm <> lit "score" -> data v = carried api (b_requests o))
         /\ (sm = lit "score"
             -> sorted_by_score (carried api (b_requests o)) = Some (data v))
         /\ user_id v = uid
         /\ is_ranking v = false
         /\ current_page v = 0
         /\ in_range v
         /\ buttons_match v.
Proof.
  intros Hsm Hvalid Hends.
  destruct (list_command_ends api uid username sm status k Hsm Hvalid Hends)
    as (o & Hrun & Hreq).
  exists o. split; [exact Hrun | split; [exact Hreq |]].
  apply (list_outcome_shows (S k) api uid username sm status o).
  apply Hrun. lia.
Qed.

Lemma list_shows_what_it_fetched_witness :
  exists o : browse_outcome list_query,
    (forall fuel : nat, (0 < fuel)%nat ->
       list_command fuel (one_page shelf) 7 (lit "bob") (lit "score") None = Some o)
    /\ b_requests o = map (list_page (lit "bob") None) (seq 0 1)
    /\ ((exists e v, b_sent o = [Page e v])
        <-> carried (one_page shelf) (b_requests o) <> [] /\ b_raised o = None).
Proof.
  destruct (list_shows_what_it_fetched (one_page shelf) 7 (lit "bob") (lit "score")
              None 0)
    as (o & Hrun & Hreq & _ & _ & Hpage & _).
  - apply (bool_decide_unpack _). vm_compute. exact I.
  - intros st Hst. discriminate Hst.
  - reflexivity.
  - exists o. split; [exact Hrun | split; [exact Hreq | exact Hpage]].
Defined.

(** X23: [/seasonal] answers, and what it shows is what it fetched.  With
    a valid season, against an upstream whose page [k] is the first that
    fails or comes short, the command comes to one and the same answer
    however many rounds beyond [k] its loop is allowed, after asking for
    the pages 0 to [k].  It sends a page exactly when the answers carried
    some entry, and the page is the first one of a ranking view of the user
    who asked, over the entries the answers carried, in the order they
    came. *)
Theorem seasonal_shows_what_it_fetched
    (api : season_query -> option (list item)) (uid year : Z) (season : pystr)
    (k : nat) :
  lower season ∈ valid_seasons ->
  ends_at api (season_page year season) 500 k = true ->
  exists o : browse_outcome season_query,
    (forall fuel : nat, (k < fuel)%nat ->
       seasonal fuel api uid year season = Some o)
    /\ b_requests o = map (season_page year season) (seq 0 (S k))
    /\ ((exists e v, b_sent o = [Page e v]) <-> carried api (b_requests o) <> [])
    /\ forall (e : embed) (v : PaginationView),
         Page e v ∈ b_sent o ->
         e = get_embed v
         /\ data v = carried api (b_requests o)
         /\ user_id v = uid
         /\ is_ranking v = true
         /\ current_page v = 0
         /\ in_range v
         /\ buttons_match v.
Proof.
  intros Hseason Hends.
  destruct (seasonal_ends api uid year season k Hseason Hends)
    as (o & Hrun & Hreq).
  exists o. split; [exact Hrun | split; [exact Hreq |]].
  apply (seasonal_outcome_shows (S k) api uid year season o).
  apply Hrun. lia.
Qed.

Lemma seasonal_shows_what_it_fetched_witness :
  exists o : browse_outcome season_query,
    (forall fuel : nat, (0 < fuel)%nat ->
       seasonal fuel (one_season_page shelf) 7 2024 (lit "Winter") = Some o)
    /\ b_requests o = map (season_page 2024 (lit "Winter")) (seq 0 1)
    /\ ((exists e v, b_sent o = [Page e v])
        <-> carried (one_season_page shelf) (b_requests o) <> []).
Proof.
  destruct (seasonal_shows_what_it_fetched (one_season_page shelf) 7 2024
              (lit "Winter") 0)
    as (o & Hrun & Hreq & Hpage & _).
  - apply (bool_decide_unpack _). vm_compute. exact I.
  - reflexivity.
  - exists o. split; [exact Hrun | split; [exact Hreq | exact Hpage]].
Defined.
